(** * Dispatch platform core: a shallow embedding and its properties

    The JavaScript services of the repository are embedded as Rocq
    functions with explicit state passing.  Conventions:

    - a JS number that is a count, an amount or an epoch in milliseconds
      is a [Z]; a JS number that takes part in fractional arithmetic
      (TTL multipliers, threat scores, coordinates, distances) is an
      IEEE-754 binary64 [float], so products such as [3.0 * 1.2] round
      exactly as they do in the source;
    - [Date.now()] is a parameter of the function that reads it;
    - a [Map] whose iteration order is observable is an insertion-ordered
      association list ([JsMap]); other maps and plain objects used as
      dictionaries are [gmap string _];
    - a function that can throw returns a sum, the error on the right;
    - writes to external collaborators (document store, audit log,
      notifier) are appended to an event list kept in the state, and
      are taken to succeed;
    - modules are wired as their [require] lines intend them; an
      identifier that no line of its file binds is unbound, and
      evaluating it throws. *)

From Stdlib Require Import ZArith Lia List String Ascii Bool Sorted.
From Stdlib Require Import Floats.
From stdpp Require Import gmap strings list pretty.

Set Warnings "-inexact-float".
Local Open Scope string_scope.
Local Open Scope list_scope.
Local Open Scope Z_scope.

(* ================================================================== *)
(** * Part I: the embedding                                            *)
(* ================================================================== *)

(** ** JavaScript primitives shared by the services *)

Module Js.

(** [c.toUpperCase()] on an ASCII character. *)
Definition toUpperCase (c : ascii) : ascii :=
  let n := nat_of_ascii c in
  if ((97 <=? n) && (n <=? 122))%nat then ascii_of_nat (n - 32) else c.

(** [s.charAt(0).toUpperCase() + s.slice(1)]. *)
Definition capitalize (s : string) : string :=
  match s with
  | EmptyString => EmptyString
  | String c rest => String (toUpperCase c) rest
  end.

(** [hay.includes(needle)]. *)
Fixpoint includes (needle hay : string) : bool :=
  String.prefix needle hay ||
  match hay with
  | EmptyString => false
  | String _ rest => includes needle rest
  end.

(** [s.startsWith(p)]. *)
Definition startsWith (p s : string) : bool := String.prefix p s.

(** [a.splice(0, a.length - keep)] guarded by [a.length > cap]: the
    bounded-log idiom used by every rolling window of the code base. *)
Definition trim {A} (cap keep : nat) (a : list A) : list A :=
  if (cap <? length a)%nat then skipn (length a - keep) a else a.

(** [Array.prototype.sort(compare)], by the sign of the comparator:
    [after a b] is [compare(a, b) > 0].  The sort is stable; insertion
    from the right keeps the input order of the elements the comparator
    does not separate. *)
Fixpoint insertBy {A} (after : A -> A -> bool) (x : A) (l : list A) : list A :=
  match l with
  | [] => [x]
  | y :: l' => if after x y then y :: insertBy after x l' else x :: y :: l'
  end.

Definition sortBy {A} (after : A -> A -> bool) (l : list A) : list A :=
  foldr (insertBy after) [] l.

(** Truthiness of a number: everything but [0], [-0] and [NaN]. *)
Definition truthy (x : float) : bool :=
  negb (PrimFloat.eqb x 0%float) && PrimFloat.eqb x x.

(** An integer below [2^53] as a double. *)
Definition of_Z (z : Z) : float :=
  if z <? 0 then PrimFloat.opp (PrimFloat.of_uint63 (Uint63.of_Z (- z)))
  else PrimFloat.of_uint63 (Uint63.of_Z z).

(** [Math.floor]. *)
Definition Math_floor (x : float) : float :=
  match Prim2SF x with
  | S754_finite s m e =>
      if 0 <=? e then x
      else
        let q := Z.shiftr (Z.pos m) (- e) in
        let exact := Z.shiftl q (- e) =? Z.pos m in
        if s then (if exact then x else PrimFloat.opp (of_Z (q + 1)))
        else of_Z q
  | _ => x
  end.

(** [Math.min] and [Math.max] on two arguments ([NaN] is contagious). *)
Definition Math_min (a b : float) : float :=
  if negb (PrimFloat.eqb a a) then a
  else if negb (PrimFloat.eqb b b) then b
  else if PrimFloat.ltb b a then b else a.

Definition Math_max (a b : float) : float :=
  if negb (PrimFloat.eqb a a) then a
  else if negb (PrimFloat.eqb b b) then b
  else if PrimFloat.ltb a b then b else a.

(** [Math.ceil]: the value of [-Math.floor(-x)]. *)
Definition Math_ceil (x : float) : float :=
  PrimFloat.opp (Math_floor (PrimFloat.opp x)).

(** [Math.PI]. *)
Definition Math_PI : float := 0x1.921fb54442d18p+1%float.

(** [keys.add(k)] on a [Set] of strings, kept in insertion order. *)
Definition Set_add (keys : list string) (k : string) : list string :=
  if existsb (String.eqb k) keys then keys else keys ++ [k].

Fixpoint zeros (n : nat) : string :=
  match n with
  | O => EmptyString
  | S n' => String "0" (zeros n')
  end.

(** The digits of [n] with a point before the last [fractionDigits] of
    them, padded with zeros on the left up to one digit before the
    point. *)
Definition fixedDigits (fractionDigits : nat) (n : Z) : string :=
  let m := pretty n in
  let m := if (String.length m <=? fractionDigits)%nat
           then String.append (zeros (fractionDigits + 1 - String.length m)) m
           else m in
  let k := String.length m in
  if (fractionDigits =? 0)%nat then m
  else String.append (substring 0 (k - fractionDigits) m)
         (String "." (substring (k - fractionDigits) fractionDigits m)).

Section Rendering.

(** [Number::toString], which [toFixed] falls back on for a magnitude of
    [1e21] or more, is a parameter. *)
Variable Number_toString : float -> string.

(** [x.toFixed(fractionDigits)]: [n] is the integer for which
    [n / 10^f - x] is closest to zero, the larger one if there are two,
    computed on the exact value of the double; the sign is written for
    a negative [x] even if [n] is zero, and not for [-0]. *)
Definition toFixed (fractionDigits : nat) (x : float) : string :=
  match Prim2SF x with
  | S754_nan => "NaN"
  | S754_infinity s => if s then "-Infinity" else "Infinity"
  | S754_zero _ => fixedDigits fractionDigits 0
  | S754_finite s m e =>
      let large := if 0 <=? e then 10 ^ 21 <=? Z.pos m * 2 ^ e
                   else 10 ^ 21 * 2 ^ (- e) <=? Z.pos m in
      if large then Number_toString x
      else
        let scale := 10 ^ Z.of_nat fractionDigits in
        let n := if 0 <=? e then Z.pos m * 2 ^ e * scale
                 else (2 * Z.pos m * scale + 2 ^ (- e)) / (2 * 2 ^ (- e)) in
        String.append (if s then "-" else "") (fixedDigits fractionDigits n)
  end.

End Rendering.

End Js.

(** ** Insertion-ordered maps ([new Map()] where order is observable) *)

Module JsMap.

Section Ops.
Context {V : Type}.

Fixpoint get (k : string) (m : list (string * V)) : option V :=
  match m with
  | [] => None
  | (k', v) :: m' => if String.eqb k' k then Some v else get k m'
  end.

(** [m.set(k, v)]: an existing key keeps its position. *)
Fixpoint set (k : string) (v : V) (m : list (string * V)) : list (string * V) :=
  match m with
  | [] => [(k, v)]
  | (k', v') :: m' =>
      if String.eqb k' k then (k', v) :: m' else (k', v') :: set k v m'
  end.

Fixpoint delete (k : string) (m : list (string * V)) : list (string * V) :=
  match m with
  | [] => []
  | (k', v') :: m' =>
      if String.eqb k' k then delete k m' else (k', v') :: delete k m'
  end.


Definition values (m : list (string * V)) : list V := map snd m.

Definition keys (m : list (string * V)) : list string := map fst m.

End Ops.

End JsMap.

(** ** Errors

    The code throws plain [Error]s and [HttpsError]s; the taxonomy of
    the specification is kept as the [class] of the value thrown. *)

Inductive ErrorClass :=
| Unauthenticated | PermissionDenied | InvalidArgument | NotFound
| ResourceExhausted | CircuitOpen | Timeout | Transient | Internal.

Record JsError := mkError { class : ErrorClass; message : string }.

(** One call of [SecurityLogger.logCriticalAction(subject, action, _)]. *)
Record CriticalAction := mkCritical { subject : string; action : string }.

(** ** 024-smart-resource-management.js *)

Module SmartResourceManager.

Definition resourceLimits : gmap string Z :=
  list_to_map
    [ ("maxConcurrentDispatch", 100);
      ("maxMemoryUsage", 512 * 1024 * 1024);
      ("maxCPUUsage", 80);
      ("maxDatabaseConnections", 50) ].

Definition initialUsage : gmap string Z :=
  list_to_map
    [ ("activeDispatch", 0); ("memoryUsage", 0);
      ("cpuUsage", 0); ("databaseConnections", 0) ].

(** A record added to the [resource_alerts] collection. *)
Record ResourceAlert := mkAlert {
  alertResourceType : string;
  alertCurrentUsage : Z;
  alertLimit : Z;
  alertRequested : Z
}.

Record State := mkState {
  resourceUsage : gmap string Z;
  resourceAlerts : list ResourceAlert;
  prioritizeCalls : nat;
  criticalLog : list CriticalAction
}.

Definition initial : State := mkState initialUsage [] 0 [].

Inductive AcquireError :=
| UndefinedResourceType (resourceType : string)
| ResourceLimitExceeded (resourceType : string) (wanted limit : Z).

(** The object returned by [acquireResource]; [release] is the closure
    [() => this.releaseResource(resourceType, amount)]. *)
Record Handle := mkHandle { resourceType : string; amount : Z }.

Definition limitKey (resourceType : string) : string :=
  String.append "max" (Js.capitalize resourceType).

Definition releaseResource (st : State) (resourceType : string) (amount : Z) : State :=
  let current := default 0 (resourceUsage st !! resourceType) in
  mkState (<[resourceType := Z.max 0 (current - amount)]> (resourceUsage st))
          (resourceAlerts st) (prioritizeCalls st) (criticalLog st).

Definition release (h : Handle) (st : State) : State :=
  releaseResource st (resourceType h) (amount h).

Definition handleResourceExhaustion
    (st : State) (resourceType : string) (current limit requested : Z) : State :=
  mkState (resourceUsage st)
          (resourceAlerts st ++ [mkAlert resourceType current limit requested])
          (if String.eqb resourceType "activeDispatch"
           then S (prioritizeCalls st) else prioritizeCalls st)
          (criticalLog st ++ [mkCritical "system" "resource_exhaustion"]).

Definition acquireResource (st : State) (resourceType : string) (amount : Z)
  : State * (Handle + AcquireError) :=
  match resourceLimits !! limitKey resourceType with
  | None => (st, inr (UndefinedResourceType resourceType))
  | Some limit =>
      let currentUsage := default 0 (resourceUsage st !! resourceType) in
      if limit <? currentUsage + amount then
        (handleResourceExhaustion st resourceType currentUsage limit amount,
         inr (ResourceLimitExceeded resourceType (currentUsage + amount) limit))
      else
        (mkState (<[resourceType := currentUsage + amount]> (resourceUsage st))
                 (resourceAlerts st) (prioritizeCalls st) (criticalLog st),
         inl (mkHandle resourceType amount))
  end.

(** [executeWithResourceManagement]: [resourceRequirements] as the list
    of its [Object.entries]; the operation may touch the state. *)
Inductive Failure :=
| AcquireFailed (e : AcquireError)
| OperationFailed (e : JsError).

(** The [for] loop of acquisitions: the handles pushed so far and the
    error that stopped the loop, if any. *)
Fixpoint acquireAll (resourceRequirements : list (string * Z)) (st : State)
  : State * list Handle * option AcquireError :=
  match resourceRequirements with
  | [] => (st, [], None)
  | (type, amount) :: rest =>
      match acquireResource st type amount with
      | (st', inl resource) =>
          let '(st'', resources, failed) := acquireAll rest st' in
          (st'', resource :: resources, failed)
      | (st', inr e) => (st', [], Some e)
      end
  end.

(** [resources.forEach(resource => resource.release())]. *)
Definition releaseAll (resources : list Handle) (st : State) : State :=
  foldl (fun s resource => release resource s) st resources.

Definition executeWithResourceManagement {V : Type}
    (operation : State -> State * (V + JsError))
    (resourceRequirements : list (string * Z)) (st : State)
  : State * (V + Failure) :=
  let '(st1, resources, failed) := acquireAll resourceRequirements st in
  match failed with
  | Some e => (releaseAll resources st1, inr (AcquireFailed e))
  | None =>
      let '(st2, result) := operation st1 in
      (releaseAll resources st2,
       match result with
       | inl v => inl v
       | inr e => inr (OperationFailed e)
       end)
  end.

(** One entry of [getResourceStatus]; the [percentage] string is left
    out. *)
Record ResourceStatus := mkStatus { current : Z; limit : Z; available : Z }.

Definition getResourceStatus (st : State) : gmap string ResourceStatus :=
  map_imap (fun key value =>
              let limit := default 0 (resourceLimits !! limitKey key) in
              Some (mkStatus value limit (Z.max 0 (limit - value))))
           (resourceUsage st).

(** The handles held, as [type, amount] entries. *)
Definition pairsOf (resources : list Handle) : list (string * Z) :=
  map (fun h => (resourceType h, amount h)) resources.

(** The current count of a resource type, [this.resourceUsage[type] || 0]. *)
Definition usageOf (st : State) (resourceType : string) : Z :=
  default 0 (resourceUsage st !! resourceType).

End SmartResourceManager.

(** ** index.js: [dispatchOrder] *)

Module DispatchOrder.

(** What the callable throws: an [HttpsError] with its code, or any
    other error. *)
Inductive Thrown :=
| Https (code message : string)
| Plain (message : string).

(** The outer [catch]: an [HttpsError] is rethrown, anything else is
    wrapped as [internal]. *)
Definition surface (t : Thrown) : Thrown :=
  match t with
  | Https code message => Https code message
  | Plain message =>
      Https "internal" (String.append "An unexpected error occurred: " message)
  end.

(** The values [acquireResource] throws. *)
Definition acquireThrown (e : SmartResourceManager.AcquireError) : Thrown :=
  match e with
  | SmartResourceManager.UndefinedResourceType resourceType =>
      Plain (String.append "Undefined resource type: " resourceType)
  | SmartResourceManager.ResourceLimitExceeded resourceType wanted limit =>
      Https "resource-exhausted"
        (String.append "Resource limit exceeded for "
           (String.append resourceType
              (String.append ": "
                 (String.append (pretty wanted) (String.append "/" (pretty limit))))))
  end.

(** [dispatchOrder].  [prelude] is what the security validation and the
    flow tracking before the acquisition throw, if they do; [body] is
    the inner [try] block (driver search, matching, notifications),
    which receives the handle's state and returns what it returns or
    throws. *)
Definition dispatchOrder {V : Type} (prelude : option Thrown)
    (body : SmartResourceManager.State -> SmartResourceManager.State * (V + Thrown))
    (st : SmartResourceManager.State)
  : SmartResourceManager.State * (V + Thrown) :=
  match prelude with
  | Some t => (st, inr (surface t))
  | None =>
      match SmartResourceManager.acquireResource st "activeDispatch" 1 with
      | (st1, inr e) => (st1, inr (surface (acquireThrown e)))
      | (st1, inl resource) =>
          let '(st2, result) := body st1 in
          (SmartResourceManager.release resource st2,
           match result with
           | inl v => inl v
           | inr t => inr (surface t)
           end)
      end
  end.

End DispatchOrder.

(** ** 030-background-job-scheduler.js *)

Module BackgroundJobScheduler.

(** [schedule] is a number (a one-shot epoch) or a string. *)
Inductive Schedule := OneShot (epoch : Z) | Token (s : string).

Inductive Priority := high | normal | low.

Inductive Status := st_scheduled | st_running | st_completed | st_failed | st_timeout.

(** The [options] argument of [scheduleJob]: every key may be absent. *)
Record ScheduleOptions := mkScheduleOptions {
  optPriority : option Priority;
  optMaxRetries : option Z;
  optTimeout : option Z
}.

(** [job.options] once the defaults are filled in. *)
Record Options := mkOptions { priority : Priority; maxRetries : Z; timeout : Z }.

Record Job := mkJob {
  id : string;
  schedule : Schedule;
  options : Options;
  nextRun : Z;
  lastRun : option Z;
  retryCount : Z;
  status : Status;
  startedAt : option Z;
  executionTime : option Z;
  lastError : option string
}.

Record State := mkState {
  jobs : list (string * Job);
  currentlyRunning : gset string;
  criticalLog : list CriticalAction
}.

Definition initial : State := mkState [] ∅ [].

Definition maxConcurrentJobs : nat := 5.

Definition intervals : list (string * Z) :=
  [ ("every second", 1000);
    ("every 5 seconds", 5 * 1000);
    ("every 10 seconds", 10 * 1000);
    ("every 30 seconds", 30 * 1000);
    ("every minute", 60 * 1000);
    ("every 5 minutes", 5 * 60 * 1000);
    ("every 10 minutes", 10 * 60 * 1000);
    ("every 30 minutes", 30 * 60 * 1000);
    ("every hour", 60 * 60 * 1000);
    ("every day", 24 * 60 * 60 * 1000) ].

Definition parseInterval (scheduleString : string) : Z :=
  default (60 * 1000) (JsMap.get scheduleString intervals).

Definition calculateNextRun (now : Z) (schedule : Schedule) : Z :=
  match schedule with
  | OneShot t => if now <? t then t else now
  | Token s =>
      if Js.startsWith "every " s then now + parseInterval s else now + 60000
  end.

Definition isOneShot (schedule : Schedule) : bool :=
  match schedule with OneShot _ => true | Token _ => false end.

(** The spread [...options] comes last in the literal, so a key that is
    present wins over the [||] default computed before it. *)
Definition fillOptions (o : ScheduleOptions) : Options :=
  mkOptions (default normal (optPriority o))
            (default 3 (optMaxRetries o))
            (default 300000 (optTimeout o)).

Definition scheduleJob (now : Z) (jobId : string) (schedule : Schedule)
    (o : ScheduleOptions) (st : State) : State :=
  let job := mkJob jobId schedule (fillOptions o) (calculateNextRun now schedule)
                   None 0 st_scheduled None None None in
  mkState (JsMap.set jobId job (jobs st)) (currentlyRunning st) (criticalLog st).

Definition priorityOrder (p : Priority) : Z :=
  match p with high => 0 | normal => 1 | low => 2 end.

(** Sign of the comparator of [getReadyJobs]: [true] when it is positive. *)
Definition readyAfter (a b : Job) : bool :=
  let priorityDiff := priorityOrder (priority (options a)) - priorityOrder (priority (options b)) in
  if negb (priorityDiff =? 0) then 0 <? priorityDiff
  else 0 <? nextRun a - nextRun b.

Definition isReady (now : Z) (running : gset string) (job : Job) : bool :=
  (nextRun job <=? now) &&
  (match status job with
   | st_scheduled => true
   | st_failed => retryCount job <? maxRetries (options job)
   | _ => false
   end) &&
  negb (bool_decide (id job ∈ running)).

Definition getReadyJobs (now : Z) (st : State) : list Job :=
  Js.sortBy readyAfter (filter (fun j => isReady now (currentlyRunning st) j = true)
                            (JsMap.values (jobs st))).

Definition removeJob (jobId : string) (st : State) : State :=
  mkState (JsMap.delete jobId (jobs st)) (currentlyRunning st ∖ {[jobId]}) (criticalLog st).

(** How the race [Promise.race([job.function(), timeoutPromise])] ends. *)
Inductive Outcome := Resolved | Rejected (message : string) | TimerFired.

Definition handleJobSuccess (now : Z) (job : Job) : Job :=
  let executionTime := now - default 0 (startedAt job) in
  if isOneShot (schedule job) then
    mkJob (id job) (schedule job) (options job) (nextRun job)
          (Some now) 0 st_completed (startedAt job) (Some executionTime) (lastError job)
  else
    mkJob (id job) (schedule job) (options job) (calculateNextRun now (schedule job))
          (Some now) 0 st_scheduled (startedAt job) (Some executionTime) (lastError job).

Definition handleJobError (now : Z) (job : Job) (message : string)
  : Job * list CriticalAction :=
  let retryCount := retryCount job + 1 in
  let executionTime := now - default 0 (startedAt job) in
  if retryCount <? maxRetries (options job) then
    (mkJob (id job) (schedule job) (options job) (now + retryCount * 30000)
           (lastRun job) retryCount st_scheduled (startedAt job)
           (Some executionTime) (Some message), [])
  else
    (mkJob (id job) (schedule job) (options job) (nextRun job)
           (lastRun job) retryCount st_failed (startedAt job)
           (Some executionTime) (Some message),
     [mkCritical "system" "job_failed_max_retries"]).

Definition timeoutMessage (job : Job) : string :=
  String.append "Job timed out after "
    (String.append (pretty (timeout (options job))) "ms").

Definition handleJobTimeout (now : Z) (job : Job) : Job * list CriticalAction :=
  let retryCount := retryCount job + 1 in
  let executionTime := now - default 0 (startedAt job) in
  if retryCount <? maxRetries (options job) then
    (mkJob (id job) (schedule job) (options job) (now + retryCount * 60000)
           (lastRun job) retryCount st_scheduled (startedAt job)
           (Some executionTime) (Some (timeoutMessage job)), [])
  else
    (mkJob (id job) (schedule job) (options job) (nextRun job)
           (lastRun job) retryCount st_timeout (startedAt job)
           (Some executionTime) (Some (timeoutMessage job)),
     [mkCritical "system" "job_timeout_max_retries"]).

(** [executeJob] up to its [await]: the part that runs inside the tick. *)
Definition startJob (now : Z) (jobId : string) (st : State) : State :=
  match JsMap.get jobId (jobs st) with
  | None => st
  | Some job =>
      let job' := mkJob (id job) (schedule job) (options job) (nextRun job)
                        (lastRun job) (retryCount job) st_running (Some now)
                        (executionTime job) None in
      mkState (JsMap.set jobId job' (jobs st))
              (currentlyRunning st ∪ {[jobId]}) (criticalLog st)
  end.

(** The condition of the [finally] block. *)
Definition isTerminal (job : Job) : bool :=
  isOneShot (schedule job) &&
  match status job with
  | st_completed => true
  | st_failed => maxRetries (options job) <=? retryCount job
  | _ => false
  end.

(** [executeJob] after its [await]: the handler chosen by the outcome,
    then the [finally] block.  The job object is the one stored in the
    table, so its mutation is a write to the table. *)
Definition settleJob (now : Z) (jobId : string) (o : Outcome) (st : State) : State :=
  match JsMap.get jobId (jobs st) with
  | None => mkState (jobs st) (currentlyRunning st ∖ {[jobId]}) (criticalLog st)
  | Some job =>
      let '(job', logged) :=
        match o with
        | Resolved => (handleJobSuccess now job, [])
        | TimerFired => handleJobTimeout now job
        | Rejected message =>
            if Js.includes "Job timed out" message
            then handleJobTimeout now job
            else handleJobError now job message
        end in
      let st' := mkState (JsMap.set jobId job' (jobs st))
                         (currentlyRunning st ∖ {[jobId]})
                         (criticalLog st ++ logged) in
      if isTerminal job' then removeJob jobId st' else st'
  end.

Definition executeJob (tStart tEnd : Z) (jobId : string) (o : Outcome) (st : State) : State :=
  settleJob tEnd jobId o (startJob tStart jobId st).

(** One tick: start the ready jobs in order until the concurrency cap
    is reached; returns the ids started. *)
Fixpoint dispatchReady (now : Z) (ready : list Job) (st : State) : State * list string :=
  match ready with
  | [] => (st, [])
  | job :: rest =>
      if (maxConcurrentJobs <=? size (currentlyRunning st))%nat then (st, [])
      else
        let '(st', started) := dispatchReady now rest (startJob now (id job) st) in
        (st', id job :: started)
  end.

Definition processJobQueue (now : Z) (st : State) : State * list string :=
  dispatchReady now (getReadyJobs now st) st.

(** Scenario 5 of the specification: a one-shot job scheduled for [now]
    with [maxRetries = 2] whose function throws [message]; it is run at
    [now] and fails at once, then run again at [t2] and fails at [t2']. *)
Definition retryOptions : ScheduleOptions := mkScheduleOptions None (Some 2) None.

Definition afterFirstFailure (now : Z) (jobId message : string) : State :=
  executeJob now now jobId (Rejected message)
    (scheduleJob now jobId (OneShot now) retryOptions initial).

Definition afterSecondFailure (now t2 t2' : Z) (jobId message : string) : State :=
  executeJob t2 t2' jobId (Rejected message) (afterFirstFailure now jobId message).

(** The order one tick dispatches in: priority first ([high] before
    [normal] before [low]), then the earlier [nextRun]. *)
Definition readyBefore (a b : Job) : Prop :=
  priorityOrder (priority (options a)) < priorityOrder (priority (options b)) \/
  (priorityOrder (priority (options a)) = priorityOrder (priority (options b)) /\
   nextRun a <= nextRun b).

(** The registrations of [initializeSystemJobs], in source order. *)
Definition systemJobs : list (string * string * ScheduleOptions) :=
  [ ("auto_cleanup", "every 30 minutes",
     mkScheduleOptions (Some normal) (Some 2) (Some 120000));
    ("performance_monitoring_report", "every 10 minutes",
     mkScheduleOptions (Some low) (Some 1) (Some 60000));
    ("cache_optimization_preload", "every hour",
     mkScheduleOptions (Some low) (Some 1) (Some 60000));
    ("security_report_generation", "every 30 minutes",
     mkScheduleOptions (Some high) (Some 3) (Some 120000));
    ("resource_monitoring_snapshot", "every 5 minutes",
     mkScheduleOptions (Some normal) (Some 1) (Some 30000));
    ("driver_spatial_index_cleanup", "every 10 minutes",
     mkScheduleOptions (Some normal) (Some 2) (Some 60000));
    ("demand_prediction_update", "every 15 minutes",
     mkScheduleOptions (Some normal) (Some 2) (Some 60000));
    ("driver_utilization_prediction_update", "every 30 minutes",
     mkScheduleOptions (Some normal) (Some 2) (Some 60000)) ].

(** Each [scheduleJob] reads the clock itself: [clock i] is the reading
    of the registration number [i]. *)
Fixpoint registerAll (clock : nat -> Z) (i : nat)
    (registrations : list (string * string * ScheduleOptions)) (st : State) : State :=
  match registrations with
  | [] => st
  | (jobId, token, o) :: rest =>
      registerAll clock (S i) rest (scheduleJob (clock i) jobId (Token token) o st)
  end.

Definition initializeSystemJobs (clock : nat -> Z) (st : State) : State :=
  registerAll clock 0 systemJobs st.

End BackgroundJobScheduler.

(** ** 027-performance-monitor.js and 028-error-handler-circuit-breaker.js *)

Module CircuitBreakerErrorHandler.

Inductive BreakerState := CLOSED | OPEN | HALF_OPEN.

Record Breaker := mkBreaker { state : BreakerState; failures : Z; resetTime : Z }.

Record ErrorPattern := mkPattern { patternMessage : string; patternTimestamp : Z }.

(** An entry of [PerformanceMonitor.metrics]. *)
Record Metric := mkMetric {
  executionTime : Z;
  memoryDelta : Z;
  success : bool;
  timestamp : Z
}.

Record PerfAlert := mkPerfAlert { alertType : string; functionName : string; alertTimestamp : Z }.

Record Notification := mkNotification {
  title : string;
  severity : string;
  channels : list string
}.

(** The process-local state the wrapper reads and writes, with the
    clock that [Date.now()] reads. *)
Record World := mkWorld {
  clock : Z;
  circuitBreakers : gmap string Breaker;
  errorPatterns : gmap string (list ErrorPattern);
  metrics : gmap string (list Metric);
  alerts : list PerfAlert;
  notifications : list Notification;
  criticalLog : list CriticalAction
}.

Definition emptyWorld (t : Z) : World := mkWorld t ∅ ∅ ∅ [] [] [].

Definition setClock (t : Z) (w : World) : World :=
  mkWorld t (circuitBreakers w) (errorPatterns w) (metrics w) (alerts w)
          (notifications w) (criticalLog w).

Definition setBreaker (k : string) (b : Breaker) (w : World) : World :=
  mkWorld (clock w) (<[k := b]> (circuitBreakers w)) (errorPatterns w) (metrics w)
          (alerts w) (notifications w) (criticalLog w).

Definition notify (n : Notification) (w : World) : World :=
  mkWorld (clock w) (circuitBreakers w) (errorPatterns w) (metrics w) (alerts w)
          (notifications w ++ [n]) (criticalLog w).

Definition logCriticalAction (a : CriticalAction) (w : World) : World :=
  mkWorld (clock w) (circuitBreakers w) (errorPatterns w) (metrics w) (alerts w)
          (notifications w) (criticalLog w ++ [a]).

(** [delay(ms)]: the timer resolves [ms] later. *)
Definition delay (ms : Z) (w : World) : World := setClock (clock w + ms) w.

Record Config := mkConfig {
  maxFailures : Z;
  resetTimeoutMs : Z;
  retryAttempts : nat;
  retryDelayMs : Z
}.

Definition defaultConfig : Config := mkConfig 5 30000 3 1000.

(** Scenario 3 of the specification fixes [maxFailures = 2] and
    [resetTimeout = 100 ms]; the retry settings are left open. *)
Definition scenarioConfig (attempts : nat) (retryDelay : Z) : Config :=
  mkConfig 2 100 attempts retryDelay.

(** Thresholds of [PerformanceMonitor]. *)
Definition responseTimeThreshold : Z := 5000.
Definition memoryUsageThreshold : Z := 128 * 1024 * 1024.

Definition recordMetric (functionName : string) (m : Metric) (w : World) : World :=
  let functionMetrics := default [] (metrics w !! functionName) ++ [m] in
  mkWorld (clock w) (circuitBreakers w) (errorPatterns w)
          (<[functionName := Js.trim 200 100 functionMetrics]> (metrics w))
          (alerts w) (notifications w) (criticalLog w).

Definition generateAlert (type functionName : string) (w : World) : World :=
  let pushed := alerts w ++ [mkPerfAlert type functionName (clock w)] in
  let kept := if (100 <? length pushed)%nat then skipn 50 pushed else pushed in
  let w' := mkWorld (clock w) (circuitBreakers w) (errorPatterns w) (metrics w)
                    kept (notifications w) (criticalLog w) in
  if String.eqb type "SLOW_EXECUTION" || String.eqb type "HIGH_MEMORY_USAGE"
  then notify (mkNotification (String.append "Performance Alert: " type)
                              "normal" ["email"; "slack"]) w'
  else w'.

Definition isCircuitOpen (breakerKey : string) (w : World) : World * bool :=
  match circuitBreakers w !! breakerKey with
  | None => (w, false)
  | Some breaker =>
      match state breaker with
      | OPEN =>
          if resetTime breaker <? clock w
          then (setBreaker breakerKey
                  (mkBreaker HALF_OPEN (failures breaker) (resetTime breaker)) w, false)
          else (w, true)
      | _ => (w, false)
      end
  end.

Definition recordSuccess (breakerKey : string) (w : World) : World :=
  match circuitBreakers w !! breakerKey with
  | None => w
  | Some breaker =>
      match state breaker with
      | HALF_OPEN => setBreaker breakerKey (mkBreaker CLOSED 0 0) w
      | CLOSED => setBreaker breakerKey (mkBreaker CLOSED 0 (resetTime breaker)) w
      | OPEN => w
      end
  end.

Definition recordErrorPattern (breakerKey : string) (error : JsError) (w : World) : World :=
  let patterns := default [] (errorPatterns w !! breakerKey)
                  ++ [mkPattern (message error) (clock w)] in
  mkWorld (clock w) (circuitBreakers w)
          (<[breakerKey := Js.trim 50 25 patterns]> (errorPatterns w))
          (metrics w) (alerts w) (notifications w) (criticalLog w).

Definition recordFailure (breakerKey : string) (error : JsError)
    (maxFailures resetTimeoutMs : Z) (w : World) : World :=
  let w0 :=
    match circuitBreakers w !! breakerKey with
    | None => setBreaker breakerKey (mkBreaker CLOSED 0 0) w
    | Some _ => w
    end in
  let breaker := default (mkBreaker CLOSED 0 0) (circuitBreakers w0 !! breakerKey) in
  match state breaker with
  | OPEN => w0
  | st =>
      let failures := failures breaker + 1 in
      let w1 := recordErrorPattern breakerKey error
                  (setBreaker breakerKey (mkBreaker st failures (resetTime breaker)) w0) in
      if (maxFailures <=? failures) && (match st with CLOSED => true | _ => false end) then
        notify (mkNotification "CRITICAL: Circuit Breaker Opened" "critical" ["email"; "slack"])
          (logCriticalAction (mkCritical "system" "circuit_breaker_opened")
             (setBreaker breakerKey (mkBreaker OPEN failures (clock w1 + resetTimeoutMs)) w1))
      else
        match st with
        | HALF_OPEN =>
            setBreaker breakerKey (mkBreaker OPEN failures (clock w1 + resetTimeoutMs)) w1
        | _ => w1
        end
  end.

(** A history of errors logged in turn on one key, each at its own
    clock reading. *)
Definition recordErrorPatterns (breakerKey : string) (history : list (Z * JsError))
    (w : World) : World :=
  foldl (fun w '(t, error) => recordErrorPattern breakerKey error (setClock t w)) w history.

(** The entry [recordErrorPattern] pushes for an error logged at [t]. *)
Definition patternOf (logged : Z * JsError) : ErrorPattern :=
  mkPattern (message (snd logged)) (fst logged).

Section Wrapper.
Context {V : Type}.

(** One invocation of the wrapped operation: how long it takes, the
    heap growth sampled around it, and how it settles. *)
Record Attempt := mkAttempt { elapsed : Z; heapDelta : Z; outcome : V + JsError }.

(** The operation, by the number of the attempt that invokes it. *)
Definition Operation := nat -> Attempt.

Inductive Result :=
| Returned (v : V)
| Thrown (e : option JsError).   (* [None]: [throw undefined] *)

Definition trackFunction (functionName : string) (a : Attempt) (w : World)
  : World * (V + JsError) :=
  let w1 := setClock (clock w + elapsed a) w in
  match outcome a with
  | inl v =>
      let w2 := recordMetric functionName
                  (mkMetric (elapsed a) (heapDelta a) true (clock w1)) w1 in
      let w3 := if responseTimeThreshold <? elapsed a
                then generateAlert "SLOW_EXECUTION" functionName w2 else w2 in
      let w4 := if memoryUsageThreshold <? heapDelta a
                then generateAlert "HIGH_MEMORY_USAGE" functionName w3 else w3 in
      (w4, inl v)
  | inr e =>
      (recordMetric functionName (mkMetric (elapsed a) 0 false (clock w1)) w1, inr e)
  end.

(** The [for] loop, with [remaining = retryAttempts - attempt + 1]
    iterations to go; the last component counts the invocations of the
    operation. *)
Fixpoint retryLoop (remaining attempt : nat) (operation : Operation)
    (operationName breakerKey : string) (cfg : Config)
    (lastError : option JsError) (w : World) : World * (V + option JsError) * nat :=
  match remaining with
  | O => (w, inr lastError, O)
  | S remaining' =>
      match trackFunction operationName (operation attempt) w with
      | (w1, inl result) => (recordSuccess breakerKey w1, inl result, 1%nat)
      | (w1, inr error) =>
          let w2 := recordFailure breakerKey error (maxFailures cfg) (resetTimeoutMs cfg) w1 in
          let w3 := if (attempt <? retryAttempts cfg)%nat
                    then delay (retryDelayMs cfg * Z.of_nat attempt) w2 else w2 in
          let '(w4, r, n) := retryLoop remaining' (S attempt) operation operationName
                               breakerKey cfg (Some error) w3 in
          (w4, r, S n)
      end
  end.

(** The world the loop has reached after [m] attempts in a row have
    thrown, the first of them numbered [attempt]: each is tracked,
    recorded as a failure and followed by its pause. *)
Fixpoint afterFailures (m attempt : nat) (operation : Operation) (errors : nat -> JsError)
    (operationName breakerKey : string) (cfg : Config) (w : World) : World :=
  match m with
  | O => w
  | S m' =>
      let w1 := fst (trackFunction operationName (operation attempt) w) in
      let w2 := recordFailure breakerKey (errors attempt)
                  (maxFailures cfg) (resetTimeoutMs cfg) w1 in
      let w3 := if (attempt <? retryAttempts cfg)%nat
                then delay (retryDelayMs cfg * Z.of_nat attempt) w2 else w2 in
      afterFailures m' (S attempt) operation errors operationName breakerKey cfg w3
  end.

(** Time spent inside the operation by attempts [1 .. j]. *)
Definition timeInside (operation : Operation) (j : nat) : Z :=
  foldr (fun i acc => elapsed (operation i) + acc) 0 (seq 1 j).

Definition breakerKeyOf (operationName identifier : string) : string :=
  String.append operationName (String.append "_" identifier).

Definition circuitOpenError (operationName : string) : JsError :=
  mkError CircuitOpen
    (String.append "Circuit breaker is OPEN for "
       (String.append operationName ". Too many recent failures.")).

Definition handleAsyncWithCircuitBreaker (operation : Operation)
    (operationName identifier : string) (cfg : Config) (w : World)
  : World * Result * nat :=
  let breakerKey := breakerKeyOf operationName identifier in
  match isCircuitOpen breakerKey w with
  | (w0, true) => (w0, Thrown (Some (circuitOpenError operationName)), O)
  | (w0, false) =>
      match retryLoop (retryAttempts cfg) 1 operation operationName breakerKey cfg None w0 with
      | (w1, inl result, n) => (w1, Returned result, n)
      | (w1, inr lastError, n) =>
          (logCriticalAction (mkCritical "system" "operation_failed_all_retries") w1,
           Thrown lastError, n)
      end
  end.

End Wrapper.

End CircuitBreakerErrorHandler.

(** ** 003-utilities-helpers.js: [CacheManager] *)

Module CacheManager.

Section Cache.
Context {T : Type}.

(** The object stored under a key: [{ data, timestamp, ttl }], the TTL
    in milliseconds. *)
Record CacheEntry := mkEntry { data : T; timestamp : Z; ttl : Z }.

(** [get(key)]; [None] is [null].  The entry is only read: an expired
    entry stays in the map. *)
Definition get (now : Z) (key : string) (cache : gmap string CacheEntry) : option T :=
  match cache !! key with
  | Some cached =>
      if now - timestamp cached <? ttl cached then Some (data cached) else None
  | None => None
  end.

Definition set (now : Z) (key : string) (data : T) (ttlMinutes : Z)
    (cache : gmap string CacheEntry) : gmap string CacheEntry :=
  <[key := mkEntry data now (ttlMinutes * 60 * 1000)]> cache.

Definition invalidate (pattern : string) (cache : gmap string CacheEntry)
  : gmap string CacheEntry :=
  filter (fun kv => Js.includes pattern (fst kv) = false) cache.

(** A later history of [set] calls, each with its own clock reading. *)
Definition setAll (calls : list (Z * string * T * Z)) (cache : gmap string CacheEntry)
  : gmap string CacheEntry :=
  foldl (fun c '(t, k, d, m) => set t k d m c) cache calls.

End Cache.

Definition TTL_DRIVER_LIST : Z := 2.
Definition TTL_ZONE_DATA : Z := 30.
Definition TTL_CONFIG : Z := 60.
Definition TTL_VENDOR_DATA : Z := 15.

End CacheManager.

(** ** 026-advanced-cache-manager.js *)

Module AdvancedCacheManager.

Record HitRate := mkHitRate { hits : Z; total : Z }.

Record State := mkState {
  accessPatterns : gmap string (list Z);
  hitRates : gmap string HitRate
}.

Definition recordAccess (now : Z) (key : string) (st : State) : State :=
  let pattern := default [] (accessPatterns st !! key) ++ [now] in
  mkState (<[key := Js.trim 200 100 pattern]> (accessPatterns st)) (hitRates st).

Definition recordHit (key : string) (st : State) : State :=
  let stats := default (mkHitRate 0 0) (hitRates st !! key) in
  mkState (accessPatterns st)
          (<[key := mkHitRate (hits stats + 1) (total stats + 1)]> (hitRates st)).

Definition recordMiss (key : string) (st : State) : State :=
  let stats := default (mkHitRate 0 0) (hitRates st !! key) in
  mkState (accessPatterns st)
          (<[key := mkHitRate (hits stats) (total stats + 1)]> (hitRates st)).

(** Accesses in the last hour. *)
Definition recentAccesses (now : Z) (accessPattern : list Z) : list Z :=
  List.filter (fun time => now - time <? 60 * 60 * 1000) accessPattern.

Definition frequencyMultiplier (accessFrequency : nat) : float :=
  if (50 <? accessFrequency)%nat then 3.0%float
  else if (20 <? accessFrequency)%nat then 2.0%float
  else if (accessFrequency <? 5)%nat then 0.5%float
  else 1.0%float.

Definition hitRateMultiplier (hitRate : option HitRate) (multiplier : float) : float :=
  match hitRate with
  | Some hr =>
      if 10 <? total hr then
        let hitRatePercent := PrimFloat.div (Js.of_Z (hits hr)) (Js.of_Z (total hr)) in
        if PrimFloat.ltb 0.9%float hitRatePercent then PrimFloat.mul multiplier 1.2%float
        else if PrimFloat.ltb hitRatePercent 0.3%float then PrimFloat.mul multiplier 0.8%float
        else multiplier
      else multiplier
  | None => multiplier
  end.

Definition calculateOptimalTTL (now : Z) (key : string) (baseMinutes : float)
    (st : State) : float :=
  let accessPattern := default [] (accessPatterns st !! key) in
  if (length accessPattern <? 5)%nat then baseMinutes
  else
    let accessFrequency := length (recentAccesses now accessPattern) in
    let multiplier :=
      hitRateMultiplier (hitRates st !! key) (frequencyMultiplier accessFrequency) in
    Js.Math_max 1%float
      (Js.Math_min 120%float (Js.Math_floor (PrimFloat.mul baseMinutes multiplier))).

(** [getWithSmartTTL] and the inherited cache it goes through.  The TTL
    it hands to [set] is the double [calculateOptimalTTL] returns, so
    the entry keeps its TTL in milliseconds as a double.  [T] is the
    type of the values other than [null] (with [undefined] among them,
    which [!== null] lets through); what a loader resolves to and what
    an entry holds is an [option T], [None] being [null]. *)
Section SmartTTL.
Context {T : Type}.

Record Entry := mkEntry { data : option T; timestamp : Z; ttl : float }.

Record Store := mkStore { cache : gmap string Entry; stats : State }.

(** [super.get(key)]: the data of a live entry, which may be [null],
    and [null] when there is no live entry. *)
Definition super_get (now : Z) (key : string) (cache : gmap string Entry) : option T :=
  match cache !! key with
  | Some cached =>
      if PrimFloat.ltb (Js.of_Z (now - timestamp cached)) (ttl cached)
      then data cached else None
  | None => None
  end.

(** [super.set(key, data, ttlMinutes)]. *)
Definition super_set (now : Z) (key : string) (data : option T) (ttlMinutes : float)
    (cache : gmap string Entry) : gmap string Entry :=
  <[key := mkEntry data now (PrimFloat.mul (PrimFloat.mul ttlMinutes 60) 1000)]> cache.

(** [fallbackFunction] is given by what it resolves to and the clock
    reading when it does; the last component of the result tells
    whether it was invoked.  The test is [cached !== null], so a live
    entry that holds [null] takes the miss path. *)
Definition getWithSmartTTL (now : Z) (key : string) (fallbackFunction : option T * Z)
    (baseMinutes : float) (s : Store) : Store * option T * bool :=
  let st1 := recordAccess now key (stats s) in
  match super_get now key (cache s) with
  | Some cached => (mkStore (cache s) (recordHit key st1), Some cached, false)
  | None =>
      let st2 := recordMiss key st1 in
      let '(data, resolvedAt) := fallbackFunction in
      let optimizedTTL := calculateOptimalTTL resolvedAt key baseMinutes st2 in
      (mkStore (super_set resolvedAt key data optimizedTTL (cache s)) st2, data, true)
  end.

(** One call of [getWithSmartTTL], as a caller issues it. *)
Record Request := mkRequest {
  issuedAt : Z;
  requestKey : string;
  loader : option T * Z;
  requestBase : float
}.

(** A sequence of calls, each completed before the next; with the
    store it leaves, for every call its key and whether its loader
    ran. *)
Fixpoint serve (requests : list Request) (s : Store) : Store * list (string * bool) :=
  match requests with
  | [] => (s, [])
  | r :: rest =>
      let '(s1, _, loaded) :=
        getWithSmartTTL (issuedAt r) (requestKey r) (loader r) (requestBase r) s in
      let '(s2, served) := serve rest s1 in
      (s2, (requestKey r, loaded) :: served)
  end.

(** Calls made for a key, and those of them whose loader ran. *)
Definition callsFor (key : string) (served : list (string * bool)) : Z :=
  Z.of_nat (length (List.filter (fun c => String.eqb (fst c) key) served)).

Definition loadsFor (key : string) (served : list (string * bool)) : Z :=
  Z.of_nat (length (List.filter (fun c => String.eqb (fst c) key && snd c) served)).

End SmartTTL.

End AdvancedCacheManager.

(** ** 025-enhanced-security-monitoring.js *)

Module EnhancedSecurityMonitoring.

Record ActivityEntry := mkActivity { activity : string; timestamp : Z }.

Record SecurityMetrics := mkMetrics {
  totalThreats : Z;
  blockedAttempts : Z;
  fraudScoreTotal : float;
  lastThreatDetected : option Z;
  highThreats : Z;
  mediumThreats : Z;
  lowThreats : Z
}.

(** The fields of [contextData] that the analyses read. *)
Record ContextData := mkContext {
  multipleDevices : bool;
  rapidLocationChanges : bool;
  unusualUserAgent : bool;
  excessiveFailedLogins : bool;
  vpnDetected : bool;
  torDetected : bool;
  automatedBehaviorDetected : bool;
  unusualTransactionPattern : bool;
  clientIP : option string
}.

(** What [user_behavior_patterns/{userId}] answers to
    [AIFraudDetection.checkBehaviorPatterns]. *)
Inductive BehaviorSnapshot :=
| SnapshotError
| SnapshotMissing
| SnapshotData (activities : gmap string Z) (activeHours : list Z).

(** The collaborators read during one evaluation. *)
Record Environment := mkEnvironment {
  now : Z;                        (* Date.now() *)
  hour : Z;                       (* new Date().getHours() *)
  suspiciousIPs : gset string;    (* AdvancedSecurityManager.suspiciousIPs *)
  maliciousIPs : gset string;     (* the malicious_ips collection *)
  behaviorSnapshot : BehaviorSnapshot
}.

(** The fields [handleHighThreatActivity] writes to [users/{userId}]. *)
Record UserSecurity := mkUserSecurity {
  securityFlag : string;
  threatScore : float;
  lastThreatActivity : string;
  suspended : bool
}.

(** A record added to [security_incidents]. *)
Record Incident := mkIncident {
  incidentUser : string;
  incidentActivity : string;
  incidentScore : float;
  severity : string;
  autoActions : list string;
  requiresReview : bool
}.

Record Notice := mkNotice { noticeTitle : string; noticeSeverity : string }.

Record State := mkState {
  suspiciousPatterns : gmap string (list ActivityEntry);
  securityMetrics : SecurityMetrics;
  users : gmap string UserSecurity;
  incidents : list Incident;
  criticalLog : list CriticalAction;
  notices : list Notice
}.

Definition initial : State :=
  mkState ∅ (mkMetrics 0 0 0%float None 0 0 0) ∅ [] [] [].

Definition addActivityToPattern (now : Z) (userId activity : string) (st : State) : State :=
  let userActivities := default [] (suspiciousPatterns st !! userId)
                        ++ [mkActivity activity now] in
  mkState (<[userId := Js.trim 200 100 userActivities]> (suspiciousPatterns st))
          (securityMetrics st) (users st) (incidents st) (criticalLog st) (notices st).

Definition logCriticalAction (a : CriticalAction) (st : State) : State :=
  mkState (suspiciousPatterns st) (securityMetrics st) (users st) (incidents st)
          (criticalLog st ++ [a]) (notices st).

(** [if (condition) score += points]. *)
Definition addIf (condition : bool) (points : float) (score : float) : float :=
  if condition then PrimFloat.add score points else score.

Definition analyzeSessionBehavior (contextData : ContextData) : float :=
  addIf (excessiveFailedLogins contextData) 25
    (addIf (unusualUserAgent contextData) 15
       (addIf (rapidLocationChanges contextData) 30
          (addIf (multipleDevices contextData) 20 0%float))).

Definition inSet (ip : option string) (ips : gset string) : bool :=
  match ip with
  | Some a => bool_decide (a ∈ ips)
  | None => false
  end.

Definition analyzeNetworkPatterns (env : Environment) (contextData : ContextData) : float :=
  addIf (torDetected contextData) 35
    (addIf (vpnDetected contextData) 10
       (addIf (inSet (clientIP contextData) (maliciousIPs env)) 60
          (addIf (inSet (clientIP contextData) (suspiciousIPs env)) 40 0%float))).

Definition hasRapidActionPattern (now : Z) (userId activity : string) (st : State) : bool :=
  match suspiciousPatterns st !! userId with
  | None => false
  | Some pattern =>
      if (length pattern <? 5)%nat then false
      else
        let oneMinuteAgo := now - 60000 in
        let recentSpecificActions :=
          List.filter (fun entry => String.eqb (EnhancedSecurityMonitoring.activity entry) activity
                                    && (oneMinuteAgo <? timestamp entry)) pattern in
        let recentTotalActions :=
          List.filter (fun entry => oneMinuteAgo <? timestamp entry) pattern in
        if (5 <? length recentSpecificActions)%nat then true
        else if (15 <? length recentTotalActions)%nat then true
        else false
  end.

Definition analyzeTemporalPatterns (env : Environment) (userId activity : string)
    (st : State) : float :=
  addIf (hasRapidActionPattern (now env) userId activity st) 25
    (addIf ((0 <=? hour env) && (hour env <=? 5)) 15 0%float).

(** [AIFraudDetection.checkBehaviorPatterns] (018-ai-fraud-detection.js). *)
Definition checkBehaviorPatterns (env : Environment) (activity : string) : float :=
  match behaviorSnapshot env with
  | SnapshotError => 0%float
  | SnapshotMissing => 10%float
  | SnapshotData activities activeHours =>
      let typicalActivityFreq := default 0 (activities !! activity) in
      addIf (negb (bool_decide (hour env ∈ activeHours))) 15
        (addIf ((typicalActivityFreq =? 0) && String.eqb activity "high_value_order") 25
           0%float)
  end.

Definition analyzeBehaviorAnomalies (env : Environment) (activity : string)
    (contextData : ContextData) : float :=
  let aiBehaviorScore := checkBehaviorPatterns env activity in
  addIf (unusualTransactionPattern contextData) 30
    (addIf (automatedBehaviorDetected contextData) 40
       (PrimFloat.add 0%float (PrimFloat.mul aiBehaviorScore 0.8%float))).

Definition calculateThreatScore (env : Environment) (userId activity : string)
    (contextData : ContextData) (st : State) : State * float :=
  let score := PrimFloat.add 0%float (analyzeSessionBehavior contextData) in
  let score := PrimFloat.add score (analyzeNetworkPatterns env contextData) in
  let score := PrimFloat.add score (analyzeTemporalPatterns env userId activity st) in
  let score := PrimFloat.add score (analyzeBehaviorAnomalies env activity contextData) in
  (logCriticalAction (mkCritical userId "threat_score_calculated") st,
   Js.Math_min score 100%float).

Definition handleHighThreatActivity (userId activity : string) (score : float)
    (st : State) : State :=
  let extreme := PrimFloat.ltb 95%float score in
  mkState (suspiciousPatterns st) (securityMetrics st)
          (<[userId := mkUserSecurity "HIGH_THREAT" score activity extreme]> (users st))
          (incidents st ++
             [mkIncident userId activity score "HIGH"
                (["account_flagged"; "admin_notified"]
                 ++ (if extreme then ["account_suspended"] else []))
                false])
          (criticalLog st ++ [mkCritical userId "high_threat_detected"])
          (notices st ++ [mkNotice "CRITICAL: High Security Threat Detected" "critical"]).

Definition handleMediumThreatActivity (userId activity : string) (score : float)
    (st : State) : State :=
  mkState (suspiciousPatterns st) (securityMetrics st) (users st)
          (incidents st ++ [mkIncident userId activity score "MEDIUM" [] true])
          (criticalLog st ++ [mkCritical userId "medium_threat_detected"])
          (notices st ++ [mkNotice "Security Alert: Medium Threat Detected" "urgent"]).

Definition setMetrics (m : SecurityMetrics) (st : State) : State :=
  mkState (suspiciousPatterns st) m (users st) (incidents st) (criticalLog st) (notices st).

Definition countThreat (level : string) (m : SecurityMetrics) : SecurityMetrics :=
  mkMetrics (totalThreats m) (blockedAttempts m) (fraudScoreTotal m) (lastThreatDetected m)
            (if String.eqb level "high" then highThreats m + 1 else highThreats m)
            (if String.eqb level "medium" then mediumThreats m + 1 else mediumThreats m)
            (if String.eqb level "low" then lowThreats m + 1 else lowThreats m).

Definition updateSecurityMetrics (now : Z) (threatScore : float) (st : State) : State :=
  let m := securityMetrics st in
  let blocked := PrimFloat.leb 50%float threatScore in
  setMetrics
    (mkMetrics (totalThreats m + 1)
               (if blocked then blockedAttempts m + 1 else blockedAttempts m)
               (PrimFloat.add (fraudScoreTotal m) threatScore)
               (if blocked then Some now else lastThreatDetected m)
               (highThreats m) (mediumThreats m) (lowThreats m))
    st.

Definition detectAdvancedThreats (env : Environment) (userId activity : string)
    (contextData : ContextData) (st : State) : State * float :=
  let st1 := addActivityToPattern (now env) userId activity st in
  let '(st2, threatScore) := calculateThreatScore env userId activity contextData st1 in
  let st3 :=
    if PrimFloat.leb 75%float threatScore then
      let st' := handleHighThreatActivity userId activity threatScore st2 in
      setMetrics (countThreat "high" (securityMetrics st')) st'
    else if PrimFloat.leb 50%float threatScore then
      let st' := handleMediumThreatActivity userId activity threatScore st2 in
      setMetrics (countThreat "medium" (securityMetrics st')) st'
    else if PrimFloat.leb 30%float threatScore then
      setMetrics (countThreat "low" (securityMetrics st2)) st2
    else st2 in
  (updateSecurityMetrics (now env) threatScore st3, threatScore).

(** One evaluation, as a caller requests it, and a sequence of them,
    each completed before the next. *)
Record Evaluation := mkEvaluation {
  evalEnvironment : Environment;
  evalUser : string;
  evalActivity : string;
  evalContext : ContextData
}.

Definition detectAll (evaluations : list Evaluation) (st : State) : State :=
  foldl (fun st e =>
           fst (detectAdvancedThreats (evalEnvironment e) (evalUser e) (evalActivity e)
                  (evalContext e) st))
        st evaluations.

(** A subject seen on several devices, through Tor, from an address of
    the local suspicious set, at noon, with an unremarkable history:
    20 + 40 + 35. *)
Definition torFromSuspiciousAddress : ContextData :=
  mkContext true false false false false true false false (Some "203.0.113.7").

Definition noonEnvironment : Environment :=
  mkEnvironment 1700000000000 12 {[ "203.0.113.7" ]} ∅ (SnapshotData ∅ [12]).

End EnhancedSecurityMonitoring.

(** ** 023-optimized-driver-search.js *)

Module OptimizedDriverSearch.

Record Location := mkLocation { latitude : float; longitude : float }.

Record Driver := mkDriver {
  id : string;
  location : option Location;
  active : bool;
  isActive : bool;
  lastSeenOnline : option Z      (* [lastSeenOnline.toMillis()] *)
}.

(** [{ ...driver, distance }]. *)
Record NearDriver := mkNear { driver : Driver; distance : float }.

Definition livenessWindow : Z := 10 * 60 * 1000.

(** [driver.location?.latitude && driver.location?.longitude]. *)
Definition hasPosition (d : Driver) : bool :=
  match location d with
  | Some l => Js.truthy (latitude l) && Js.truthy (longitude l)
  | None => false
  end.

(** The test of [updateSpatialIndex], with [now] read at its start. *)
Definition seenRecently (now : Z) (d : Driver) : bool :=
  active d && isActive d &&
  match lastSeenOnline d with
  | Some t => now - t <? livenessWindow
  | None => false
  end.

(** The test of [cleanupOldIndexEntries], with its own [Date.now()]. *)
Definition stillActive (now : Z) (d : Driver) : bool :=
  let cutoffTime := now - livenessWindow in
  active d && isActive d &&
  match lastSeenOnline d with
  | Some t => cutoffTime <? t
  | None => false
  end.

(** [findIndex] by id, then replace in place or [push]. *)
Fixpoint upsert (d : Driver) (gridDrivers : list Driver) : list Driver :=
  match gridDrivers with
  | [] => [d]
  | c :: rest => if String.eqb (id c) (id d) then d :: rest else c :: upsert d rest
  end.

Definition cleanupOldIndexEntries (now : Z) (spatialIndex : gmap string (list Driver))
  : gmap string (list Driver) :=
  omap (fun drivers =>
          match List.filter (stillActive now) drivers with
          | [] => None
          | activeDrivers => Some activeDrivers
          end) spatialIndex.

(** [getSpatialIndexStatistics]. *)
Record IndexStatistics := mkStatistics {
  totalGrids : Z;
  totalDrivers : Z;
  averageDriversPerGrid : float;
  gridStats : gmap string Z
}.

Definition getSpatialIndexStatistics (spatialIndex : gmap string (list Driver))
  : IndexStatistics :=
  let totalDrivers :=
    map_fold (fun _ drivers total => total + Z.of_nat (length drivers)) 0 spatialIndex in
  let size := Z.of_nat (size spatialIndex) in
  mkStatistics size totalDrivers
    (PrimFloat.div (Js.of_Z totalDrivers) (Js.of_Z (Z.max size 1)))
    ((fun drivers => Z.of_nat (length drivers)) <$> spatialIndex).

(** The thrown [TypeError] of [driver.location.latitude] on a record
    without location. *)
Definition missingLocation : JsError :=
  mkError Internal "Cannot read properties of undefined (reading 'latitude')".

(** The thrown [ReferenceError] of evaluating an identifier that has no
    binding. *)
Definition referenceError (identifier : string) : JsError :=
  mkError Internal (String.append identifier " is not defined").

Section Geometry.

(** [distanceRadius] (haversine, from 003-utilities-helpers.js) needs
    [Math.sin], [Math.cos] and [Math.atan2] and is a parameter.  The
    functions that fill the index are written over the key function
    they call; the class calls its own [getGridKey], defined below. *)
Variable distanceRadius : float -> float -> float -> float -> float.
Variable getGridKey : float -> float -> string.

Definition gridKeyOf (d : Driver) : string :=
  match location d with
  | Some l => getGridKey (latitude l) (longitude l)
  | None => ""
  end.


(** One iteration of the [forEach] of [updateSpatialIndex]. *)
Definition indexDriver (now : Z) (newSpatialIndex : gmap string (list Driver)) (d : Driver)
  : gmap string (list Driver) :=
  if hasPosition d then
    let gridKey := gridKeyOf d in
    let gridDrivers := default [] (newSpatialIndex !! gridKey) in
    if seenRecently now d
    then <[gridKey := upsert d gridDrivers]> newSpatialIndex
    else <[gridKey := gridDrivers]> newSpatialIndex
  else newSpatialIndex.

(** [now] is read on entry, [nowCleanup] by the cleanup that follows. *)
Definition updateSpatialIndex (now nowCleanup : Z) (drivers : list Driver)
  : gmap string (list Driver) :=
  cleanupOldIndexEntries nowCleanup (foldl (indexDriver now) ∅ drivers).

(** The body of the inner [forEach] of [getDriversNearLocation]. *)
Definition visit (latitude0 longitude0 radiusMiles : float)
    (nearbyDrivers : list (string * NearDriver) + JsError) (d : Driver)
  : list (string * NearDriver) + JsError :=
  match nearbyDrivers with
  | inr e => inr e
  | inl m =>
      match location d with
      | None => inr missingLocation
      | Some l =>
          let distance := distanceRadius latitude0 longitude0 (latitude l) (longitude l) in
          if PrimFloat.leb distance radiusMiles
          then inl (JsMap.set (id d) (mkNear d distance) m)
          else inl m
      end
  end.

(** Sign of the comparator [(a, b) => a.distance - b.distance]. *)
Definition fartherThan (a b : NearDriver) : bool :=
  PrimFloat.ltb (distance b) (distance a).

(** Lines 78-98 of [getDriversNearLocation], for the grid keys line 77
    has obtained. *)
Definition collectNearby (spatialIndex : gmap string (list Driver))
    (latitude0 longitude0 radiusMiles : float) (gridKeys : list string)
  : list NearDriver + JsError :=
  let nearbyDrivers :=
    foldl (fun acc key =>
             foldl (visit latitude0 longitude0 radiusMiles) acc
                   (default [] (spatialIndex !! key)))
          (inl []) gridKeys in
  match nearbyDrivers with
  | inl m => inl (Js.sortBy fartherThan (JsMap.values m))
  | inr e => inr e
  end.

End Geometry.

Definition gridSize : float := 0.01%float.

(** The loop [for (let x = start; x <= stop; x += gridSize)]: the values
    [x] takes.  Nothing bounds the number of iterations (from [1e17] on,
    adding [0.01] leaves a double as it is), so the loop is run with
    fuel; [None]: still running when the fuel is spent. *)
Fixpoint steps (fuel : nat) (x stop : float) : option (list float) :=
  match fuel with
  | O => None
  | S fuel' =>
      if PrimFloat.leb x stop
      then option_map (cons x) (steps fuel' (PrimFloat.add x gridSize) stop)
      else Some []
  end.

Section Grid.

(** [Math.cos] and, behind [toFixed], [Number::toString] are
    parameters. *)
Variable Math_cos : float -> float.
Variable Number_toString : float -> string.

Definition getGridKey (latitude longitude : float) : string :=
  let gridLat := PrimFloat.mul (Js.Math_floor (PrimFloat.div latitude gridSize)) gridSize in
  let gridLng := PrimFloat.mul (Js.Math_floor (PrimFloat.div longitude gridSize)) gridSize in
  String.append (Js.toFixed Number_toString 6 gridLat)
    (String.append "_" (Js.toFixed Number_toString 6 gridLng)).

(** The inner loop walks the same longitudes for every latitude, and
    is not entered when the outer loop has no iteration. *)
Definition getNearbyGridKeys (fuel : nat) (latitude longitude radiusMiles : float)
  : option (list string) :=
  let milesPerDegreeLat := 69%float in
  let milesPerDegreeLon :=
    PrimFloat.mul 69%float
      (Math_cos (PrimFloat.div (PrimFloat.mul latitude Js.Math_PI) 180%float)) in
  let latRangeDegrees := PrimFloat.div radiusMiles milesPerDegreeLat in
  let lonRangeDegrees := PrimFloat.div radiusMiles milesPerDegreeLon in
  let startLat :=
    PrimFloat.mul
      (Js.Math_floor (PrimFloat.div (PrimFloat.sub latitude latRangeDegrees) gridSize))
      gridSize in
  let endLat :=
    PrimFloat.mul
      (Js.Math_ceil (PrimFloat.div (PrimFloat.add latitude latRangeDegrees) gridSize))
      gridSize in
  let startLng :=
    PrimFloat.mul
      (Js.Math_floor (PrimFloat.div (PrimFloat.sub longitude lonRangeDegrees) gridSize))
      gridSize in
  let endLng :=
    PrimFloat.mul
      (Js.Math_ceil (PrimFloat.div (PrimFloat.add longitude lonRangeDegrees) gridSize))
      gridSize in
  match steps fuel startLat endLat with
  | None => None
  | Some [] => Some []
  | Some lats =>
      match steps fuel startLng endLng with
      | None => None
      | Some lngs =>
          Some (foldl Js.Set_add []
                  (flat_map (fun lat => map (getGridKey lat) lngs) lats))
      end
  end.

End Grid.

(** What [getAvailableDriversOptimized] returns and caches: the raw
    driver list when the order has no vendor position, the radius
    query's list otherwise. *)
Inductive DriverList := Unranked (ds : list Driver) | Ranked (ds : list NearDriver).

Definition listLength (l : DriverList) : nat :=
  match l with Unranked ds => length ds | Ranked ds => length ds end.

Record OrderData := mkOrder { vendorID : string; vendor : option Location }.

Record DispatchMetadata := mkMeta {
  zone_id : option string;
  currentRound : option Z;
  kDistanceRadiusForDispatchInMiles : option float
}.

Record State := mkState {
  cache : gmap string (@CacheManager.CacheEntry DriverList);
  spatialIndex : gmap string (list Driver);
  fetches : nat                  (* calls of [getAvailableDrivers] so far *)
}.

Definition cacheKeyOf (orderData : OrderData) (dispatchMetadata : DispatchMetadata) : string :=
  let zone := match zone_id dispatchMetadata with
              | Some z => if String.eqb z "" then "default" else z
              | None => "default"
              end in
  let round := match currentRound dispatchMetadata with
               | Some n => if n =? 0 then "1" else pretty n
               | None => "1"
               end in
  String.append "optimized_drivers_"
    (String.append (vendorID orderData)
       (String.append "_" (String.append zone (String.append "_" round)))).

Definition radiusOf (dispatchMetadata : DispatchMetadata) : float :=
  match kDistanceRadiusForDispatchInMiles dispatchMetadata with
  | Some r => if Js.truthy r then r else 50%float
  | None => 50%float
  end.

(** What the identifier [getAvailableDrivers] denotes where line 35
    calls it: [Some fetched] for a function that answers [fetched],
    [None] when the identifier has no binding. *)
Definition Scope := option (list Driver).

(** The file binds [_admin], [_firestore], [CacheManager] and
    [distanceRadius] (lines 2-4) and the class; [getAvailableDrivers]
    is bound by no [require] and no declaration of it.  The comment of
    line 35 assumes an import that is not there. *)
Definition moduleScope : Scope := None.

Section Lookup.

Variable distanceRadius : float -> float -> float -> float -> float.
Variable Math_cos : float -> float.
Variable Number_toString : float -> string.

(** [None]: the walk over the grid has not finished within [fuel]
    iterations. *)
Definition getDriversNearLocation (fuel : nat) (spatialIndex : gmap string (list Driver))
    (latitude0 longitude0 radiusMiles : float) : option (list NearDriver + JsError) :=
  match getNearbyGridKeys Math_cos Number_toString fuel latitude0 longitude0 radiusMiles with
  | Some gridKeys =>
      Some (collectNearby distanceRadius spatialIndex latitude0 longitude0 radiusMiles
              gridKeys)
  | None => None
  end.

(** Lines 21-28: the list the loader keeps. *)
Definition relevantDrivers (fuel : nat) (index : gmap string (list Driver))
    (drivers : list Driver) (orderData : OrderData) (dispatchMetadata : DispatchMetadata)
  : option (DriverList + JsError) :=
  match vendor orderData with
  | Some v =>
      if Js.truthy (latitude v) && Js.truthy (longitude v) then
        match getDriversNearLocation fuel index (latitude v) (longitude v)
                (radiusOf dispatchMetadata) with
        | Some (inl near) => Some (inl (Ranked near))
        | Some (inr e) => Some (inr e)
        | None => None
        end
      else Some (inl (Unranked drivers))
  | None => Some (inl (Unranked drivers))
  end.

(** [fetchAndIndexDrivers]: evaluating the callee of line 35 comes
    first, and throws if the identifier is unbound; otherwise the
    drivers are fetched and indexed, [tIndex] and [tCleanup] being the
    readings of [Date.now()] by the update and by its cleanup. *)
Definition fetchAndIndexDrivers (scope : Scope) (tIndex tCleanup : Z) (st : State)
  : State * (list Driver + JsError) :=
  match scope with
  | None => (st, inr (referenceError "getAvailableDrivers"))
  | Some drivers =>
      (mkState (cache st)
               (updateSpatialIndex (getGridKey Number_toString) tIndex tCleanup drivers)
               (S (fetches st)),
       inl drivers)
  end.

(** [tGet] and [tSet] are the readings of [Date.now()] by the cache
    lookup and by the cache write. *)
Definition getAvailableDriversOptimized (scope : Scope) (fuel : nat)
    (tGet tIndex tCleanup tSet : Z) (orderData : OrderData)
    (dispatchMetadata : DispatchMetadata) (st : State)
  : option (State * (DriverList + JsError)) :=
  let cacheKey := cacheKeyOf orderData dispatchMetadata in
  let cached := CacheManager.get tGet cacheKey (cache st) in
  let loaded :=
    match fetchAndIndexDrivers scope tIndex tCleanup st with
    | (st1, inr e) => Some (st1, inr e)
    | (st1, inl drivers) =>
        match relevantDrivers fuel (spatialIndex st1) drivers orderData dispatchMetadata with
        | Some (inl relevant) =>
            Some (mkState (CacheManager.set tSet cacheKey relevant 2 (cache st1))
                          (spatialIndex st1) (fetches st1),
                  inl relevant)
        | Some (inr e) => Some (st1, inr e)
        | None => None
        end
    end in
  match cached with
  | Some l => if (0 <? listLength l)%nat then Some (st, inl l) else loaded
  | None => loaded
  end.

End Lookup.

(** A driver at the vendor of the dispatch path whose heartbeat is
    exactly ten minutes old at [now = 1700000600000]. *)
Definition heartbeatAtWindow : Driver :=
  mkDriver "driver1" (Some (mkLocation 34.05%float (-118.25)%float))
           true true (Some 1700000000000).


End OptimizedDriverSearch.

(** ** 021-smart-driver-matching.js: [findOptimalDriver] *)

Module SmartDriverMatching.

Section Matching.
Context {Driver OrderData ContextData : Type}.

(** [calculateDriverScore] awaits the performance and preference
    collections and the haversine distance; it is a parameter. *)
Variable calculateDriverScore : Driver -> OrderData -> ContextData -> float.

(** [{ ...driver, matchScore: score }]. *)
Record Scored := mkScored { scoredDriver : Driver; matchScore : float }.

(** Sign of the comparator [(a, b) => b.matchScore - a.matchScore]. *)
Definition lowerScore (a b : Scored) : bool :=
  PrimFloat.ltb (matchScore a) (matchScore b).

Definition findOptimalDriver (orderData : OrderData) (availableDrivers : list Driver)
    (contextData : ContextData) : list Scored :=
  Js.sortBy lowerScore
    (map (fun driver => mkScored driver (calculateDriverScore driver orderData contextData))
         availableDrivers).

End Matching.

End SmartDriverMatching.

(** ** 029-auto-cleanup-service.js: the scheduled cycle *)

Module AutoCleanupService.

Record Rule := mkRule {
  collection : string;
  olderThanDays : Z;       (* the cut-off of [condition.value] *)
  batchSize : Z;
  intervalMinutes : Z
}.

(** [initialize]: the rules, in the order they are set. *)
Definition cleanupRules : list (string * Rule) :=
  [ ("expired_orders", mkRule "restaurant_orders" 7 50 60);
    ("old_security_logs", mkRule "security_logs" 30 100 120);
    ("expired_notifications", mkRule "notification_logs" 14 100 180);
    ("old_performance_alerts", mkRule "performance_alerts" 7 50 240) ].

Record State := mkState {
  lastCleanup : gmap string Z;
  executions : list (string * Z);      (* calls of [executeCleanupRule]: rule, clock *)
  criticalLog : list CriticalAction
}.

Definition initialize : State :=
  mkState (list_to_map (map (fun r => (fst r, 0)) cleanupRules)) [] [].

(** One cycle reads the clock once per rule; [executeCleanupRule]
    queries and deletes in the document store, and is given by how it
    ends for each rule: the number of documents deleted, or the error
    it throws. *)
Record Cycle := mkCycle {
  clockAt : string -> Z;
  executeCleanupRule : string -> Z + JsError
}.

(** The body of the [for] loop of [runScheduledCleanup]. *)
Definition runRule (c : Cycle) (st : State) (entry : string * Rule) : State :=
  let '(ruleName, rule) := entry in
  let lastRun := default 0 (lastCleanup st !! ruleName) in
  let now := clockAt c ruleName in
  let intervalPerhaps := intervalMinutes rule * 60 * 1000 in
  if intervalPerhaps <=? now - lastRun then
    match executeCleanupRule c ruleName with
    | inl _ =>
        mkState (<[ruleName := now]> (lastCleanup st))
                (executions st ++ [(ruleName, now)]) (criticalLog st)
    | inr _ =>
        mkState (lastCleanup st) (executions st ++ [(ruleName, now)])
                (criticalLog st ++ [mkCritical "system" "cleanup_rule_failed"])
    end
  else st.

Definition runRules (c : Cycle) (rules : list (string * Rule)) (st : State) : State :=
  foldl (runRule c) st rules.

Definition runScheduledCleanup (c : Cycle) (st : State) : State :=
  runRules c cleanupRules st.

(** The executions of one rule so far. *)
Definition runsOf (ruleName : string) (st : State) : list (string * Z) :=
  List.filter (fun e => String.eqb (fst e) ruleName) (executions st).

End AutoCleanupService.

(* ================================================================== *)
(** * Part II: properties                                              *)
(* ================================================================== *)

(** ** Insertion-ordered maps *)

Section JsMapFacts.
Context {V : Type}.
Implicit Types (m : list (string * V)) (k : string) (v : V).

Lemma get_set_eq m k v : JsMap.get k (JsMap.set k v m) = Some v.
Proof.
  induction m as [|[k' v'] m IH]; simpl.
  - now rewrite String.eqb_refl.
  - destruct (String.eqb k' k) eqn:E; simpl; rewrite E; auto.
Qed.


Lemma get_delete_eq m k : JsMap.get k (JsMap.delete k m) = None.
Proof.
  induction m as [|[k' v'] m IH]; simpl; auto.
  destruct (String.eqb k' k) eqn:E; simpl; rewrite ?E; auto.
Qed.

Lemma get_delete_ne m k k' : k <> k' -> JsMap.get k' (JsMap.delete k m) = JsMap.get k' m.
Proof.
  intros Hne. induction m as [|[k0 v0] m IH]; simpl; auto.
  destruct (String.eqb_spec k0 k) as [->|Hk]; simpl.
  - destruct (String.eqb_spec k k'); congruence.
  - destruct (String.eqb_spec k0 k'); auto.
Qed.

Lemma get_In m k v : JsMap.get k m = Some v -> In (k, v) m.
Proof.
  induction m as [|[k' v'] m IH]; simpl; [discriminate|].
  destruct (String.eqb_spec k' k) as [->|_].
  - intros [= ->]. now left.
  - intros H. right. auto.
Qed.





End JsMapFacts.

(** ** Numbers and sorting *)

Section Numbers.

Lemma SFcompare_antisym (a b : spec_float) (c : comparison) :
  SFcompare a b = Some c -> SFcompare b a = Some (CompOpp c).
Proof.
  destruct a as [sa|sa| |sa ma ea], b as [sb|sb| |sb mb eb];
    cbv beta iota delta [SFcompare]; try discriminate;
    intros [= <-]; f_equal;
    try (destruct sa; reflexivity); try (destruct sb; reflexivity);
    try (destruct sa, sb; reflexivity).
  change (PosDef.Pos.compare_cont Eq ma mb) with (Pos.compare ma mb).
  change (PosDef.Pos.compare_cont Eq mb ma) with (Pos.compare mb ma).
  rewrite (Z.compare_antisym ea eb), (Pos.compare_antisym ma mb).
  destruct sa, sb; try reflexivity;
    destruct (ea ?= eb); simpl; try reflexivity;
    destruct (ma ?= mb)%positive; reflexivity.
Qed.

Lemma SFcompare_defined (a b ra rb : spec_float) (ca cb : comparison) :
  SFcompare a ra = Some ca -> SFcompare b rb = Some cb ->
  exists c, SFcompare b a = Some c.
Proof.
  destruct a as [sa|sa| |sa ma ea]; try discriminate;
    destruct b as [sb|sb| |sb mb eb]; try discriminate;
    intros _ _; cbv beta iota delta [SFcompare]; eauto.
Qed.

Lemma ltb_leb (a b : float) : PrimFloat.ltb a b = true -> PrimFloat.leb a b = true.
Proof.
  rewrite ltb_spec, leb_spec. unfold SFltb, SFleb.
  destruct (SFcompare (Prim2SF a) (Prim2SF b)) as [[| |]|]; congruence.
Qed.

(** Among numbers that passed a [<=] test (so, not [NaN]), [<=] is
    total: if [b < a] is false then [a <= b]. *)
Lemma leb_total (a b ra rb : float) :
  PrimFloat.leb a ra = true -> PrimFloat.leb b rb = true ->
  PrimFloat.ltb b a = false -> PrimFloat.leb a b = true.
Proof.
  rewrite ltb_spec, !leb_spec. unfold SFltb, SFleb. intros Ha Hb Hlt.
  destruct (SFcompare (Prim2SF a) (Prim2SF ra)) as [ca|] eqn:Ea; [|discriminate].
  destruct (SFcompare (Prim2SF b) (Prim2SF rb)) as [cb|] eqn:Eb; [|discriminate].
  destruct (SFcompare_defined _ _ _ _ _ _ Ea Eb) as [c Hc].
  rewrite Hc in Hlt. rewrite (SFcompare_antisym _ _ _ Hc).
  destruct c; simpl; congruence.
Qed.

Context {A : Type}.
Variables (after : A -> A -> bool) (le : A -> A -> Prop) (ok : A -> Prop).
Hypothesis after_le : forall a b, after a b = true -> le b a.
Hypothesis not_after_le : forall a b, ok a -> ok b -> after a b = false -> le a b.

Lemma insertBy_perm (x : A) (l : list A) : Permutation (x :: l) (Js.insertBy after x l).
Proof.
  induction l as [|y l IH]; simpl; [reflexivity|].
  destruct (after x y); [|reflexivity].
  rewrite perm_swap. apply perm_skip. exact IH.
Qed.

Lemma sortBy_perm (l : list A) : Permutation l (Js.sortBy after l).
Proof.
  induction l as [|x l IH]; simpl; [reflexivity|].
  rewrite <- insertBy_perm. apply perm_skip. exact IH.
Qed.

Lemma insertBy_sorted (x : A) (l : list A) :
  ok x -> Forall ok l -> Sorted le l -> Sorted le (Js.insertBy after x l).
Proof.
  intros Hx Hl Hs. induction l as [|y l IH]; simpl.
  - repeat constructor.
  - apply Forall_cons in Hl as [Hy Hl]. apply Sorted_inv in Hs as [Hs Hhd].
    destruct (after x y) eqn:E.
    + constructor; [apply IH; assumption|].
      destruct l as [|z l]; simpl.
      * constructor. apply after_le. exact E.
      * apply HdRel_inv in Hhd. destruct (after x z); constructor;
          [exact Hhd | apply after_le; exact E].
    + constructor; [constructor; assumption|].
      constructor. apply not_after_le; assumption.
Qed.

Lemma sortBy_sorted (l : list A) : Forall ok l -> Sorted le (Js.sortBy after l).
Proof.
  induction 1 as [|x l Hx Hl IH]; simpl; [constructor|].
  apply insertBy_sorted; [exact Hx | | exact IH].
  rewrite <- sortBy_perm. exact Hl.
Qed.

End Numbers.

(** ** Resource admission *)

Section ResourceAdmission.
Import SmartResourceManager.

Lemma limitKey_activeDispatch : limitKey "activeDispatch" = "maxActiveDispatch".
Proof. reflexivity. Qed.

Lemma limit_of_activeDispatch : resourceLimits !! limitKey "activeDispatch" = None.
Proof. vm_compute. reflexivity. Qed.

Lemma limit_of_memoryUsage :
  resourceLimits !! limitKey "memoryUsage" = Some 536870912.
Proof. vm_compute. reflexivity. Qed.

(** C1, as the code runs it: whatever the current count and the amount,
    [acquireResource('activeDispatch', n)] throws "Undefined resource
    type" and leaves the counters untouched, because the limit is looked
    up under [maxActiveDispatch] while the table declares
    [maxConcurrentDispatch]. *)
Theorem acquire_activeDispatch_always_undefined (st : State) (n : Z) :
  acquireResource st "activeDispatch" n
  = (st, inr (UndefinedResourceType "activeDispatch")).
Proof.
  unfold acquireResource. rewrite limit_of_activeDispatch. reflexivity.
Qed.

(** The same function on a resource whose limit key resolves: the check
    [current + n <= limit], the increment and the release are as the
    specification describes them. *)
Lemma acquire_resolved_ok (st : State) (rt : string) (limit n : Z) :
  resourceLimits !! limitKey rt = Some limit ->
  default 0 (resourceUsage st !! rt) + n <= limit ->
  exists st' h,
    acquireResource st rt n = (st', inl h) /\
    resourceUsage st' !! rt = Some (default 0 (resourceUsage st !! rt) + n) /\
    (0 <= default 0 (resourceUsage st !! rt) ->
     resourceUsage (release h st') !! rt = Some (default 0 (resourceUsage st !! rt))).
Proof.
  intros Hl Hle. unfold acquireResource. rewrite Hl.
  destruct (Z.ltb_spec limit (default 0 (resourceUsage st !! rt) + n)) as [Hlt|_]; [lia|].
  eexists _, _. split; [reflexivity|]. split.
  - cbn. apply lookup_insert_eq.
  - intros Hnn. unfold release, releaseResource. cbn.
    rewrite lookup_insert_eq. cbn. rewrite lookup_insert_eq. simpl. f_equal. lia.
Qed.

Lemma acquire_resolved_exhausted (st : State) (rt : string) (limit n : Z) :
  resourceLimits !! limitKey rt = Some limit ->
  limit < default 0 (resourceUsage st !! rt) + n ->
  exists st',
    acquireResource st rt n
    = (st', inr (ResourceLimitExceeded rt (default 0 (resourceUsage st !! rt) + n) limit)) /\
    resourceUsage st' = resourceUsage st.
Proof.
  intros Hl Hlt. unfold acquireResource. rewrite Hl.
  destruct (Z.ltb_spec limit (default 0 (resourceUsage st !! rt) + n)) as [_|Hge]; [|lia].
  eexists. split; reflexivity.
Qed.

End ResourceAdmission.

(** ** Job scheduler *)

Section Scheduler.
Import BackgroundJobScheduler.

Lemma startJob_found (now : Z) (jobId : string) (st : State) (job : Job) :
  JsMap.get jobId (jobs st) = Some job ->
  JsMap.get jobId (jobs (startJob now jobId st))
  = Some (mkJob (id job) (schedule job) (options job) (nextRun job) (lastRun job)
                (retryCount job) st_running (Some now) (executionTime job) None).
Proof.
  intros Hget. unfold startJob. rewrite Hget. simpl. apply get_set_eq.
Qed.

(** What [settleJob] leaves in the table, by the terminal test on the
    job the handler produced. *)
Lemma settleJob_found (now : Z) (jobId : string) (o : Outcome) (st : State) (job : Job) :
  JsMap.get jobId (jobs st) = Some job ->
  let handled :=
    match o with
    | Resolved => (handleJobSuccess now job, [])
    | TimerFired => handleJobTimeout now job
    | Rejected message =>
        if Js.includes "Job timed out" message
        then handleJobTimeout now job
        else handleJobError now job message
    end in
  JsMap.get jobId (jobs (settleJob now jobId o st))
  = (if isTerminal (fst handled) then None else Some (fst handled)) /\
  criticalLog (settleJob now jobId o st) = criticalLog st ++ snd handled.
Proof.
  intros Hget handled. unfold settleJob. rewrite Hget. fold handled.
  destruct handled as [job' logged]. simpl.
  destruct (isTerminal job'); simpl.
  - split; [apply get_delete_eq | reflexivity].
  - split; [apply get_set_eq | reflexivity].
Qed.

Lemma handleJobError_retry (now : Z) (job : Job) (message : string) :
  retryCount job + 1 < maxRetries (options job) ->
  handleJobError now job message
  = (mkJob (id job) (schedule job) (options job) (now + (retryCount job + 1) * 30000)
           (lastRun job) (retryCount job + 1) st_scheduled (startedAt job)
           (Some (now - default 0 (startedAt job))) (Some message), []).
Proof.
  intros Hlt. unfold handleJobError.
  destruct (Z.ltb_spec (retryCount job + 1) (maxRetries (options job))); [reflexivity|lia].
Qed.

Lemma handleJobError_exhausted (now : Z) (job : Job) (message : string) :
  maxRetries (options job) <= retryCount job + 1 ->
  handleJobError now job message
  = (mkJob (id job) (schedule job) (options job) (nextRun job)
           (lastRun job) (retryCount job + 1) st_failed (startedAt job)
           (Some (now - default 0 (startedAt job))) (Some message),
     [mkCritical "system" "job_failed_max_retries"]).
Proof.
  intros Hle. unfold handleJobError.
  destruct (Z.ltb_spec (retryCount job + 1) (maxRetries (options job))); [lia|reflexivity].
Qed.

Lemma handleJobTimeout_exhausted (now : Z) (job : Job) :
  maxRetries (options job) <= retryCount job + 1 ->
  handleJobTimeout now job
  = (mkJob (id job) (schedule job) (options job) (nextRun job)
           (lastRun job) (retryCount job + 1) st_timeout (startedAt job)
           (Some (now - default 0 (startedAt job))) (Some (timeoutMessage job)),
     [mkCritical "system" "job_timeout_max_retries"]).
Proof.
  intros Hle. unfold handleJobTimeout.
  destruct (Z.ltb_spec (retryCount job + 1) (maxRetries (options job))); [lia|reflexivity].
Qed.

Lemma scheduled_retry_job (now : Z) (jobId : string) :
  JsMap.get jobId (jobs (scheduleJob now jobId (OneShot now) retryOptions initial))
  = Some (mkJob jobId (OneShot now) (mkOptions normal 2 300000) now
                None 0 st_scheduled None None None).
Proof.
  unfold scheduleJob. simpl. rewrite String.eqb_refl, Z.ltb_irrefl. reflexivity.
Qed.

Lemma not_elem_of_without (x : string) (s : gset string) : x ∉ s ∖ {[x]}.
Proof.
  intros [_ Hx]%elem_of_difference. apply Hx, elem_of_singleton. reflexivity.
Qed.

Lemma running_after_settle (now : Z) (jobId : string) (o : Outcome) (st : State) :
  jobId ∉ currentlyRunning (settleJob now jobId o st).
Proof.
  unfold settleJob. destruct (JsMap.get jobId (jobs st)) as [job|]; simpl.
  - destruct (match o with
              | Resolved => _ | Rejected _ => _ | TimerFired => _ end) as [job' logged].
    destruct (isTerminal job'); simpl; apply not_elem_of_without.
  - apply not_elem_of_without.
Qed.

(** C2, as the code runs it: with [maxRetries = 2] the first failure
    reschedules the job ([retryCount = 1], [nextRun] 30 s after the
    failure, ready again exactly from that instant on); the second
    failure brings [retryCount] to 2, which exhausts the budget: the job
    is logged as a critical action and removed from the table, so no
    third run takes place. *)
Theorem retry_budget_two_runs (now t2 t2' : Z) (jobId message : string) :
  Js.includes "Job timed out" message = false ->
  let st1 := afterFirstFailure now jobId message in
  let st2 := afterSecondFailure now t2 t2' jobId message in
  (exists j1,
      JsMap.get jobId (jobs st1) = Some j1 /\
      retryCount j1 = 1 /\ nextRun j1 = now + 30000 /\ status j1 = st_scheduled /\
      (forall t, isReady t (currentlyRunning st1) j1 = true <-> now + 30000 <= t) /\
      exists j2,
        fst (handleJobError t2' (mkJob (id j1) (schedule j1) (options j1) (nextRun j1)
                                       (lastRun j1) (retryCount j1) st_running (Some t2)
                                       (executionTime j1) None) message) = j2 /\
        retryCount j2 = 2 /\ status j2 = st_failed /\ nextRun j2 = now + 30000) /\
  JsMap.get jobId (jobs st2) = None /\
  criticalLog st2 = [mkCritical "system" "job_failed_max_retries"].
Proof.
  intros Hmsg st1 st2. subst st1 st2.
  unfold afterSecondFailure, afterFirstFailure, executeJob.
  pose proof (scheduled_retry_job now jobId) as H0.
  pose proof (startJob_found now jobId _ _ H0) as H0r.
  destruct (settleJob_found now jobId (Rejected message) _ _ H0r) as [H1 L1].
  rewrite Hmsg in H1, L1.
  rewrite handleJobError_retry in H1, L1 by (simpl; lia).
  simpl in H1, L1.
  pose proof (startJob_found t2 jobId _ _ H1) as H1r.
  destruct (settleJob_found t2' jobId (Rejected message) _ _ H1r) as [H2 L2].
  rewrite Hmsg in H2, L2.
  rewrite handleJobError_exhausted in H2, L2 by (simpl; lia).
  simpl in H2, L2.
  split; [|split].
  - eexists. split; [exact H1|]. simpl. repeat split; try lia.
    + intros Hr. unfold isReady in Hr. simpl in Hr.
      apply andb_prop in Hr as [Hr _]. apply andb_prop in Hr as [Hr _]. lia.
    + intros Hle. unfold isReady. simpl.
      rewrite bool_decide_eq_false_2 by apply running_after_settle.
      rewrite andb_true_r. apply andb_true_intro. split; [lia|reflexivity].
    + eexists. split; [reflexivity|]. simpl. repeat split; lia.
  - exact H2.
  - rewrite L2. unfold startJob at 1. rewrite H1. simpl. rewrite L1.
    unfold startJob. rewrite H0. reflexivity.
Qed.

(** The retry scenario has an instance. *)
Lemma retry_budget_two_runs_witness :
  JsMap.get "report" (jobs (afterSecondFailure 1000 31000 31005 "report" "boom")) = None.
Proof.
  apply (retry_budget_two_runs 1000 31000 31005 "report" "boom"). reflexivity.
Defined.

(** C2 as the specification words it fails: after the second failure
    there is no job left to carry [retryCount = 2] and a new [nextRun],
    and the critical action has already been logged. *)
Lemma retry_second_failure_is_final :
  let st2 := afterSecondFailure 0 30000 30000 "job" "boom" in
  JsMap.get "job" (jobs st2) = None /\
  criticalLog st2 = [mkCritical "system" "job_failed_max_retries"] /\
  ~ (exists j, JsMap.get "job" (jobs st2) = Some j /\
               retryCount j = 2 /\ nextRun j = 0 + 60000).
Proof.
  vm_compute. repeat split. intros [j [Hj _]]. discriminate Hj.
Qed.

(** A one-shot job that completes is removed from the table. *)
Lemma completed_one_shot_removed (tStart tEnd epoch : Z) (jobId : string) (st : State) (job : Job) :
  JsMap.get jobId (jobs st) = Some job ->
  schedule job = OneShot epoch ->
  JsMap.get jobId (jobs (executeJob tStart tEnd jobId Resolved st)) = None.
Proof.
  intros Hget Hs. unfold executeJob.
  pose proof (startJob_found tStart jobId _ _ Hget) as Hr.
  destruct (settleJob_found tEnd jobId Resolved _ _ Hr) as [H _].
  rewrite H. unfold handleJobSuccess. cbn. rewrite Hs. reflexivity.
Qed.

(** A one-shot job that fails with no retry left is removed. *)
Lemma failed_one_shot_removed (tStart tEnd epoch : Z) (jobId message : string)
    (st : State) (job : Job) :
  JsMap.get jobId (jobs st) = Some job ->
  schedule job = OneShot epoch ->
  Js.includes "Job timed out" message = false ->
  maxRetries (options job) <= retryCount job + 1 ->
  JsMap.get jobId (jobs (executeJob tStart tEnd jobId (Rejected message) st)) = None.
Proof.
  intros Hget Hs Hmsg Hmax. unfold executeJob.
  pose proof (startJob_found tStart jobId _ _ Hget) as Hr.
  destruct (settleJob_found tEnd jobId (Rejected message) _ _ Hr) as [H _].
  rewrite H, Hmsg. rewrite handleJobError_exhausted by exact Hmax.
  unfold isTerminal. simpl. rewrite Hs. simpl.
  destruct (Z.leb_spec (maxRetries (options job)) (retryCount job + 1)); [reflexivity|lia].
Qed.

(** C3, where the code departs from it: a one-shot job whose last
    allowed run times out keeps its entry in the table, with status
    [timeout]; the [finally] block only tests for [completed] and
    [failed]. *)
Theorem timed_out_one_shot_stays (tStart tEnd epoch : Z) (jobId : string)
    (st : State) (job : Job) :
  JsMap.get jobId (jobs st) = Some job ->
  schedule job = OneShot epoch ->
  maxRetries (options job) <= retryCount job + 1 ->
  exists job',
    JsMap.get jobId (jobs (executeJob tStart tEnd jobId TimerFired st)) = Some job' /\
    status job' = st_timeout /\
    retryCount job' = retryCount job + 1 /\
    isReady (nextRun job') ∅ job' = false /\
    criticalLog (executeJob tStart tEnd jobId TimerFired st)
    = criticalLog st ++ [mkCritical "system" "job_timeout_max_retries"].
Proof.
  intros Hget Hs Hmax. unfold executeJob.
  pose proof (startJob_found tStart jobId _ _ Hget) as Hr.
  destruct (settleJob_found tEnd jobId TimerFired _ _ Hr) as [H L].
  rewrite H, L. rewrite handleJobTimeout_exhausted by exact Hmax.
  unfold isTerminal. simpl. rewrite andb_false_r.
  eexists. split; [reflexivity|]. simpl. repeat split.
  - unfold isReady. simpl. rewrite andb_false_r. reflexivity.
  - unfold startJob. rewrite Hget. reflexivity.
Qed.

Lemma timed_out_one_shot_stays_witness :
  exists job',
    JsMap.get "sweep"
      (jobs (executeJob 5 65 "sweep" TimerFired
               (scheduleJob 0 "sweep" (OneShot 5) (mkScheduleOptions None (Some 1) (Some 60)) initial)))
    = Some job' /\ status job' = st_timeout.
Proof.
  destruct (timed_out_one_shot_stays 5 65 5 "sweep"
              (scheduleJob 0 "sweep" (OneShot 5) (mkScheduleOptions None (Some 1) (Some 60)) initial)
              (mkJob "sweep" (OneShot 5) (mkOptions normal 1 60) 5 None 0 st_scheduled None None None))
    as [job' [Hget [Hst _]]].
  - reflexivity.
  - reflexivity.
  - simpl. lia.
  - exists job'. split; assumption.
Defined.

End Scheduler.

(** ** Circuit breaker and retry wrapper *)

Section CircuitBreaker.
Import CircuitBreakerErrorHandler.
Context {V : Type}.
Implicit Types (w : World) (op : @Operation V) (a : @Attempt V) (cfg : Config).

Lemma trackFunction_outcome (name : string) a w :
  snd (trackFunction name a w) = outcome a.
Proof. unfold trackFunction. destruct (outcome a); reflexivity. Qed.

Lemma trackFunction_breakers (name : string) a w :
  circuitBreakers (fst (trackFunction name a w)) = circuitBreakers w.
Proof.
  unfold trackFunction, generateAlert.
  destruct (outcome a); simpl; [|reflexivity].
  destruct (responseTimeThreshold <? elapsed a);
    destruct (memoryUsageThreshold <? heapDelta a); simpl;
    repeat match goal with
           | |- context [if ?c then _ else _] => destruct c; simpl
           end; reflexivity.
Qed.

Lemma trackFunction_clock (name : string) a w :
  clock (fst (trackFunction name a w)) = clock w + elapsed a.
Proof.
  unfold trackFunction, generateAlert.
  destruct (outcome a); simpl; [|reflexivity].
  destruct (responseTimeThreshold <? elapsed a);
    destruct (memoryUsageThreshold <? heapDelta a); simpl;
    repeat match goal with
           | |- context [if ?c then _ else _] => destruct c; simpl
           end; reflexivity.
Qed.

(** A failure recorded while the breaker is OPEN changes nothing. *)
Lemma recordFailure_open (k : string) (e : JsError) (mf rt : Z) w (b : Breaker) :
  circuitBreakers w !! k = Some b -> state b = OPEN ->
  recordFailure k e mf rt w = w.
Proof.
  intros Hb Hs. unfold recordFailure. rewrite Hb. simpl. rewrite Hb. simpl.
  rewrite Hs. reflexivity.
Qed.

(** A failure that reaches the threshold from CLOSED opens the breaker. *)
Lemma recordFailure_closed_opens (k : string) (e : JsError) (mf rt : Z) w (f r0 : Z) :
  circuitBreakers w !! k = Some (mkBreaker CLOSED f r0) -> mf <= f + 1 ->
  circuitBreakers (recordFailure k e mf rt w) !! k
  = Some (mkBreaker OPEN (f + 1) (clock w + rt)).
Proof.
  intros Hb Hle. unfold recordFailure. rewrite Hb. simpl. rewrite Hb. simpl.
  destruct (Z.leb_spec mf (f + 1)); [|lia]. simpl. apply lookup_insert_eq.
Qed.

(** The first failure on a key creates its breaker. *)
Lemma recordFailure_fresh (k : string) (e : JsError) (mf rt : Z) w :
  circuitBreakers w !! k = None ->
  circuitBreakers (recordFailure k e mf rt w) !! k
  = Some (if mf <=? 1 then mkBreaker OPEN 1 (clock w + rt) else mkBreaker CLOSED 1 0).
Proof.
  intros Hb. unfold recordFailure. rewrite Hb. simpl. rewrite lookup_insert_eq. simpl.
  change (0 + 1) with 1. rewrite andb_true_r.
  destruct (mf <=? 1); simpl; apply lookup_insert_eq.
Qed.

(** A failure of the trial request reopens the breaker. *)
Lemma recordFailure_half_open (k : string) (e : JsError) (mf rt : Z) w (f r0 : Z) :
  circuitBreakers w !! k = Some (mkBreaker HALF_OPEN f r0) ->
  circuitBreakers (recordFailure k e mf rt w) !! k
  = Some (mkBreaker OPEN (f + 1) (clock w + rt)).
Proof.
  intros Hb. unfold recordFailure. rewrite Hb. simpl. rewrite Hb. simpl.
  rewrite andb_false_r. simpl. apply lookup_insert_eq.
Qed.

Lemma recordFailure_clock (k : string) (e : JsError) (mf rt : Z) w :
  clock (recordFailure k e mf rt w) = clock w.
Proof.
  unfold recordFailure.
  destruct (circuitBreakers w !! k) as [b|] eqn:Hb; simpl.
  - rewrite Hb. simpl. destruct (state b); simpl; try reflexivity;
      repeat match goal with
             | |- context [if ?c then _ else _] => destruct c; simpl
             end; reflexivity.
  - rewrite lookup_insert_eq. simpl.
    repeat match goal with
           | |- context [if ?c then _ else _] => destruct c; simpl
           end; reflexivity.
Qed.

Lemma retryLoop_failed_attempt (n attempt : nat) op (name k : string) cfg
    (last : option JsError) w (e : JsError) :
  outcome (op attempt) = inr e ->
  retryLoop (S n) attempt op name k cfg last w
  = let w2 := recordFailure k e (maxFailures cfg) (resetTimeoutMs cfg)
                (fst (trackFunction name (op attempt) w)) in
    let w3 := if (attempt <? retryAttempts cfg)%nat
              then delay (retryDelayMs cfg * Z.of_nat attempt) w2 else w2 in
    let '(w4, r, c) := retryLoop n (S attempt) op name k cfg (Some e) w3 in
    (w4, r, S c).
Proof.
  intros He. simpl.
  pose proof (trackFunction_outcome name (op attempt) w) as Ho.
  destruct (trackFunction name (op attempt) w) as [w1 [v|e']]; simpl in Ho;
    rewrite He in Ho; [discriminate|]. injection Ho as ->. reflexivity.
Qed.

Lemma breakers_after_pause (attempt : nat) cfg w :
  circuitBreakers (if (attempt <? retryAttempts cfg)%nat
                   then delay (retryDelayMs cfg * Z.of_nat attempt) w else w)
  = circuitBreakers w.
Proof. destruct (attempt <? retryAttempts cfg)%nat; reflexivity. Qed.

Section FailingOperation.
Variables (op : @Operation V) (errs : nat -> JsError).
Hypothesis Hfail : forall i, outcome (op i) = inr (errs i).

(** Every failing attempt is followed by the next one: the loop calls
    the operation once per remaining iteration, whatever the errors. *)
Lemma retryLoop_all_fail (name k : string) cfg :
  forall (n attempt : nat) (last : option JsError) w,
    snd (retryLoop n attempt op name k cfg last w) = n /\
    snd (fst (retryLoop n attempt op name k cfg last w))
    = inr (match n with O => last | S n' => Some (errs (attempt + n')%nat) end).
Proof.
  induction n as [|n IH]; intros attempt last w.
  - split; reflexivity.
  - rewrite (retryLoop_failed_attempt n attempt op name k cfg last w _ (Hfail attempt)).
    cbv zeta.
    match goal with |- context [retryLoop n (S attempt) op name k cfg ?l ?w'] =>
      specialize (IH (S attempt) l w');
      destruct (retryLoop n (S attempt) op name k cfg l w') as [[w4 r] c] end.
    simpl in *. destruct IH as [-> ->]. split; [reflexivity|].
    destruct n as [|n']; [now rewrite Nat.add_0_r|].
    do 2 f_equal. f_equal. lia.
Qed.

(** Once OPEN, failing attempts leave the breaker as it is. *)
Lemma retryLoop_open_stays (name k : string) cfg (b : Breaker) :
  state b = OPEN ->
  forall (n attempt : nat) (last : option JsError) w,
    circuitBreakers w !! k = Some b ->
    circuitBreakers (fst (fst (retryLoop n attempt op name k cfg last w))) !! k = Some b.
Proof.
  intros Hs. induction n as [|n IH]; intros attempt last w Hb.
  - exact Hb.
  - rewrite (retryLoop_failed_attempt n attempt op name k cfg last w _ (Hfail attempt)).
    cbv zeta.
    assert (Hb1 : circuitBreakers (fst (trackFunction name (op attempt) w)) !! k = Some b)
      by (rewrite trackFunction_breakers; exact Hb).
    rewrite (recordFailure_open k _ _ _ _ b Hb1 Hs).
    match goal with |- context [retryLoop n (S attempt) op name k cfg ?l ?w'] =>
      specialize (IH (S attempt) l w');
      destruct (retryLoop n (S attempt) op name k cfg l w') as [[w4 r] c] end.
    simpl in *. apply IH. rewrite breakers_after_pause. exact Hb1.
Qed.

(** A failing run that starts one failure short of the threshold, or in
    HALF_OPEN, ends OPEN; the reset instant is [resetTimeoutMs] after
    the first failed attempt. *)
Lemma retryLoop_opens (name k : string) cfg (n attempt : nat)
    (last : option JsError) w (s : BreakerState) (f r0 : Z) :
  circuitBreakers w !! k = Some (mkBreaker s f r0) ->
  (s = CLOSED /\ maxFailures cfg <= f + 1) \/ s = HALF_OPEN ->
  circuitBreakers (fst (fst (retryLoop (S n) attempt op name k cfg last w))) !! k
  = Some (mkBreaker OPEN (f + 1) (clock w + elapsed (op attempt) + resetTimeoutMs cfg)).
Proof.
  intros Hb Hcase.
  rewrite (retryLoop_failed_attempt n attempt op name k cfg last w _ (Hfail attempt)).
  cbv zeta.
  assert (Hb1 : circuitBreakers (fst (trackFunction name (op attempt) w)) !! k
                = Some (mkBreaker s f r0))
    by (rewrite trackFunction_breakers; exact Hb).
  assert (Hopen : circuitBreakers
            (recordFailure k (errs attempt) (maxFailures cfg) (resetTimeoutMs cfg)
               (fst (trackFunction name (op attempt) w))) !! k
          = Some (mkBreaker OPEN (f + 1)
                    (clock w + elapsed (op attempt) + resetTimeoutMs cfg))).
  { rewrite <- (trackFunction_clock name (op attempt) w).
    destruct Hcase as [[-> Hle]| ->].
    - apply recordFailure_closed_opens with (r0 := r0); assumption.
    - apply recordFailure_half_open with (r0 := r0); assumption. }
  match goal with |- context [retryLoop n (S attempt) op name k cfg ?l ?w'] =>
    pose proof (retryLoop_open_stays name k cfg
                  (mkBreaker OPEN (f + 1) (clock w + elapsed (op attempt) + resetTimeoutMs cfg))
                  eq_refl n (S attempt) l w') as Hstay;
    destruct (retryLoop n (S attempt) op name k cfg l w') as [[w4 r] c] end.
  simpl in *. apply Hstay. rewrite breakers_after_pause. exact Hopen.
Qed.

End FailingOperation.

Lemma isCircuitOpen_breakers_closed (k : string) w :
  (forall b, circuitBreakers w !! k = Some b -> state b <> OPEN) ->
  isCircuitOpen k w = (w, false).
Proof.
  intros Hno. unfold isCircuitOpen.
  destruct (circuitBreakers w !! k) as [b|]; [|reflexivity].
  specialize (Hno b eq_refl). destruct (state b); congruence.
Qed.

Lemma handle_passes (op : @Operation V) (name ident : string) cfg w w0 :
  isCircuitOpen (breakerKeyOf name ident) w = (w0, false) ->
  let looped := retryLoop (retryAttempts cfg) 1 op name (breakerKeyOf name ident) cfg None w0 in
  circuitBreakers (fst (fst (handleAsyncWithCircuitBreaker op name ident cfg w)))
  = circuitBreakers (fst (fst looped)) /\
  snd (handleAsyncWithCircuitBreaker op name ident cfg w) = snd looped /\
  snd (fst (handleAsyncWithCircuitBreaker op name ident cfg w))
  = match snd (fst looped) with inl v => Returned v | inr e => Thrown e end.
Proof.
  intros Hopen looped. unfold handleAsyncWithCircuitBreaker. rewrite Hopen.
  fold looped. destruct looped as [[w1 [v|e]] c]; simpl; auto.
Qed.

(** C4, as the code runs it: the wrapper never looks at the class of
    the error.  If the breaker lets the call through and every attempt
    throws, the operation is invoked [retryAttempts] times and the last
    error is the one propagated, whatever its class. *)
Theorem every_error_class_is_retried (op : @Operation V) (errs : nat -> JsError)
    (name ident : string) cfg w :
  (forall i, outcome (op i) = inr (errs i)) ->
  snd (isCircuitOpen (breakerKeyOf name ident) w) = false ->
  (0 < retryAttempts cfg)%nat ->
  snd (handleAsyncWithCircuitBreaker op name ident cfg w) = retryAttempts cfg /\
  snd (fst (handleAsyncWithCircuitBreaker op name ident cfg w))
  = Thrown (Some (errs (retryAttempts cfg))).
Proof.
  intros Hfail Hclosed Hpos.
  destruct (isCircuitOpen (breakerKeyOf name ident) w) as [w0 o] eqn:Ho.
  simpl in Hclosed. subst o.
  destruct (handle_passes op name ident cfg w w0 Ho) as [_ [Hc Hr]].
  destruct (retryLoop_all_fail op errs Hfail name (breakerKeyOf name ident) cfg
              (retryAttempts cfg) 1 None w0) as [Hn Hlast].
  rewrite Hc, Hr, Hn, Hlast. split; [reflexivity|].
  destruct (retryAttempts cfg) as [|n]; [lia|]. reflexivity.
Qed.

(** An OPEN breaker whose reset instant has not passed rejects the call
    without invoking the operation and without touching the state. *)
Lemma open_breaker_rejects (op : @Operation V) (name ident : string) cfg w (b : Breaker) :
  circuitBreakers w !! breakerKeyOf name ident = Some b ->
  state b = OPEN -> clock w <= resetTime b ->
  handleAsyncWithCircuitBreaker op name ident cfg w
  = (w, Thrown (Some (circuitOpenError name)), O).
Proof.
  intros Hb Hs Ht. unfold handleAsyncWithCircuitBreaker, isCircuitOpen.
  rewrite Hb, Hs. destruct (Z.ltb_spec (resetTime b) (clock w)); [lia|reflexivity].
Qed.

(** Past the reset instant the next call is the HALF_OPEN trial; if its
    first attempt succeeds the breaker is CLOSED with no failures. *)
Lemma trial_success_closes (op : @Operation V) (name ident : string) cfg w
    (b : Breaker) (v : V) :
  circuitBreakers w !! breakerKeyOf name ident = Some b ->
  state b = OPEN -> resetTime b < clock w ->
  (0 < retryAttempts cfg)%nat ->
  outcome (op 1%nat) = inl v ->
  exists w',
    handleAsyncWithCircuitBreaker op name ident cfg w = (w', Returned v, 1%nat) /\
    circuitBreakers w' !! breakerKeyOf name ident = Some (mkBreaker CLOSED 0 0).
Proof.
  intros Hb Hs Ht Hpos Hv. unfold handleAsyncWithCircuitBreaker, isCircuitOpen.
  rewrite Hb, Hs. destruct (Z.ltb_spec (resetTime b) (clock w)); [|lia].
  destruct (retryAttempts cfg) as [|n]; [lia|]. simpl retryLoop.
  set (w0 := setBreaker _ _ w).
  pose proof (trackFunction_outcome name (op 1%nat) w0) as Ho.
  pose proof (trackFunction_breakers name (op 1%nat) w0) as Hbr.
  destruct (trackFunction name (op 1%nat) w0) as [w1 [v'|e]]; simpl in Ho, Hbr;
    rewrite Hv in Ho; [|discriminate]. injection Ho as ->.
  eexists. split; [reflexivity|].
  assert (Hh : circuitBreakers w1 !! breakerKeyOf name ident
               = Some (mkBreaker HALF_OPEN (failures b) (resetTime b))).
  { rewrite Hbr. unfold w0. simpl. apply lookup_insert_eq. }
  unfold recordSuccess. rewrite Hh. simpl. apply lookup_insert_eq.
Qed.

(** The first failing run of the scenario on a fresh key: one attempt
    leaves the breaker CLOSED with one failure; with more attempts the
    second one opens it, and the reset instant is 100 ms after that
    second failure. *)
Lemma scenario_first_run (r : nat) (d : Z) (name ident : string)
    (op : @Operation V) (errs : nat -> JsError) w :
  (1 <= r)%nat ->
  circuitBreakers w !! breakerKeyOf name ident = None ->
  (forall i, outcome (op i) = inr (errs i)) ->
  exists b,
    circuitBreakers
      (fst (fst (handleAsyncWithCircuitBreaker op name ident (scenarioConfig r d) w)))
    !! breakerKeyOf name ident = Some b /\
    ((r = 1%nat /\ b = mkBreaker CLOSED 1 0) \/
     ((2 <= r)%nat /\
      b = mkBreaker OPEN 2 (clock w + elapsed (op 1%nat) + d + elapsed (op 2%nat) + 100))).
Proof.
  intros Hr Hnone Hfail.
  set (k := breakerKeyOf name ident). set (cfg := scenarioConfig r d).
  assert (Hpass : isCircuitOpen k w = (w, false)).
  { apply isCircuitOpen_breakers_closed. intros b Hb. fold k in Hnone. congruence. }
  destruct (handle_passes op name ident cfg w w Hpass) as [-> _]. fold k.
  destruct r as [|n]; [lia|].
  change (retryAttempts cfg) with (S n).
  rewrite (retryLoop_failed_attempt n 1 op name k cfg None w _ (Hfail 1%nat)). cbv zeta.
  set (w2 := recordFailure k _ _ _ _).
  assert (Hb2 : circuitBreakers w2 !! k = Some (mkBreaker CLOSED 1 0)).
  { unfold w2. rewrite recordFailure_fresh by (rewrite trackFunction_breakers; exact Hnone).
    reflexivity. }
  assert (Hc2 : clock w2 = clock w + elapsed (op 1%nat)).
  { unfold w2. rewrite recordFailure_clock, trackFunction_clock. reflexivity. }
  set (w3 := if (1 <? retryAttempts cfg)%nat then _ else w2).
  assert (Hb3 : circuitBreakers w3 !! k = Some (mkBreaker CLOSED 1 0)).
  { unfold w3. rewrite breakers_after_pause. exact Hb2. }
  destruct n as [|n'].
  - simpl. exists (mkBreaker CLOSED 1 0). split; [exact Hb3|]. left. split; reflexivity.
  - assert (Hmf : maxFailures cfg <= 1 + 1) by (unfold cfg, scenarioConfig; simpl; lia).
    assert (Hc3 : clock w3 = clock w + elapsed (op 1%nat) + d).
    { unfold w3. change (1 <? retryAttempts cfg)%nat with true. cbv iota.
      unfold delay. cbn [clock setClock]. rewrite Hc2.
      change (retryDelayMs cfg) with d. change (Z.of_nat 1) with 1. lia. }
    pose proof (retryLoop_opens op errs Hfail name k cfg n' 2 (Some (errs 1%nat)) w3
                  CLOSED 1 0 Hb3 (or_introl (conj eq_refl Hmf))) as Hopen.
    rewrite Hc3 in Hopen. change (resetTimeoutMs cfg) with 100 in Hopen.
    destruct (retryLoop (S n') 2 op name k cfg (Some (errs 1%nat)) w3) as [[w4 res] c].
    cbn [fst snd] in *. eexists. split; [exact Hopen|]. right. split; [lia|reflexivity].
Qed.

(** C5: with [maxFailures = 2] and [resetTimeout = 100 ms], two
    consecutive failing runs on a fresh key leave its breaker OPEN, with
    the reset instant 100 ms after the failure that last opened it; a
    run that starts no later than the reset instant is rejected with
    CircuitOpen and the operation is not invoked; a run that starts
    after the reset instant and whose operation succeeds at its first
    attempt leaves the breaker CLOSED with [failures = 0].  This holds
    for every retry budget and retry delay.  When each run is a single
    attempt, the breaker opens at the second failure.  With more
    attempts it opens at the second attempt of the first run; the second
    run is then the trial if it starts after the reset instant, and its
    first failure reopens the breaker, else it is rejected and the reset
    instant stays. *)
Theorem breaker_opens_rejects_and_recovers (r : nat) (d t2 : Z) (name ident : string)
    (op1 op2 : @Operation V) (errs1 errs2 : nat -> JsError) w0 :
  (1 <= r)%nat ->
  circuitBreakers w0 !! breakerKeyOf name ident = None ->
  (forall i, outcome (op1 i) = inr (errs1 i)) ->
  (forall i, outcome (op2 i) = inr (errs2 i)) ->
  let cfg := scenarioConfig r d in
  let w1 := fst (fst (handleAsyncWithCircuitBreaker op1 name ident cfg w0)) in
  let w2 := fst (fst (handleAsyncWithCircuitBreaker op2 name ident cfg (setClock t2 w1))) in
  exists b,
    circuitBreakers w2 !! breakerKeyOf name ident = Some b /\
    state b = OPEN /\
    (r = 1%nat -> resetTime b = t2 + elapsed (op2 1%nat) + 100) /\
    ((2 <= r)%nat ->
     let opened := clock w0 + elapsed (op1 1%nat) + d + elapsed (op1 2%nat) in
     resetTime b = if opened + 100 <? t2 then t2 + elapsed (op2 1%nat) + 100
                   else opened + 100) /\
    (forall (t3 : Z) (op3 : @Operation V),
        t3 <= resetTime b ->
        handleAsyncWithCircuitBreaker op3 name ident cfg (setClock t3 w2)
        = (setClock t3 w2, Thrown (Some (circuitOpenError name)), O)) /\
    (forall (t4 : Z) (op4 : @Operation V) (v : V),
        resetTime b < t4 ->
        outcome (op4 1%nat) = inl v ->
        exists w4,
          handleAsyncWithCircuitBreaker op4 name ident cfg (setClock t4 w2)
          = (w4, Returned v, 1%nat) /\
          circuitBreakers w4 !! breakerKeyOf name ident = Some (mkBreaker CLOSED 0 0)).
Proof.
  intros Hr Hnone Hf1 Hf2 cfg w1 w2.
  set (k := breakerKeyOf name ident) in *.
  assert (Hopen : exists b, circuitBreakers w2 !! k = Some b /\ state b = OPEN /\
                    (r = 1%nat -> resetTime b = t2 + elapsed (op2 1%nat) + 100) /\
                    ((2 <= r)%nat ->
                     let opened := clock w0 + elapsed (op1 1%nat) + d + elapsed (op1 2%nat) in
                     resetTime b = if opened + 100 <? t2 then t2 + elapsed (op2 1%nat) + 100
                                   else opened + 100)).
  { destruct (scenario_first_run r d name ident op1 errs1 w0 Hr Hnone Hf1)
      as [b1 [Hb1 Hcase]].
    fold k cfg w1 in Hb1.
    assert (Hb1' : circuitBreakers (setClock t2 w1) !! k = Some b1) by exact Hb1.
    destruct Hcase as [[-> ->]|[Hr2 ->]].
    - (* one attempt per run: the second failure opens the breaker *)
      assert (Hpass : isCircuitOpen k (setClock t2 w1) = (setClock t2 w1, false)).
      { apply isCircuitOpen_breakers_closed. intros b Hb.
        rewrite Hb1' in Hb. injection Hb as <-. discriminate. }
      unfold w2. destruct (handle_passes op2 name ident cfg _ _ Hpass) as [-> _]. fold k.
      assert (Hmf : maxFailures cfg <= 1 + 1) by (unfold cfg, scenarioConfig; simpl; lia).
      pose proof (retryLoop_opens op2 errs2 Hf2 name k cfg 0 1 None (setClock t2 w1)
                    CLOSED 1 0 Hb1' (or_introl (conj eq_refl Hmf))) as Ho.
      eexists. split; [exact Ho|]. split; [reflexivity|].
      split; [intros _; reflexivity|lia].
    - (* several attempts per run: the first run already opened it *)
      set (opened := clock w0 + elapsed (op1 1%nat) + d + elapsed (op1 2%nat)) in *.
      destruct (Z.ltb_spec (opened + 100) t2) as [Hlate|Hearly].
      + assert (Hpass : isCircuitOpen k (setClock t2 w1)
                        = (setBreaker k (mkBreaker HALF_OPEN 2 (opened + 100))
                             (setClock t2 w1), false)).
        { unfold isCircuitOpen. rewrite Hb1'. cbn [state resetTime failures clock setClock].
          destruct (Z.ltb_spec (opened + 100) t2); [reflexivity|lia]. }
        unfold w2. destruct (handle_passes op2 name ident cfg _ _ Hpass) as [-> _]. fold k.
        destruct r as [|n]; [lia|].
        set (wh := setBreaker k (mkBreaker HALF_OPEN 2 (opened + 100))
                     (setClock t2 w1)) in *.
        assert (Hh : circuitBreakers wh !! k
                     = Some (mkBreaker HALF_OPEN 2 (opened + 100)))
          by apply lookup_insert_eq.
        pose proof (retryLoop_opens op2 errs2 Hf2 name k cfg n 1 None wh
                      HALF_OPEN 2 (opened + 100) Hh (or_intror eq_refl)) as Ho.
        eexists. split; [exact Ho|]. split; [reflexivity|].
        split; [intros Hone; lia|]. intros _. cbv zeta. fold opened.
        cbn [resetTime clock setClock setBreaker].
        destruct (Z.ltb_spec (opened + 100) t2); [reflexivity|lia].
      + unfold w2.
        rewrite (open_breaker_rejects op2 name ident cfg (setClock t2 w1) _ Hb1' eq_refl Hearly).
        eexists. split; [exact Hb1'|]. split; [reflexivity|].
        split; [intros Hone; lia|]. intros _. cbv zeta. fold opened.
        cbn [resetTime].
        destruct (Z.ltb_spec (opened + 100) t2); [lia|reflexivity]. }
  destruct Hopen as [b [Hb [Hs [Hone Hmany]]]].
  exists b. split; [exact Hb|]. split; [exact Hs|]. split; [exact Hone|].
  split; [exact Hmany|]. split.
  - intros t3 op3 Ht3.
    apply (open_breaker_rejects op3 name ident cfg (setClock t3 w2) b Hb Hs Ht3).
  - intros t4 op4 v Ht4 Hv.
    apply (trial_success_closes op4 name ident cfg (setClock t4 w2) b v Hb Hs Ht4);
      [simpl; lia | exact Hv].
Qed.

End CircuitBreaker.

(** The five classes the specification exempts from retries are retried
    like any other: with the default budget the operation runs three
    times, not once. *)
Lemma exempt_classes_are_retried :
  Forall (fun c : ErrorClass =>
            snd (CircuitBreakerErrorHandler.handleAsyncWithCircuitBreaker
                   (fun _ => CircuitBreakerErrorHandler.mkAttempt
                               0 0 (inr (mkError c "rejected") : unit + JsError))
                   "dispatch" "vendorA" CircuitBreakerErrorHandler.defaultConfig
                   (CircuitBreakerErrorHandler.emptyWorld 0))
            = 3%nat)
         [Unauthenticated; PermissionDenied; InvalidArgument; NotFound; CircuitOpen].
Proof. repeat constructor. Qed.

Lemma every_error_class_is_retried_witness :
  snd (CircuitBreakerErrorHandler.handleAsyncWithCircuitBreaker
         (fun _ => CircuitBreakerErrorHandler.mkAttempt
                     7 0 (inr (mkError Transient "store unavailable") : Z + JsError))
         "dispatch" "vendorA" CircuitBreakerErrorHandler.defaultConfig
         (CircuitBreakerErrorHandler.emptyWorld 0))
  = 3%nat.
Proof.
  apply (every_error_class_is_retried
           (fun _ => CircuitBreakerErrorHandler.mkAttempt
                       7 0 (inr (mkError Transient "store unavailable") : Z + JsError))
           (fun _ => mkError Transient "store unavailable")
           "dispatch" "vendorA" CircuitBreakerErrorHandler.defaultConfig
           (CircuitBreakerErrorHandler.emptyWorld 0)).
  - intros i. reflexivity.
  - reflexivity.
  - simpl. lia.
Defined.

(** The scenario with one attempt per run: failures at 0 ms and 10 ms,
    so the breaker opens at 10 ms and resets at 110 ms. *)
Lemma breaker_opens_rejects_and_recovers_witness :
  let failing : @CircuitBreakerErrorHandler.Operation Z :=
    fun _ => CircuitBreakerErrorHandler.mkAttempt 0 0 (inr (mkError Transient "down")) in
  let cfg := CircuitBreakerErrorHandler.scenarioConfig 1 1000 in
  let run op w := CircuitBreakerErrorHandler.handleAsyncWithCircuitBreaker op "dispatch" "K" cfg w in
  let w1 := fst (fst (run failing (CircuitBreakerErrorHandler.emptyWorld 0))) in
  let w2 := fst (fst (run failing (CircuitBreakerErrorHandler.setClock 10 w1))) in
  exists b,
    CircuitBreakerErrorHandler.circuitBreakers w2 !! "dispatch_K" = Some b /\
    CircuitBreakerErrorHandler.state b = CircuitBreakerErrorHandler.OPEN /\
    CircuitBreakerErrorHandler.resetTime b = 110.
Proof.
  intros failing cfg run w1 w2.
  destruct (breaker_opens_rejects_and_recovers 1 1000 10 "dispatch" "K"
              failing failing (fun _ => mkError Transient "down")
              (fun _ => mkError Transient "down")
              (CircuitBreakerErrorHandler.emptyWorld 0))
    as [b [Hb [Hs [Hone _]]]].
  - lia.
  - reflexivity.
  - intros i. reflexivity.
  - intros i. reflexivity.
  - exists b. split; [exact Hb|]. split; [exact Hs|]. exact (Hone eq_refl).
Defined.

(** With the wrapper's own retry settings (three attempts, 1000 ms
    base delay) every run outlasts the 100 ms window.  Two failing runs
    from instant 0 end at 6000 with the breaker OPEN and its reset
    instant at 3100; a third run 50 ms after the second returned is let
    through and invokes the operation three times.  And a run 150 ms
    after the second returned that fails once and then succeeds returns
    its value and leaves the breaker OPEN. *)
Lemma retries_outlast_the_reset_window :
  let down := mkError Transient "down" in
  let failing : @CircuitBreakerErrorHandler.Operation Z :=
    fun _ => CircuitBreakerErrorHandler.mkAttempt 0 0 (inr down) in
  let flaky : @CircuitBreakerErrorHandler.Operation Z :=
    fun i => CircuitBreakerErrorHandler.mkAttempt 0 0
               (if (i <? 2)%nat then inr down else inl 7) in
  let cfg := CircuitBreakerErrorHandler.scenarioConfig 3 1000 in
  let run op w := CircuitBreakerErrorHandler.handleAsyncWithCircuitBreaker op "dispatch" "K" cfg w in
  let w1 := fst (fst (run failing (CircuitBreakerErrorHandler.emptyWorld 0))) in
  let w2 := fst (fst (run failing w1)) in
  let third := run failing (CircuitBreakerErrorHandler.setClock 6050 w2) in
  let late := run flaky (CircuitBreakerErrorHandler.setClock 6150 w2) in
  CircuitBreakerErrorHandler.clock w2 = 6000 /\
  CircuitBreakerErrorHandler.circuitBreakers w2 !! "dispatch_K"
  = Some (CircuitBreakerErrorHandler.mkBreaker CircuitBreakerErrorHandler.OPEN 3 3100) /\
  snd third = 3%nat /\
  snd (fst third) = CircuitBreakerErrorHandler.Thrown (Some down) /\
  snd (fst late) = CircuitBreakerErrorHandler.Returned 7 /\
  CircuitBreakerErrorHandler.state
    <$> CircuitBreakerErrorHandler.circuitBreakers (fst (fst late)) !! "dispatch_K"
  = Some CircuitBreakerErrorHandler.OPEN.
Proof. vm_compute. repeat split. Qed.

(** ** Cache core *)

Section CacheCore.
Import CacheManager.
Context {T : Type}.
Implicit Types (cache : gmap string (@CacheEntry T)).

Lemma get_never_stored (now : Z) (k : string) cache :
  cache !! k = None -> get now k cache = None.
Proof. intros H. unfold get. rewrite H. reflexivity. Qed.

Lemma setAll_other_keys (k : string) (calls : list (Z * string * T * Z)) :
  Forall (fun c => snd (fst (fst c)) <> k) calls ->
  forall cache, setAll calls cache !! k = cache !! k.
Proof.
  induction 1 as [|[[[t k'] d] m] calls Hne _ IH]; intros cache; [reflexivity|].
  simpl in *. rewrite IH. unfold set. apply lookup_insert_ne. exact Hne.
Qed.

(** C8, as the code runs it: if the last [set(k, v, ttl)] happened at
    [t0] (later calls store other keys), [get(k)] returns [v] while
    [now - t0] is strictly below the TTL in milliseconds, and [null]
    from [now - t0 = ttl] on; a key never stored reads [null].  The
    check is made by the read, which leaves the store as it is. *)
Theorem get_after_last_set (t0 now ttlMinutes : Z) (k : string) (v : T)
    (later : list (Z * string * T * Z)) cache :
  Forall (fun c => snd (fst (fst c)) <> k) later ->
  get now k (setAll later (set t0 k v ttlMinutes cache))
  = (if now - t0 <? ttlMinutes * 60 * 1000 then Some v else None) /\
  (forall k', k' <> k -> cache !! k' = None ->
              Forall (fun c => snd (fst (fst c)) <> k') later ->
              get now k' (setAll later (set t0 k v ttlMinutes cache)) = None).
Proof.
  intros Hlater. split.
  - unfold get. rewrite (setAll_other_keys k later Hlater).
    unfold set. rewrite lookup_insert_eq. reflexivity.
  - intros k' Hne Hnone Hlater'. apply get_never_stored.
    rewrite (setAll_other_keys k' later Hlater').
    unfold set. rewrite lookup_insert_ne by congruence. exact Hnone.
Qed.

End CacheCore.

Lemma get_after_last_set_witness :
  CacheManager.get 299999 "drivers"
    (CacheManager.setAll [(10, "zones", 7, 30)] (CacheManager.set 0 "drivers" 3 5 ∅))
  = Some 3.
Proof.
  destruct (get_after_last_set 0 299999 5 "drivers" 3 [(10, "zones", 7, 30)] ∅) as [Hv _].
  - repeat constructor. simpl. discriminate.
  - rewrite Hv. reflexivity.
Defined.

(** At [now - t0 = ttl] exactly the specification promises the value,
    the code answers [null]. *)
Lemma get_at_ttl_boundary_is_null :
  300000 - 0 <= 5 * 60 * 1000 /\
  CacheManager.get 300000 "drivers" (CacheManager.set 0 "drivers" 3 5 ∅) = None.
Proof. split; [lia | vm_compute; reflexivity]. Qed.

(** ** Adaptive TTL *)

Section AdaptiveTTL.
Import AdvancedCacheManager.

Lemma recentAccesses_length (now : Z) (accessPattern : list Z) :
  (length (recentAccesses now accessPattern) <= length accessPattern)%nat.
Proof. apply List.filter_length_le. Qed.

(** C9: sixty accesses in the last hour, more than ten samples and a
    hit rate of 0.95 give, for a base of 5 minutes, a TTL of 18
    minutes.  The multiplier is the double [3.0 * 1.2 =
    3.5999999999999996]; its product with 5 rounds to 18 exactly. *)
Theorem optimal_ttl_hot_key (now : Z) (key : string) (st : State)
    (accessPattern : list Z) (hr : HitRate) :
  accessPatterns st !! key = Some accessPattern ->
  length (recentAccesses now accessPattern) = 60%nat ->
  hitRates st !! key = Some hr ->
  10 < total hr ->
  PrimFloat.div (Js.of_Z (hits hr)) (Js.of_Z (total hr)) = 0.95%float ->
  calculateOptimalTTL now key 5%float st = 18%float.
Proof.
  intros Hp Hrecent Hh Htotal Hrate.
  unfold calculateOptimalTTL. rewrite Hp, Hh. simpl default.
  pose proof (recentAccesses_length now accessPattern) as Hlen.
  destruct (Nat.ltb_spec (length accessPattern) 5); [lia|].
  rewrite Hrecent. unfold hitRateMultiplier.
  destruct (Z.ltb_spec 10 (total hr)); [|lia].
  cbv zeta. rewrite Hrate. vm_compute. reflexivity.
Qed.

Lemma optimal_ttl_hot_key_witness :
  calculateOptimalTTL 3600000 "driver_config" 5%float
    (mkState {[ "driver_config" := repeat 3000000 60 ]}
             {[ "driver_config" := mkHitRate 19 20 ]})
  = 18%float.
Proof.
  apply (optimal_ttl_hot_key 3600000 "driver_config" _ (repeat 3000000 60) (mkHitRate 19 20)).
  - reflexivity.
  - reflexivity.
  - reflexivity.
  - simpl. lia.
  - reflexivity.
Defined.

End AdaptiveTTL.

(** ** Threat meter *)

Section ThreatMeter.
Import EnhancedSecurityMonitoring.

(** A double above 95 is at least 75. *)
Lemma above_95_at_least_75 (s : float) :
  PrimFloat.ltb 95%float s = true -> PrimFloat.leb 75%float s = true.
Proof.
  rewrite ltb_spec, leb_spec. unfold SFltb, SFleb.
  replace (Prim2SF 95%float) with (S754_finite false 6685030696878080 (-46))
    by (vm_compute; reflexivity).
  replace (Prim2SF 75%float) with (S754_finite false 5277655813324800 (-46))
    by (vm_compute; reflexivity).
  destruct (Prim2SF s) as [sg|sg| |sg m e];
    cbv beta iota delta [SFcompare]; try discriminate.
  - destruct sg; [discriminate|reflexivity].
  - destruct sg; [discriminate|].
    destruct (Z.compare_spec (-46) e) as [_|_|_]; try discriminate; [|reflexivity].
    change (PosDef.Pos.compare_cont Eq ?a ?b) with (Pos.compare a b).
    destruct (Pos.compare_spec 6685030696878080 m) as [|Hlt|]; try discriminate.
    intros _.
    destruct (Pos.compare_spec 5277655813324800 m) as [|_|Hgt]; try reflexivity.
    pose proof (Pos.lt_trans _ _ _ Hlt Hgt) as Habs.
    vm_compute in Habs. discriminate Habs.
Qed.

Lemma detect_high_branch (env : Environment) (userId activity : string)
    (contextData : ContextData) (st : State) :
  let score := snd (detectAdvancedThreats env userId activity contextData st) in
  let st' := fst (detectAdvancedThreats env userId activity contextData st) in
  PrimFloat.leb 75%float score = true ->
  users st' !! userId
  = Some (mkUserSecurity "HIGH_THREAT" score activity (PrimFloat.ltb 95%float score)) /\
  last (incidents st')
  = Some (mkIncident userId activity score "HIGH"
            (["account_flagged"; "admin_notified"]
             ++ (if PrimFloat.ltb 95%float score then ["account_suspended"] else []))
            false).
Proof.
  unfold detectAdvancedThreats.
  destruct (calculateThreatScore env userId activity contextData
              (addActivityToPattern (now env) userId activity st)) as [st2 threatScore].
  simpl. intros Hhigh. rewrite Hhigh. simpl. split.
  - apply lookup_insert_eq.
  - apply last_snoc.
Qed.

(** C7, as the code runs it: an evaluation whose score is strictly
    above 95 marks the subject suspended, on top of the HIGH_THREAT flag
    and the HIGH incident (which lists the suspension among its
    automatic actions). *)
Theorem score_above_95_suspends (env : Environment) (userId activity : string)
    (contextData : ContextData) (st : State) :
  let score := snd (detectAdvancedThreats env userId activity contextData st) in
  let st' := fst (detectAdvancedThreats env userId activity contextData st) in
  PrimFloat.ltb 95%float score = true ->
  (exists u, users st' !! userId = Some u /\
             suspended u = true /\ securityFlag u = "HIGH_THREAT") /\
  (exists i, last (incidents st') = Some i /\
             severity i = "HIGH" /\ In "account_suspended" (autoActions i)).
Proof.
  intros score st' Habove.
  destruct (detect_high_branch env userId activity contextData st
              (above_95_at_least_75 _ Habove)) as [Hu Hi].
  fold score st' in Hu, Hi. rewrite Habove in Hu, Hi. split.
  - eexists. split; [exact Hu|]. split; reflexivity.
  - eexists. split; [exact Hi|]. split; [reflexivity|]. simpl. auto.
Qed.

End ThreatMeter.

(** A score of exactly 95 flags the subject but does not suspend it. *)
Lemma score_of_95_does_not_suspend :
  let r := EnhancedSecurityMonitoring.detectAdvancedThreats
             EnhancedSecurityMonitoring.noonEnvironment "u1" "dispatch_order"
             EnhancedSecurityMonitoring.torFromSuspiciousAddress
             EnhancedSecurityMonitoring.initial in
  snd r = 95%float /\
  PrimFloat.leb 95%float (snd r) = true /\
  (EnhancedSecurityMonitoring.suspended
     <$> EnhancedSecurityMonitoring.users (fst r) !! "u1") = Some false.
Proof. vm_compute. repeat split. Qed.

(** The same subject with the VPN flag as well: 105, capped to 100. *)
Lemma score_above_95_suspends_witness :
  exists u,
    EnhancedSecurityMonitoring.users
      (fst (EnhancedSecurityMonitoring.detectAdvancedThreats
              EnhancedSecurityMonitoring.noonEnvironment "u1" "dispatch_order"
              (EnhancedSecurityMonitoring.mkContext
                 true false false false true true false false (Some "203.0.113.7"))
              EnhancedSecurityMonitoring.initial)) !! "u1" = Some u /\
    EnhancedSecurityMonitoring.suspended u = true.
Proof.
  destruct (score_above_95_suspends EnhancedSecurityMonitoring.noonEnvironment
              "u1" "dispatch_order"
              (EnhancedSecurityMonitoring.mkContext
                 true false false false true true false false (Some "203.0.113.7"))
              EnhancedSecurityMonitoring.initial) as [[u [Hu [Hs _]]] _].
  - vm_compute. reflexivity.
  - exists u. split; assumption.
Defined.

(** ** Spatial index and radius query *)

Section DriverSearch.
Import OptimizedDriverSearch.
Variable distanceRadius : float -> float -> float -> float -> float.
Variable getGridKey : float -> float -> string.

Implicit Types (d : Driver) (index : gmap string (list Driver)) (k : string).

Lemma In_upsert d x (cell : list Driver) : In d (upsert x cell) -> d = x \/ In d cell.
Proof.
  induction cell as [|c cell IH]; simpl.
  - intros [<-|[]]. now left.
  - destruct (String.eqb (id c) (id x)); simpl.
    + intros [<-|H]; [now left | right; now right].
    + intros [<-|H]; [right; now left|]. destruct (IH H); [now left | right; now right].
Qed.


Lemma cell_insert index k k' (cell : list Driver) :
  default [] (<[k := cell]> index !! k')
  = if String.eqb k k' then cell else default [] (index !! k').
Proof.
  destruct (String.eqb_spec k k') as [->|Hne].
  - now rewrite lookup_insert_eq.
  - now rewrite lookup_insert_ne.
Qed.








Section Query.
Variables (latitude0 longitude0 radiusMiles : float).








End Query.

(** The liveness test of the cleanup, spelled out: the heartbeat is
    strictly less than ten minutes old. *)
Lemma stillActive_spec (now : Z) d :
  stillActive now d = true <->
  active d = true /\ isActive d = true /\
  exists t, lastSeenOnline d = Some t /\ now - t < 10 * 60 * 1000.
Proof.
  unfold stillActive, livenessWindow. rewrite !andb_true_iff. split.
  - intros [Hflags Ht]. destruct (lastSeenOnline d) as [t|]; [|discriminate].
    apply Z.ltb_lt in Ht. split; [tauto|]. split; [tauto|]. exists t. split; [reflexivity|lia].
  - intros [Ha [Hi [t [-> Ht]]]]. split; [tauto|]. apply Z.ltb_lt. lia.
Qed.

End DriverSearch.

(** ** The grid walk *)

Section GridWalk.
Import OptimizedDriverSearch.





Section Kernels.
Variable Math_cos : float -> float.
Variable Number_toString : float -> string.



End Kernels.


End GridWalk.

(** ** The radius query *)

Section RadiusQuery.
Import OptimizedDriverSearch.
Variable distanceRadius : float -> float -> float -> float -> float.
Variable Math_cos : float -> float.
Variable Number_toString : float -> string.

Implicit Types (d : Driver) (index : gmap string (list Driver)) (k : string).



(** ** Cached driver lookup *)

(** A cached list that is not empty is served from the cache. *)
Lemma cached_drivers_served (scope : Scope) (fuel : nat) (tGet tIndex tCleanup tSet : Z)
    (orderData : OrderData) (dispatchMetadata : DispatchMetadata) (st : State)
    (l : DriverList) :
  CacheManager.get tGet (cacheKeyOf orderData dispatchMetadata) (cache st) = Some l ->
  (0 < listLength l)%nat ->
  getAvailableDriversOptimized distanceRadius Math_cos Number_toString scope fuel
    tGet tIndex tCleanup tSet orderData dispatchMetadata st
  = Some (st, inl l).
Proof.
  intros Hget Hlen. unfold getAvailableDriversOptimized. rewrite Hget.
  destruct (Nat.ltb_spec 0 (listLength l)); [reflexivity|lia].
Qed.

(** With [getAvailableDrivers] bound, as the comment of line 35 assumes
    it to be, an empty cached list is a miss: the drivers are fetched,
    the index is rebuilt from them, the list kept is the loader's (the
    radius query around the vendor when the order carries a vendor
    position), and that list replaces the cached one with a two-minute
    TTL. *)
Lemma with_the_import_an_empty_list_is_reloaded (fetched : list Driver) (fuel : nat)
    (tGet tIndex tCleanup tSet : Z) (orderData : OrderData)
    (dispatchMetadata : DispatchMetadata) (st : State) :
  (forall l, CacheManager.get tGet (cacheKeyOf orderData dispatchMetadata) (cache st)
             = Some l -> listLength l = 0%nat) ->
  let index := updateSpatialIndex (getGridKey Number_toString) tIndex tCleanup fetched in
  let loaded := relevantDrivers distanceRadius Math_cos Number_toString fuel index fetched
                  orderData dispatchMetadata in
  getAvailableDriversOptimized distanceRadius Math_cos Number_toString (Some fetched) fuel
    tGet tIndex tCleanup tSet orderData dispatchMetadata st
  = match loaded with
    | Some (inl relevant) =>
        Some (mkState (CacheManager.set tSet (cacheKeyOf orderData dispatchMetadata)
                         relevant 2 (cache st)) index (S (fetches st)),
              inl relevant)
    | Some (inr e) => Some (mkState (cache st) index (S (fetches st)), inr e)
    | None => None
    end.
Proof.
  intros Hempty index loaded.
  unfold getAvailableDriversOptimized, fetchAndIndexDrivers. cbn [spatialIndex cache fetches].
  fold index. fold loaded.
  destruct (CacheManager.get tGet (cacheKeyOf orderData dispatchMetadata) (cache st))
    as [l|]; [rewrite (Hempty l eq_refl); cbn [Nat.ltb Nat.leb]|];
    destruct loaded as [[relevant|e]|]; reflexivity.
Qed.

(** In the module as written a list that is returned comes from the
    cache and is not empty. *)
Lemma a_returned_list_is_cached_and_not_empty (fuel : nat) (tGet tIndex tCleanup tSet : Z)
    (orderData : OrderData) (dispatchMetadata : DispatchMetadata) (st st' : State)
    (l : DriverList) :
  getAvailableDriversOptimized distanceRadius Math_cos Number_toString moduleScope fuel
    tGet tIndex tCleanup tSet orderData dispatchMetadata st
  = Some (st', inl l) ->
  st' = st /\ (0 < listLength l)%nat /\
  CacheManager.get tGet (cacheKeyOf orderData dispatchMetadata) (cache st) = Some l.
Proof.
  unfold getAvailableDriversOptimized, moduleScope, fetchAndIndexDrivers.
  destruct (CacheManager.get tGet (cacheKeyOf orderData dispatchMetadata) (cache st))
    as [l0|]; [|discriminate].
  destruct (Nat.ltb_spec 0 (listLength l0)) as [Hpos|_]; [|discriminate].
  intros [= <- <-]. auto.
Qed.


End RadiusQuery.

Section SkippedRows.
Import OptimizedDriverSearch.
Variable Number_toString : float -> string.


End SkippedRows.




(* ================================================================== *)
(** * Part III: further properties of the same modules                 *)
(* ================================================================== *)

(** ** Resource counters *)

Section ResourceCounters.
Import SmartResourceManager.

Lemma usageOf_release (st : State) (rt rt' : string) (n : Z) :
  usageOf (releaseResource st rt n) rt'
  = if String.eqb rt rt' then Z.max 0 (usageOf st rt - n) else usageOf st rt'.
Proof.
  unfold usageOf, releaseResource. simpl.
  destruct (String.eqb_spec rt rt') as [->|Hne].
  - now rewrite lookup_insert_eq.
  - now rewrite lookup_insert_ne.
Qed.

Lemma usageOf_acquire (st : State) (rt rt' : string) (n : Z) :
  usageOf (fst (acquireResource st rt n)) rt'
  = match snd (acquireResource st rt n) with
    | inl _ => if String.eqb rt rt' then usageOf st rt + n else usageOf st rt'
    | inr _ => usageOf st rt'
    end.
Proof.
  unfold usageOf, acquireResource.
  destruct (resourceLimits !! limitKey rt) as [limit|]; [|reflexivity].
  destruct (limit <? default 0 (resourceUsage st !! rt) + n); simpl; [reflexivity|].
  destruct (String.eqb_spec rt rt') as [->|Hne].
  - now rewrite lookup_insert_eq.
  - now rewrite lookup_insert_ne.
Qed.

(** X1.  On a resource type whose limit resolves, a counter that lies
    in [0, limit] stays there through [acquireResource] and
    [releaseResource] of a non-negative amount, whether the acquisition
    succeeds or is refused; and a release never leaves a negative count,
    whatever the amount. *)
Theorem counters_stay_within_limit (st : State) (rt : string) (limit n : Z) :
  resourceLimits !! limitKey rt = Some limit ->
  0 <= n ->
  0 <= usageOf st rt <= limit ->
  0 <= usageOf (fst (acquireResource st rt n)) rt <= limit /\
  0 <= usageOf (releaseResource st rt n) rt <= limit /\
  (forall m, 0 <= usageOf (releaseResource st rt m) rt).
Proof.
  intros Hl Hn Hin. split; [|split].
  - rewrite usageOf_acquire. unfold acquireResource. rewrite Hl. fold (usageOf st rt).
    destruct (Z.ltb_spec limit (usageOf st rt + n)); simpl; [lia|].
    rewrite String.eqb_refl. lia.
  - rewrite usageOf_release, String.eqb_refl. lia.
  - intros m. rewrite usageOf_release, String.eqb_refl. lia.
Qed.

Lemma counters_stay_within_limit_witness :
  0 <= usageOf (fst (acquireResource initial "databaseConnections" 50))
         "databaseConnections" <= 50.
Proof.
  apply (counters_stay_within_limit initial "databaseConnections" 50 50).
  - vm_compute. reflexivity.
  - lia.
  - vm_compute. split; discriminate.
Defined.

Lemma get_absent {V : Type} (t : string) (m : list (string * V)) :
  ~ In t (map fst m) -> JsMap.get t m = None.
Proof.
  induction m as [|[k v] m IH]; simpl; [reflexivity|].
  intros Hni. destruct (String.eqb_spec k t) as [->|_]; [tauto|]. apply IH. tauto.
Qed.

Lemma acquireAll_spec (reqs : list (string * Z)) :
  NoDup (map fst reqs) ->
  forall st,
    let r := acquireAll reqs st in
    (forall t, In t (map resourceType (snd (fst r))) -> In t (map fst reqs)) /\
    NoDup (map resourceType (snd (fst r))) /\
    (forall t, usageOf (fst (fst r)) t
               = usageOf st t + default 0 (JsMap.get t (pairsOf (snd (fst r))))).
Proof.
  induction reqs as [|[type amt] reqs IH]; intros Hnd st; simpl.
  - repeat split; [tauto | constructor | intros; lia].
  - apply NoDup_cons in Hnd as [Hfresh Hnd]. rewrite list_elem_of_In in Hfresh.
    pose proof (fun t => usageOf_acquire st type t amt) as Hu.
    destruct (acquireResource st type amt) as [st' [h|e]] eqn:Ha; simpl in *.
    + assert (Hh : h = mkHandle type amt).
      { unfold acquireResource in Ha.
        destruct (resourceLimits !! limitKey type); [|discriminate].
        destruct (_ <? _); [discriminate|]. now injection Ha as _ <-. }
      subst h. specialize (IH Hnd st').
      destruct (acquireAll reqs st') as [[st'' held] failed]. simpl in *.
      destruct IH as [Hsub [Hnd' Husage]]. repeat split.
      * intros t [<-|Ht]; [now left | right; now apply Hsub].
      * apply NoDup_cons. split; [|exact Hnd'].
        rewrite list_elem_of_In. intros Hin. apply Hfresh. now apply Hsub.
      * intros t. rewrite Husage, (Hu t).
        destruct (String.eqb_spec type t) as [->|Hne]; simpl; [|lia].
        rewrite get_absent; [simpl; lia|].
        unfold pairsOf. rewrite map_map. simpl. intros Hin. apply Hfresh. now apply Hsub.
    + repeat split; [tauto | constructor |].
      intros t. rewrite (Hu t). lia.
Qed.

Lemma releaseAll_usage (resources : list Handle) :
  NoDup (map resourceType resources) ->
  forall st t,
    usageOf (releaseAll resources st) t
    = match JsMap.get t (pairsOf resources) with
      | Some a => Z.max 0 (usageOf st t - a)
      | None => usageOf st t
      end.
Proof.
  induction resources as [|h hs IH]; intros Hnd st t; simpl; [reflexivity|].
  apply NoDup_cons in Hnd as [Hfresh Hnd]. rewrite list_elem_of_In in Hfresh.
  change (releaseAll (h :: hs) st) with (releaseAll hs (release h st)).
  rewrite (IH Hnd). unfold release. rewrite usageOf_release.
  destruct (String.eqb_spec (resourceType h) t) as [<-|Hne]; [|reflexivity].
  rewrite get_absent; [reflexivity|].
  unfold pairsOf. rewrite map_map. exact Hfresh.
Qed.

(** X2.  [executeWithResourceManagement] gives back what it took on
    every exit path: if the requirement keys are distinct, the counters
    involved are not negative and the operation itself leaves the
    counters alone, then every counter reads after the call what it
    read before, whether all acquisitions succeeded, one was refused
    half way, or the operation threw. *)
Theorem execute_restores_counters {V : Type}
    (operation : State -> State * (V + JsError))
    (reqs : list (string * Z)) (st : State) :
  NoDup (map fst reqs) ->
  (forall t, In t (map fst reqs) -> 0 <= usageOf st t) ->
  (forall s, resourceUsage (fst (operation s)) = resourceUsage s) ->
  forall t, usageOf (fst (executeWithResourceManagement operation reqs st)) t
            = usageOf st t.
Proof.
  intros Hnd Hnonneg Hop t. unfold executeWithResourceManagement.
  destruct (acquireAll_spec reqs Hnd st) as [Hsub [Hnd' Husage]].
  destruct (acquireAll reqs st) as [[st1 held] failed]. simpl in *.
  assert (Hback : forall s, (forall t', usageOf s t' = usageOf st1 t') ->
                            usageOf (releaseAll held s) t = usageOf st t).
  { intros s Hs. rewrite (releaseAll_usage held Hnd'), Hs, Husage.
    destruct (JsMap.get t (pairsOf held)) as [a|] eqn:Hg; simpl; [|lia].
    assert (0 <= usageOf st t); [|lia].
    apply Hnonneg, Hsub. apply get_In in Hg. unfold pairsOf in Hg.
    apply in_map_iff in Hg as [h [[= <- _] Hh]]. now apply in_map. }
  destruct failed as [e|]; simpl.
  - apply Hback. reflexivity.
  - specialize (Hop st1). destruct (operation st1) as [st2 result]. simpl in *.
    apply Hback. intros t'. unfold usageOf. now rewrite Hop.
Qed.

Lemma execute_restores_counters_witness :
  usageOf (fst (executeWithResourceManagement
                  (fun s => (s, inr (mkError Transient "store down") : unit + JsError))
                  [("memoryUsage", 4096); ("databaseConnections", 2)] initial))
          "memoryUsage"
  = 0.
Proof.
  apply (execute_restores_counters
           (fun s => (s, inr (mkError Transient "store down") : unit + JsError))
           [("memoryUsage", 4096); ("databaseConnections", 2)] initial).
  - apply NoDup_cons. split; [|apply NoDup_singleton].
    intros Hin%list_elem_of_In. destruct Hin as [Hin|[]]. discriminate Hin.
  - intros t [<-|[<-|[]]]; vm_compute; discriminate.
  - intros s. reflexivity.
Defined.

End ResourceCounters.

(** ** Dispatch entry point *)

(** X3.  Once the security validation and the flow tracking have
    passed, every call of [dispatchOrder] ends with the [internal]
    error that wraps "Undefined resource type: activeDispatch": the
    inner block (driver search, matching, notification) is never
    entered and the counters are not touched. *)
Theorem dispatch_stops_at_acquisition {V : Type}
    (body : SmartResourceManager.State -> SmartResourceManager.State * (V + DispatchOrder.Thrown))
    (st : SmartResourceManager.State) :
  DispatchOrder.dispatchOrder None body st
  = (st, inr (DispatchOrder.Https "internal"
                "An unexpected error occurred: Undefined resource type: activeDispatch")).
Proof.
  unfold DispatchOrder.dispatchOrder, SmartResourceManager.acquireResource.
  rewrite limit_of_activeDispatch. reflexivity.
Qed.

(** ** Scheduling and the tick *)

Section Tick.
Import BackgroundJobScheduler.

Lemma parseInterval_positive (s : string) : 0 < parseInterval s.
Proof.
  unfold parseInterval, intervals. simpl.
  repeat match goal with
         | |- context [if ?c then _ else _] => destruct c; simpl; [lia|]
         end.
  lia.
Qed.

(** X4.  [calculateNextRun] never answers an instant before the clock
    reading it is given: a one-shot epoch that is already past is due
    at once, a future one at its epoch, and a periodic or unrecognised
    schedule strictly later. *)
Theorem next_run_is_not_in_the_past (now : Z) (schedule : Schedule) :
  now <= calculateNextRun now schedule /\
  (forall t, schedule = OneShot t -> calculateNextRun now schedule = Z.max t now) /\
  (forall s, schedule = Token s -> now < calculateNextRun now schedule).
Proof.
  split; [|split].
  - destruct schedule as [t|s]; simpl.
    + destruct (Z.ltb_spec now t); lia.
    + pose proof (parseInterval_positive s). destruct (Js.startsWith "every " s); lia.
  - intros t ->. simpl. destruct (Z.ltb_spec now t); lia.
  - intros s ->. simpl.
    pose proof (parseInterval_positive s). destruct (Js.startsWith "every " s); lia.
Qed.

(** X5.  A schedule string that is not one of the ten entries of the
    interval table is run one minute later, whether or not it starts
    with "every ".  The registry relies on it once: the job registered
    as "every 15 minutes" ([demand_prediction_update]) is first due one
    minute after its registration. *)
Theorem unlisted_interval_is_one_minute (clock : nat -> Z) :
  (forall now s, JsMap.get s intervals = None ->
                 calculateNextRun now (Token s) = now + 60000) /\
  JsMap.get "every 15 minutes" intervals = None /\
  exists job,
    JsMap.get "demand_prediction_update" (jobs (initializeSystemJobs clock initial))
    = Some job /\
    schedule job = Token "every 15 minutes" /\
    nextRun job = clock 6%nat + 60000.
Proof.
  split; [|split].
  - intros now s Hs. simpl. unfold parseInterval. rewrite Hs. simpl.
    destruct (Js.startsWith "every " s); reflexivity.
  - reflexivity.
  - eexists. split; [reflexivity|]. split; reflexivity.
Qed.

Lemma readyAfter_before (a b : Job) : readyAfter a b = true -> readyBefore b a.
Proof.
  unfold readyAfter, readyBefore.
  destruct (Z.eqb_spec (priorityOrder (priority (options a))
                        - priorityOrder (priority (options b))) 0); simpl;
    intros H%Z.ltb_lt; lia.
Qed.

Lemma not_readyAfter_before (a b : Job) : readyAfter a b = false -> readyBefore a b.
Proof.
  unfold readyAfter, readyBefore.
  destruct (Z.eqb_spec (priorityOrder (priority (options a))
                        - priorityOrder (priority (options b))) 0); simpl;
    intros H%Z.ltb_ge; lia.
Qed.

(** X6.  [getReadyJobs] returns exactly the jobs of the table that are
    due, in a state that may run ([scheduled], or [failed] with retries
    left) and not already running; the list is ordered by priority and,
    within a priority, by [nextRun]. *)
Theorem ready_jobs_are_due_and_ordered (now : Z) (st : State) :
  (forall job, In job (getReadyJobs now st) <->
               In job (JsMap.values (jobs st)) /\
               isReady now (currentlyRunning st) job = true) /\
  Sorted readyBefore (getReadyJobs now st).
Proof.
  unfold getReadyJobs. split.
  - intros job.
    rewrite <- (Permutation_in' (eq_refl job) (sortBy_perm readyAfter _)).
    rewrite <- !list_elem_of_In, list_elem_of_filter. tauto.
  - apply (sortBy_sorted readyAfter readyBefore (fun _ => True)).
    + apply readyAfter_before.
    + intros a b _ _. apply not_readyAfter_before.
    + apply Forall_forall. intros; exact I.
Qed.

Lemma startJob_running (now : Z) (jobId : string) (st : State) :
  (size (currentlyRunning (startJob now jobId st)) <= S (size (currentlyRunning st)))%nat.
Proof.
  unfold startJob. destruct (JsMap.get jobId (jobs st)); simpl; [|lia].
  rewrite size_union_alt.
  assert (size (({[jobId]} : gset string) ∖ currentlyRunning st) <= 1)%nat; [|lia].
  rewrite <- (size_singleton (C := gset string) jobId).
  apply subseteq_size. apply subseteq_difference_l. reflexivity.
Qed.

(** X7.  A tick never takes the number of running jobs above
    [maxConcurrentJobs] (five), unless it was above already, in which
    case it starts nothing; what it starts is a prefix of the ready
    queue, in queue order. *)
Theorem tick_respects_concurrency_cap (now : Z) (ready : list Job) (st : State) :
  let r := dispatchReady now ready st in
  (size (currentlyRunning (fst r)) <= Nat.max maxConcurrentJobs (size (currentlyRunning st)))%nat /\
  (exists rest, map id ready = snd r ++ rest) /\
  ((maxConcurrentJobs <= size (currentlyRunning st))%nat -> r = (st, [])).
Proof.
  revert st. induction ready as [|job ready IH]; intros st; cbn [dispatchReady].
  - split; [cbn [fst]; lia|]. split; [exists []; reflexivity | reflexivity].
  - destruct (Nat.leb_spec maxConcurrentJobs (size (currentlyRunning st))) as [Hfull|Hroom].
    + cbn [fst snd]. split; [lia|]. split; [eexists; reflexivity | reflexivity].
    + specialize (IH (startJob now (id job) st)).
      pose proof (startJob_running now (id job) st) as Hs.
      destruct (dispatchReady now ready (startJob now (id job) st)) as [st' started].
      cbn [fst snd] in *. destruct IH as [Hsize [[rest Hrest] _]].
      split; [lia|]. split; [exists rest; cbn [map app]; now rewrite Hrest | lia].
Qed.

(** X8.  A periodic job that completes stays in the table, [scheduled]
    again with its retry count cleared, and is next due one interval
    after the completion. *)
Theorem periodic_job_is_rescheduled (tStart tEnd : Z) (jobId token : string)
    (st : State) (job : Job) :
  JsMap.get jobId (jobs st) = Some job ->
  schedule job = Token token ->
  exists job',
    JsMap.get jobId (jobs (executeJob tStart tEnd jobId Resolved st)) = Some job' /\
    status job' = st_scheduled /\
    retryCount job' = 0 /\
    lastRun job' = Some tEnd /\
    nextRun job' = calculateNextRun tEnd (Token token) /\
    tEnd < nextRun job' /\
    jobId ∉ currentlyRunning (executeJob tStart tEnd jobId Resolved st).
Proof.
  intros Hget Hs. unfold executeJob.
  pose proof (startJob_found tStart jobId _ _ Hget) as Hr.
  destruct (settleJob_found tEnd jobId Resolved _ _ Hr) as [H _].
  unfold handleJobSuccess, isTerminal in H. simpl in H. rewrite Hs in H. simpl in H.
  eexists. split; [exact H|]. cbn [status retryCount lastRun nextRun].
  split; [reflexivity|]. split; [reflexivity|]. split; [reflexivity|].
  split; [reflexivity|]. split.
  - pose proof (parseInterval_positive token).
    destruct (Js.startsWith "every " token); lia.
  - apply running_after_settle.
Qed.

Lemma periodic_job_is_rescheduled_witness :
  exists job',
    JsMap.get "auto_cleanup"
      (jobs (executeJob 1800000 1800400 "auto_cleanup" Resolved
               (initializeSystemJobs (fun _ => 0) initial))) = Some job' /\
    status job' = st_scheduled.
Proof.
  destruct (periodic_job_is_rescheduled 1800000 1800400 "auto_cleanup" "every 30 minutes"
              (initializeSystemJobs (fun _ => 0) initial)
              (mkJob "auto_cleanup" (Token "every 30 minutes") (mkOptions normal 2 120000)
                     1800000 None 0 st_scheduled None None None))
    as [job' [Hget [Hst _]]].
  - reflexivity.
  - reflexivity.
  - exists job'. split; assumption.
Defined.

(** X9.  A periodic job whose run fails or times out with no retry left
    is kept in the table in a state ([failed] with the budget spent, or
    [timeout]) that [getReadyJobs] never selects: it is not run again,
    at any later tick. *)
Theorem exhausted_periodic_job_never_runs_again (tStart tEnd : Z) (jobId token : string)
    (o : Outcome) (st : State) (job : Job) :
  JsMap.get jobId (jobs st) = Some job ->
  schedule job = Token token ->
  maxRetries (options job) <= retryCount job + 1 ->
  o <> Resolved ->
  exists job',
    JsMap.get jobId (jobs (executeJob tStart tEnd jobId o st)) = Some job' /\
    (status job' = st_failed \/ status job' = st_timeout) /\
    forall t running, isReady t running job' = false.
Proof.
  intros Hget Hs Hmax Ho. unfold executeJob.
  pose proof (startJob_found tStart jobId _ _ Hget) as Hr.
  destruct (settleJob_found tEnd jobId o _ _ Hr) as [H _].
  assert (Hperiodic : forall j, schedule j = Token token -> isTerminal j = false)
    by (intros j Hj; unfold isTerminal; now rewrite Hj).
  destruct o as [|message|]; [congruence| |].
  - destruct (Js.includes "Job timed out" message).
    + rewrite handleJobTimeout_exhausted in H by exact Hmax. simpl in H.
      rewrite Hperiodic in H by exact Hs.
      eexists. split; [exact H|]. split; [now right|].
      intros t running. unfold isReady. simpl. now rewrite andb_false_r.
    + rewrite handleJobError_exhausted in H by exact Hmax. simpl in H.
      rewrite Hperiodic in H by exact Hs.
      eexists. split; [exact H|]. split; [now left|].
      intros t running. unfold isReady. simpl.
      destruct (Z.ltb_spec (retryCount job + 1) (maxRetries (options job))); [lia|].
      now rewrite andb_false_r.
  - rewrite handleJobTimeout_exhausted in H by exact Hmax. simpl in H.
    rewrite Hperiodic in H by exact Hs.
    eexists. split; [exact H|]. split; [now right|].
    intros t running. unfold isReady. simpl. now rewrite andb_false_r.
Qed.

Lemma exhausted_periodic_job_never_runs_again_witness :
  exists job',
    JsMap.get "resource_monitoring_snapshot"
      (jobs (executeJob 300000 300050 "resource_monitoring_snapshot"
               (Rejected "heap sample failed")
               (initializeSystemJobs (fun _ => 0) initial))) = Some job' /\
    forall t running, isReady t running job' = false.
Proof.
  destruct (exhausted_periodic_job_never_runs_again 300000 300050
              "resource_monitoring_snapshot" "every 5 minutes"
              (Rejected "heap sample failed")
              (initializeSystemJobs (fun _ => 0) initial)
              (mkJob "resource_monitoring_snapshot" (Token "every 5 minutes")
                     (mkOptions normal 1 30000) 300000 None 0 st_scheduled None None None))
    as [job' [Hget [_ Hnever]]].
  - reflexivity.
  - reflexivity.
  - simpl. lia.
  - discriminate.
  - exists job'. split; assumption.
Defined.

(** X10.  A job that is run with retries left ([0 <= retryCount <
    maxRetries]) comes out of [executeJob], whatever the outcome, with
    [0 <= retryCount <= maxRetries]; and if it can be selected again,
    then again with retries left. *)
Theorem retry_count_stays_within_budget (tStart tEnd : Z) (jobId : string)
    (o : Outcome) (st : State) (job job' : Job) :
  JsMap.get jobId (jobs st) = Some job ->
  0 <= retryCount job < maxRetries (options job) ->
  JsMap.get jobId (jobs (executeJob tStart tEnd jobId o st)) = Some job' ->
  maxRetries (options job') = maxRetries (options job) /\
  0 <= retryCount job' <= maxRetries (options job') /\
  (forall t running, isReady t running job' = true ->
                     retryCount job' < maxRetries (options job')).
Proof.
  intros Hget Hbudget Hget'. unfold executeJob in Hget'.
  pose proof (startJob_found tStart jobId _ _ Hget) as Hr.
  destruct (settleJob_found tEnd jobId o _ _ Hr) as [H _].
  rewrite Hget' in H. clear Hget' Hr.
  set (running := mkJob (id job) (schedule job) (options job) (nextRun job) (lastRun job)
                        (retryCount job) st_running (Some tStart) (executionTime job) None)
    in *.
  assert (Herr : forall message,
             let j := fst (handleJobError tEnd running message) in
             maxRetries (options j) = maxRetries (options job) /\
             retryCount j = retryCount job + 1 /\
             (status j = st_scheduled -> retryCount j < maxRetries (options j)) /\
             status j <> st_running /\ status j <> st_completed).
  { intros message. unfold handleJobError. simpl.
    destruct (Z.ltb_spec (retryCount job + 1) (maxRetries (options job))); simpl;
      repeat split; try lia; discriminate. }
  assert (Htime : let j := fst (handleJobTimeout tEnd running) in
             maxRetries (options j) = maxRetries (options job) /\
             retryCount j = retryCount job + 1 /\
             (status j = st_scheduled -> retryCount j < maxRetries (options j)) /\
             status j <> st_failed /\ status j <> st_running /\ status j <> st_completed).
  { unfold handleJobTimeout. simpl.
    destruct (Z.ltb_spec (retryCount job + 1) (maxRetries (options job))); simpl;
      repeat split; try lia; discriminate. }
  assert (Hready : forall j t rs, isReady t rs j = true ->
             status j = st_scheduled \/
             (status j = st_failed /\ retryCount j < maxRetries (options j))).
  { intros j t rs Hj. unfold isReady in Hj.
    apply andb_prop in Hj as [Hj _]. apply andb_prop in Hj as [_ Hj].
    destruct (status j); try discriminate; [now left|]. right. split; [reflexivity|].
    now apply Z.ltb_lt. }
  destruct o as [|message|].
  - simpl in H. destruct (isTerminal _); [discriminate|]. injection H as ->.
    unfold handleJobSuccess. destruct (isOneShot (schedule running)); simpl;
      repeat split; try lia; intros; lia.
  - simpl in H. destruct (Js.includes "Job timed out" message).
    + destruct Htime as [Hm [Hc [Hs [Hnf _]]]].
      destruct (isTerminal _); [discriminate|]. injection H as ->.
      split; [exact Hm|]. split; [lia|]. intros t rs Hj.
      destruct (Hready _ _ _ Hj) as [Hsch|[Hf _]]; [now apply Hs | contradiction].
    + destruct (Herr message) as [Hm [Hc [Hs _]]].
      destruct (isTerminal _); [discriminate|]. injection H as ->.
      split; [exact Hm|]. split; [lia|]. intros t rs Hj.
      destruct (Hready _ _ _ Hj) as [Hsch|[_ Hlt]]; [now apply Hs | exact Hlt].
  - simpl in H. destruct Htime as [Hm [Hc [Hs [Hnf _]]]].
    destruct (isTerminal _); [discriminate|]. injection H as ->.
    split; [exact Hm|]. split; [lia|]. intros t rs Hj.
    destruct (Hready _ _ _ Hj) as [Hsch|[Hf _]]; [now apply Hs | contradiction].
Qed.

Lemma retry_count_stays_within_budget_witness :
  exists job',
    JsMap.get "auto_cleanup"
      (jobs (executeJob 1800000 1920000 "auto_cleanup" TimerFired
               (initializeSystemJobs (fun _ => 0) initial))) = Some job' /\
    0 <= retryCount job' <= maxRetries (options job').
Proof.
  eexists. split; [vm_compute; reflexivity|].
  apply (retry_count_stays_within_budget 1800000 1920000 "auto_cleanup" TimerFired
           (initializeSystemJobs (fun _ => 0) initial)
           (mkJob "auto_cleanup" (Token "every 30 minutes") (mkOptions normal 2 120000)
                  1800000 None 0 st_scheduled None None None)).
  - reflexivity.
  - simpl. lia.
  - vm_compute. reflexivity.
Defined.

End Tick.

(** ** Rolling windows *)

Section RollingWindow.
Context {A : Type}.

Lemma trim_suffix (cap keep : nat) (l : list A) :
  exists older, l = older ++ Js.trim cap keep l.
Proof.
  unfold Js.trim. destruct (cap <? length l)%nat.
  - exists (firstn (length l - keep) l). symmetry. apply firstn_skipn.
  - exists []. reflexivity.
Qed.

Lemma trim_length (cap keep : nat) (l : list A) :
  (keep <= cap)%nat ->
  (length (Js.trim cap keep l) <= cap)%nat /\
  (Nat.min (length l) keep <= length (Js.trim cap keep l))%nat.
Proof.
  intros Hk. unfold Js.trim. destruct (Nat.ltb_spec cap (length l)).
  - rewrite length_skipn. lia.
  - lia.
Qed.

(** A window fed one element at a time holds a suffix of what it was
    fed, never more than [cap] elements and never fewer than the [keep]
    latest. *)
Lemma window_history (cap keep : nat) (xs : list A) :
  (keep <= cap)%nat ->
  let window := foldl (fun l x => Js.trim cap keep (l ++ [x])) [] xs in
  (length window <= cap)%nat /\
  (Nat.min (length xs) keep <= length window)%nat /\
  exists older, xs = older ++ window.
Proof.
  intros Hk. induction xs as [|x xs IH] using rev_ind.
  - simpl. split; [lia|]. split; [lia|]. exists []. reflexivity.
  - cbv zeta in *. rewrite foldl_app. simpl.
    set (l := foldl _ [] xs) in *.
    destruct IH as [Hcap [Hkeep [older Hold]]].
    destruct (trim_length cap keep (l ++ [x]) Hk) as [H1 H2].
    destruct (trim_suffix cap keep (l ++ [x])) as [cut Hcut].
    rewrite length_app in H2. simpl in H2.
    split; [exact H1|]. split.
    + rewrite length_app. simpl. lia.
    + exists (older ++ cut). rewrite <- app_assoc, <- Hcut, app_assoc, <- Hold.
      reflexivity.
Qed.

End RollingWindow.

(** ** Circuit breaker: whole runs *)

Section BreakerRuns.
Import CircuitBreakerErrorHandler.
Context {V : Type}.
Implicit Types (w : World) (op : @Operation V) (a : @Attempt V) (cfg : Config).

Lemma recordErrorPatterns_log (k : string) (history : list (Z * JsError)) :
  forall w,
    default [] (errorPatterns (recordErrorPatterns k history w) !! k)
    = foldl (fun l x => Js.trim 50 25 (l ++ [x]))
        (default [] (errorPatterns w !! k)) (map patternOf history).
Proof.
  induction history as [|[t e] history IH]; intros w; [reflexivity|].
  unfold recordErrorPatterns in *. simpl. rewrite IH. f_equal.
  unfold recordErrorPattern. simpl. rewrite lookup_insert_eq. reflexivity.
Qed.

(** X11.  The error log of a breaker key is a bounded window on the
    errors logged for it: fed any history from empty, it holds at most
    50 entries, at least the 25 latest (all of them while there are
    fewer), and what it holds is the tail of the history, in order. *)
Theorem error_log_keeps_the_latest (k : string) (history : list (Z * JsError)) w :
  errorPatterns w !! k = None ->
  let log := default [] (errorPatterns (recordErrorPatterns k history w) !! k) in
  (length log <= 50)%nat /\
  (Nat.min (length history) 25 <= length log)%nat /\
  exists older, map patternOf history = older ++ log.
Proof.
  intros Hnone. cbv zeta. rewrite recordErrorPatterns_log, Hnone. simpl.
  pose proof (window_history 50 25 (map patternOf history) ltac:(lia)) as Hw.
  cbv zeta in Hw. rewrite length_map in Hw. exact Hw.
Qed.

Lemma recordSuccess_clock (k : string) w : clock (recordSuccess k w) = clock w.
Proof.
  unfold recordSuccess. destruct (circuitBreakers w !! k) as [b|]; [|reflexivity].
  destruct (state b); reflexivity.
Qed.

Lemma isCircuitOpen_clock (k : string) w : clock (fst (isCircuitOpen k w)) = clock w.
Proof.
  unfold isCircuitOpen. destruct (circuitBreakers w !! k) as [b|]; [|reflexivity].
  destruct (state b); try reflexivity.
  destruct (resetTime b <? clock w); reflexivity.
Qed.

Lemma recordFailure_other (k k' : string) (e : JsError) (mf rt : Z) w :
  k' <> k ->
  circuitBreakers (recordFailure k e mf rt w) !! k' = circuitBreakers w !! k'.
Proof.
  intros Hne. unfold recordFailure.
  destruct (circuitBreakers w !! k) as [b|] eqn:Hb; simpl.
  - rewrite Hb. simpl. destruct (state b); simpl; try reflexivity;
      repeat match goal with
             | |- context [if ?c then _ else _] => destruct c; simpl
             end; rewrite ?lookup_insert_ne by congruence; reflexivity.
  - rewrite lookup_insert_eq. simpl.
    repeat match goal with
           | |- context [if ?c then _ else _] => destruct c; simpl
           end; rewrite ?lookup_insert_ne by congruence; reflexivity.
Qed.

Lemma recordSuccess_other (k k' : string) w :
  k' <> k ->
  circuitBreakers (recordSuccess k w) !! k' = circuitBreakers w !! k'.
Proof.
  intros Hne. unfold recordSuccess.
  destruct (circuitBreakers w !! k) as [b|]; [|reflexivity].
  destruct (state b); simpl; rewrite ?lookup_insert_ne by congruence; reflexivity.
Qed.

Lemma isCircuitOpen_other (k k' : string) w :
  k' <> k ->
  circuitBreakers (fst (isCircuitOpen k w)) !! k' = circuitBreakers w !! k'.
Proof.
  intros Hne. unfold isCircuitOpen.
  destruct (circuitBreakers w !! k) as [b|]; [|reflexivity].
  destruct (state b); simpl; try reflexivity.
  destruct (resetTime b <? clock w); simpl;
    rewrite ?lookup_insert_ne by congruence; reflexivity.
Qed.

Lemma retryLoop_other (k k' name : string) cfg op :
  k' <> k ->
  forall (n attempt : nat) (last : option JsError) w,
    circuitBreakers (fst (fst (retryLoop n attempt op name k cfg last w))) !! k'
    = circuitBreakers w !! k'.
Proof.
  intros Hne. induction n as [|n IH]; intros attempt last w; [reflexivity|].
  simpl.
  pose proof (trackFunction_breakers name (op attempt) w) as Hbr.
  destruct (trackFunction name (op attempt) w) as [w1 [v|e]]; simpl in Hbr.
  - simpl. rewrite recordSuccess_other by exact Hne. now rewrite Hbr.
  - match goal with |- context [retryLoop n (S attempt) op name k cfg ?l ?w'] =>
      specialize (IH (S attempt) l w');
      destruct (retryLoop n (S attempt) op name k cfg l w') as [[w4 r] c] end.
    simpl in *. rewrite IH, breakers_after_pause, recordFailure_other by exact Hne.
    now rewrite Hbr.
Qed.

(** X12.  A call reads and writes the breaker of its own key only:
    whatever the operation does and however the call ends, the breaker
    of every other key is what it was.  The key is the operation name
    and the identifier joined by an underscore, so two different pairs
    can share one breaker. *)
Theorem breakers_are_isolated_by_key op (name ident : string) cfg w (k' : string) :
  k' <> breakerKeyOf name ident ->
  circuitBreakers (fst (fst (handleAsyncWithCircuitBreaker op name ident cfg w))) !! k'
  = circuitBreakers w !! k' /\
  breakerKeyOf "geo_lookup" "eu" = breakerKeyOf "geo" "lookup_eu".
Proof.
  intros Hne. split; [|reflexivity].
  unfold handleAsyncWithCircuitBreaker.
  pose proof (isCircuitOpen_other (breakerKeyOf name ident) k' w Hne) as Hopen.
  destruct (isCircuitOpen (breakerKeyOf name ident) w) as [w0 [|]]; simpl in Hopen.
  - exact Hopen.
  - pose proof (retryLoop_other (breakerKeyOf name ident) k' name cfg op Hne
                  (retryAttempts cfg) 1 None w0) as Hloop.
    destruct (retryLoop (retryAttempts cfg) 1 op name (breakerKeyOf name ident) cfg None w0)
      as [[w1 [v|e]] c]; simpl in *; congruence.
Qed.

(** What a recorded outcome leaves behind: never HALF_OPEN, and CLOSED
    only below the threshold. *)
Local Abbreviation settledFor mf ob :=
  (match ob with
   | None => True
   | Some b => state b <> HALF_OPEN /\ (state b = CLOSED -> failures b < mf)
   end).

Lemma recordFailure_settled (k : string) (e : JsError) (mf rt : Z) w :
  exists b, circuitBreakers (recordFailure k e mf rt w) !! k = Some b /\
            state b <> HALF_OPEN /\ (state b = CLOSED -> failures b < mf).
Proof.
  unfold recordFailure.
  destruct (circuitBreakers w !! k) as [b|] eqn:Hb; simpl.
  - rewrite Hb. simpl. destruct (state b) eqn:Hs; simpl.
    + destruct (Z.leb_spec mf (failures b + 1)); simpl.
      * eexists. rewrite lookup_insert_eq. split; [reflexivity|]. simpl.
        split; [discriminate|discriminate].
      * eexists. rewrite lookup_insert_eq. split; [reflexivity|]. simpl.
        split; [discriminate|]. intros _. lia.
    + exists b. rewrite Hb, Hs. split; [reflexivity|]. split; discriminate.
    + rewrite andb_false_r. simpl. eexists. rewrite lookup_insert_eq.
      split; [reflexivity|]. simpl. split; discriminate.
  - rewrite lookup_insert_eq. simpl. change (0 + 1) with 1. rewrite andb_true_r.
    destruct (Z.leb_spec mf 1); simpl.
    + eexists. rewrite lookup_insert_eq. split; [reflexivity|]. simpl. split; discriminate.
    + eexists. rewrite lookup_insert_eq. split; [reflexivity|]. simpl.
      split; [discriminate|]. intros _. lia.
Qed.

Lemma recordSuccess_settled (k : string) (mf : Z) w :
  0 < mf -> settledFor mf (circuitBreakers (recordSuccess k w) !! k).
Proof.
  intros Hmf. unfold recordSuccess.
  destruct (circuitBreakers w !! k) as [b|] eqn:Hb; [|rewrite Hb; exact I].
  destruct (state b) eqn:Hs; simpl.
  - rewrite lookup_insert_eq. simpl. split; [discriminate|]. intros _. exact Hmf.
  - rewrite Hb. simpl. rewrite Hs. split; discriminate.
  - rewrite lookup_insert_eq. simpl. split; [discriminate|]. intros _. exact Hmf.
Qed.

Lemma retryLoop_settled (k name : string) cfg op :
  0 < maxFailures cfg ->
  forall (n attempt : nat) (last : option JsError) w,
    settledFor (maxFailures cfg) (circuitBreakers w !! k) \/ (0 < n)%nat ->
    settledFor (maxFailures cfg)
      (circuitBreakers (fst (fst (retryLoop n attempt op name k cfg last w))) !! k).
Proof.
  intros Hmf. induction n as [|n IH]; intros attempt last w Hstart.
  - destruct Hstart as [Hs|Hn]; [exact Hs|lia].
  - simpl.
    destruct (trackFunction name (op attempt) w) as [w1 [v|e]].
    + simpl. apply recordSuccess_settled. exact Hmf.
    + match goal with |- context [retryLoop n (S attempt) op name k cfg ?l ?w'] =>
        specialize (IH (S attempt) l w');
        destruct (retryLoop n (S attempt) op name k cfg l w') as [[w4 r] c] end.
      simpl in *. apply IH. left. rewrite breakers_after_pause.
      destruct (recordFailure_settled k e (maxFailures cfg) (resetTimeoutMs cfg) w1)
        as [b [-> Hb]]. exact Hb.
Qed.

(** X13.  HALF_OPEN never outlives a call.  With at least one attempt
    and a positive threshold, whatever the operation does and whatever
    the breaker was before, the breaker a call leaves behind is not
    HALF_OPEN, and if it is CLOSED its failure count is below
    [maxFailures]. *)
Theorem half_open_never_outlives_a_call op (name ident : string) cfg w (b : Breaker) :
  (0 < retryAttempts cfg)%nat -> 0 < maxFailures cfg ->
  circuitBreakers (fst (fst (handleAsyncWithCircuitBreaker op name ident cfg w)))
    !! breakerKeyOf name ident = Some b ->
  state b <> HALF_OPEN /\ (state b = CLOSED -> failures b < maxFailures cfg).
Proof.
  intros Hr Hmf. unfold handleAsyncWithCircuitBreaker, isCircuitOpen.
  set (k := breakerKeyOf name ident).
  assert (Hloop : forall w0 : World,
             circuitBreakers
               (fst (fst (match retryLoop (retryAttempts cfg) 1 op name k cfg None w0 with
                          | (w1, inl result, n) => (w1, Returned result, n)
                          | (w1, inr lastError, n) =>
                              (logCriticalAction
                                 (mkCritical "system" "operation_failed_all_retries") w1,
                               Thrown lastError, n)
                          end))) !! k = Some b ->
             state b <> HALF_OPEN /\ (state b = CLOSED -> failures b < maxFailures cfg)).
  { intros w0 Hb.
    pose proof (retryLoop_settled k name cfg op Hmf (retryAttempts cfg) 1 None w0
                  (or_intror Hr)) as Hs.
    destruct (retryLoop (retryAttempts cfg) 1 op name k cfg None w0) as [[w1 [v|e]] c];
      simpl in *; rewrite Hb in Hs; exact Hs. }
  destruct (circuitBreakers w !! k) as [b0|] eqn:Hb0; [|apply Hloop].
  destruct (state b0) eqn:Hs0; try apply Hloop.
  destruct (resetTime b0 <? clock w); [apply Hloop|].
  simpl. rewrite Hb0. intros [= <-]. rewrite Hs0. split; discriminate.
Qed.

Section Prefix.
Variables (op : @Operation V) (errs : nat -> JsError) (name k : string) (cfg : Config).

Local Abbreviation failed m attempt w := (afterFailures m attempt op errs name k cfg w).

Local Abbreviation throwing attempt m :=
  (forall i, (attempt <= i < attempt + m)%nat -> outcome (op i) = inr (errs i)).

(** What the wrapper has told the outside: notifications sent and
    critical actions logged. *)
Local Abbreviation quietly w' w :=
  (notifications w' = notifications w /\ criticalLog w' = criticalLog w).

Local Abbreviation announcing w' w :=
  (notifications w'
   = notifications w
     ++ [mkNotification "CRITICAL: Circuit Breaker Opened" "critical" ["email"; "slack"]] /\
   criticalLog w' = criticalLog w ++ [mkCritical "system" "circuit_breaker_opened"]).

Lemma afterFailures_S (m attempt : nat) w :
  failed (S m) attempt w
  = failed m (S attempt)
      (let w2 := recordFailure k (errs attempt) (maxFailures cfg) (resetTimeoutMs cfg)
                   (fst (trackFunction name (op attempt) w)) in
       if (attempt <? retryAttempts cfg)%nat
       then delay (retryDelayMs cfg * Z.of_nat attempt) w2 else w2).
Proof. reflexivity. Qed.

(** A loop whose next [m] attempts throw continues from the world
    [afterFailures] describes. *)
Lemma retryLoop_after_failures :
  forall (m n attempt : nat) (last : option JsError) w,
    throwing attempt m ->
    retryLoop (m + n) attempt op name k cfg last w
    = let '(w4, r, c) :=
        retryLoop n (attempt + m) op name k cfg
          (match m with O => last | S m' => Some (errs (attempt + m')%nat) end)
          (failed m attempt w) in
      (w4, r, (m + c)%nat).
Proof.
  induction m as [|m IH]; intros n attempt last w Hfail.
  - simpl. rewrite Nat.add_0_r.
    destruct (retryLoop n attempt op name k cfg last w) as [[w4 r] c]. reflexivity.
  - change (S m + n)%nat with (S (m + n)).
    rewrite (retryLoop_failed_attempt (m + n) attempt op name k cfg last w (errs attempt))
      by (apply Hfail; lia).
    cbv zeta. rewrite afterFailures_S. cbv zeta.
    rewrite IH by (intros i Hi; apply Hfail; lia).
    replace (S attempt + m)%nat with (attempt + S m)%nat by lia.
    replace (match m with
             | O => Some (errs attempt)
             | S m' => Some (errs (S attempt + m')%nat)
             end) with (Some (errs (attempt + m)%nat))
      by (destruct m; [now rewrite Nat.add_0_r | f_equal; f_equal; lia]).
    match goal with |- context [retryLoop n ?x op name k cfg ?l ?w'] =>
      destruct (retryLoop n x op name k cfg l w') as [[w4 r] c] end.
    reflexivity.
Qed.

(** The first attempt that returns ends the loop. *)
Lemma retryLoop_returns (n attempt : nat) (last : option JsError) w (v : V) :
  outcome (op attempt) = inl v ->
  retryLoop (S n) attempt op name k cfg last w
  = (recordSuccess k (fst (trackFunction name (op attempt) w)), inl v, 1%nat).
Proof.
  intros Hv. simpl.
  pose proof (trackFunction_outcome name (op attempt) w) as Ho.
  destruct (trackFunction name (op attempt) w) as [w1 [v'|e]]; simpl in Ho;
    rewrite Hv in Ho; [|discriminate]. injection Ho as ->. reflexivity.
Qed.

(** A tracked attempt that throws tells the outside nothing. *)
Lemma trackFunction_throws_quietly (attempt : nat) w :
  outcome (op attempt) = inr (errs attempt) ->
  quietly (fst (trackFunction name (op attempt) w)) w.
Proof. intros He. unfold trackFunction. rewrite He. split; reflexivity. Qed.

Lemma pause_quietly (attempt : nat) w :
  quietly (if (attempt <? retryAttempts cfg)%nat
           then delay (retryDelayMs cfg * Z.of_nat attempt) w else w) w.
Proof. destruct (attempt <? retryAttempts cfg)%nat; split; reflexivity. Qed.

Lemma recordFailure_closed_stays (e : JsError) (mf rt : Z) w (f r0 : Z) :
  circuitBreakers w !! k = Some (mkBreaker CLOSED f r0) -> f + 1 < mf ->
  circuitBreakers (recordFailure k e mf rt w) !! k = Some (mkBreaker CLOSED (f + 1) r0) /\
  quietly (recordFailure k e mf rt w) w.
Proof.
  intros Hb Hlt. unfold recordFailure. rewrite Hb. simpl. rewrite Hb. simpl.
  destruct (Z.leb_spec mf (f + 1)); [lia|]. simpl.
  split; [apply lookup_insert_eq|]. split; reflexivity.
Qed.

Lemma recordFailure_closed_announces (e : JsError) (mf rt : Z) w (f r0 : Z) :
  circuitBreakers w !! k = Some (mkBreaker CLOSED f r0) -> mf <= f + 1 ->
  announcing (recordFailure k e mf rt w) w.
Proof.
  intros Hb Hle. unfold recordFailure. rewrite Hb. simpl. rewrite Hb. simpl.
  destruct (Z.leb_spec mf (f + 1)); [|lia]. simpl. split; reflexivity.
Qed.

Lemma recordFailure_half_open_quietly (e : JsError) (mf rt : Z) w (f r0 : Z) :
  circuitBreakers w !! k = Some (mkBreaker HALF_OPEN f r0) ->
  quietly (recordFailure k e mf rt w) w.
Proof.
  intros Hb. unfold recordFailure. rewrite Hb. simpl. rewrite Hb. simpl.
  rewrite andb_false_r. simpl. split; reflexivity.
Qed.

Lemma recordFailure_fresh_outside (e : JsError) (mf rt : Z) w :
  circuitBreakers w !! k = None ->
  if mf <=? 1 then announcing (recordFailure k e mf rt w) w
  else quietly (recordFailure k e mf rt w) w.
Proof.
  intros Hb. unfold recordFailure. rewrite Hb. simpl. rewrite lookup_insert_eq. simpl.
  change (0 + 1) with 1. rewrite andb_true_r.
  destruct (mf <=? 1); simpl; split; reflexivity.
Qed.

(** Once OPEN, attempts that throw change neither the breaker nor what
    the outside has been told. *)
Lemma afterFailures_open (b : Breaker) :
  state b = OPEN ->
  forall (m attempt : nat) w,
    throwing attempt m ->
    circuitBreakers w !! k = Some b ->
    circuitBreakers (failed m attempt w) !! k = Some b /\ quietly (failed m attempt w) w.
Proof.
  intros Hs. induction m as [|m IH]; intros attempt w Hfail Hb; [repeat split; exact Hb|].
  rewrite afterFailures_S. cbv zeta.
  assert (Hb1 : circuitBreakers (fst (trackFunction name (op attempt) w)) !! k = Some b)
    by (rewrite trackFunction_breakers; exact Hb).
  rewrite (recordFailure_open k _ _ _ _ b Hb1 Hs).
  destruct (trackFunction_throws_quietly attempt w ltac:(apply Hfail; lia)) as [Hn1 Hl1].
  set (w1 := fst (trackFunction name (op attempt) w)) in *.
  destruct (pause_quietly attempt w1) as [Hn3 Hl3].
  set (w3 := if (attempt <? retryAttempts cfg)%nat then _ else w1) in *.
  destruct (IH (S attempt) w3) as [Hbm [Hnm Hlm]].
  - intros i Hi. apply Hfail. lia.
  - unfold w3. rewrite breakers_after_pause. exact Hb1.
  - split; [exact Hbm|]. split; congruence.
Qed.

(** From CLOSED with [f] failures, [m] more failures leave the breaker
    CLOSED while [f + m] is below the threshold, and OPEN from the
    failure that reaches it; the opening is announced once. *)
Lemma afterFailures_closed :
  forall (m attempt : nat) w (f r0 : Z),
    throwing attempt m ->
    circuitBreakers w !! k = Some (mkBreaker CLOSED f r0) ->
    (f + Z.of_nat m < maxFailures cfg ->
     circuitBreakers (failed m attempt w) !! k
     = Some (mkBreaker CLOSED (f + Z.of_nat m) r0) /\
     quietly (failed m attempt w) w) /\
    ((1 <= m)%nat -> maxFailures cfg <= f + Z.of_nat m ->
     (exists rt, circuitBreakers (failed m attempt w) !! k
                 = Some (mkBreaker OPEN (Z.max (f + 1) (maxFailures cfg)) rt)) /\
     announcing (failed m attempt w) w).
Proof.
  induction m as [|m IH]; intros attempt w f r0 Hfail Hb.
  - split; [|lia]. intros _. simpl. rewrite Z.add_0_r. repeat split. exact Hb.
  - rewrite afterFailures_S. cbv zeta.
    assert (Hb1 : circuitBreakers (fst (trackFunction name (op attempt) w)) !! k
                  = Some (mkBreaker CLOSED f r0))
      by (rewrite trackFunction_breakers; exact Hb).
    destruct (trackFunction_throws_quietly attempt w ltac:(apply Hfail; lia)) as [Hn1 Hl1].
    set (w1 := fst (trackFunction name (op attempt) w)) in *.
    set (w2 := recordFailure k (errs attempt) (maxFailures cfg) (resetTimeoutMs cfg) w1).
    destruct (pause_quietly attempt w2) as [Hn3 Hl3].
    set (w3 := if (attempt <? retryAttempts cfg)%nat then _ else w2) in *.
    assert (Hb3 : circuitBreakers w3 !! k = circuitBreakers w2 !! k)
      by (unfold w3; rewrite breakers_after_pause; reflexivity).
    assert (Hrest : throwing (S attempt) m) by (intros i Hi; apply Hfail; lia).
    destruct (Z.lt_ge_cases (f + 1) (maxFailures cfg)) as [Hlt|Hge].
    + destruct (recordFailure_closed_stays (errs attempt) (maxFailures cfg)
                  (resetTimeoutMs cfg) w1 f r0 Hb1 Hlt) as [Hc [Hn2 Hl2]].
      fold w2 in Hc, Hn2, Hl2. rewrite <- Hb3 in Hc.
      destruct (IH (S attempt) w3 (f + 1) r0 Hrest Hc) as [IH1 IH2]. split.
      * intros Hm. destruct IH1 as [Hbm [Hnm Hlm]]; [lia|]. split.
        -- rewrite Hbm. do 2 f_equal. lia.
        -- split; congruence.
      * intros _ Hm. destruct m as [|m']; [lia|].
        destruct IH2 as [[rt Hrt] [Hnm Hlm]]; [lia|lia|]. split.
        -- exists rt. rewrite Hrt. do 2 f_equal. lia.
        -- split; congruence.
    + assert (Ho : circuitBreakers w3 !! k
                   = Some (mkBreaker OPEN (f + 1) (clock w1 + resetTimeoutMs cfg))).
      { rewrite Hb3. unfold w2. apply recordFailure_closed_opens with (r0 := r0); assumption. }
      destruct (recordFailure_closed_announces (errs attempt) (maxFailures cfg)
                  (resetTimeoutMs cfg) w1 f r0 Hb1 Hge) as [Hn2 Hl2].
      fold w2 in Hn2, Hl2.
      split; [lia|]. intros _ _.
      destruct (afterFailures_open (mkBreaker OPEN (f + 1) _) eq_refl m (S attempt) w3
                  Hrest Ho) as [Hbm [Hnm Hlm]].
      split.
      * eexists. rewrite Hbm. do 2 f_equal. lia.
      * split; congruence.
Qed.

(** The same from a key that has no breaker yet. *)
Lemma afterFailures_fresh (m attempt : nat) w :
  throwing attempt m ->
  circuitBreakers w !! k = None -> (1 <= m)%nat ->
  (Z.of_nat m < maxFailures cfg ->
   circuitBreakers (failed m attempt w) !! k = Some (mkBreaker CLOSED (Z.of_nat m) 0) /\
   quietly (failed m attempt w) w) /\
  (maxFailures cfg <= Z.of_nat m ->
   (exists rt, circuitBreakers (failed m attempt w) !! k
               = Some (mkBreaker OPEN (Z.max 1 (maxFailures cfg)) rt)) /\
   announcing (failed m attempt w) w).
Proof.
  intros Hfail Hnone Hm. destruct m as [|m]; [lia|].
  rewrite afterFailures_S. cbv zeta.
  assert (Hb1 : circuitBreakers (fst (trackFunction name (op attempt) w)) !! k = None)
    by (rewrite trackFunction_breakers; exact Hnone).
  destruct (trackFunction_throws_quietly attempt w ltac:(apply Hfail; lia)) as [Hn1 Hl1].
  set (w1 := fst (trackFunction name (op attempt) w)) in *.
  set (w2 := recordFailure k (errs attempt) (maxFailures cfg) (resetTimeoutMs cfg) w1).
  destruct (pause_quietly attempt w2) as [Hn3 Hl3].
  set (w3 := if (attempt <? retryAttempts cfg)%nat then _ else w2) in *.
  assert (Hb3 : circuitBreakers w3 !! k = circuitBreakers w2 !! k)
    by (unfold w3; rewrite breakers_after_pause; reflexivity).
  assert (Hrest : throwing (S attempt) m) by (intros i Hi; apply Hfail; lia).
  pose proof (recordFailure_fresh k (errs attempt) (maxFailures cfg) (resetTimeoutMs cfg)
                w1 Hb1) as Hb2.
  pose proof (recordFailure_fresh_outside (errs attempt) (maxFailures cfg)
                (resetTimeoutMs cfg) w1 Hb1) as Hout.
  fold w2 in Hb2, Hout. rewrite <- Hb3 in Hb2.
  destruct (Z.leb_spec (maxFailures cfg) 1) as [Hle|Hgt].
  - destruct Hout as [Hn2 Hl2]. split; [lia|]. intros _.
    destruct (afterFailures_open (mkBreaker OPEN 1 _) eq_refl m (S attempt) w3 Hrest Hb2)
      as [Hbm [Hnm Hlm]].
    split.
    + eexists. rewrite Hbm. do 2 f_equal. lia.
    + split; congruence.
  - destruct Hout as [Hn2 Hl2].
    destruct (afterFailures_closed m (S attempt) w3 1 0 Hrest Hb2) as [H1 H2]. split.
    + intros Hlt. destruct H1 as [Hbm [Hnm Hlm]]; [lia|]. split.
      * rewrite Hbm. do 2 f_equal. lia.
      * split; congruence.
    + intros Hge. destruct H2 as [[rt Hrt] [Hnm Hlm]]; [lia|lia|]. split.
      * exists rt. rewrite Hrt. do 2 f_equal. lia.
      * split; congruence.
Qed.

(** A trial that throws reopens the breaker and tells nobody. *)
Lemma afterFailures_half_open (m attempt : nat) w (f r0 : Z) :
  throwing attempt (S m) ->
  circuitBreakers w !! k = Some (mkBreaker HALF_OPEN f r0) ->
  circuitBreakers (failed (S m) attempt w) !! k
  = Some (mkBreaker OPEN (f + 1) (clock w + elapsed (op attempt) + resetTimeoutMs cfg)) /\
  quietly (failed (S m) attempt w) w.
Proof.
  intros Hfail Hb. rewrite afterFailures_S. cbv zeta.
  assert (Hb1 : circuitBreakers (fst (trackFunction name (op attempt) w)) !! k
                = Some (mkBreaker HALF_OPEN f r0))
    by (rewrite trackFunction_breakers; exact Hb).
  destruct (trackFunction_throws_quietly attempt w ltac:(apply Hfail; lia)) as [Hn1 Hl1].
  pose proof (trackFunction_clock name (op attempt) w) as Hclock.
  set (w1 := fst (trackFunction name (op attempt) w)) in *.
  destruct (recordFailure_half_open_quietly (errs attempt) (maxFailures cfg)
              (resetTimeoutMs cfg) w1 f r0 Hb1) as [Hn2 Hl2].
  pose proof (recordFailure_half_open k (errs attempt) (maxFailures cfg)
                (resetTimeoutMs cfg) w1 f r0 Hb1) as Hb2.
  set (w2 := recordFailure k (errs attempt) (maxFailures cfg) (resetTimeoutMs cfg) w1) in *.
  destruct (pause_quietly attempt w2) as [Hn3 Hl3].
  set (w3 := if (attempt <? retryAttempts cfg)%nat then _ else w2) in *.
  assert (Hb3 : circuitBreakers w3 !! k = circuitBreakers w2 !! k)
    by (unfold w3; rewrite breakers_after_pause; reflexivity).
  rewrite <- Hb3, Hclock in Hb2.
  destruct (afterFailures_open (mkBreaker OPEN (f + 1) _) eq_refl m (S attempt) w3
              ltac:(intros i Hi; apply Hfail; lia) Hb2) as [Hbm [Hnm Hlm]].
  split; [exact Hbm|]. split; congruence.
Qed.

(** Time: every attempt that throws adds its own duration and, while
    there is an attempt left, a pause of [retryDelayMs] times its
    number. *)
Lemma afterFailures_clock :
  forall (m attempt : nat) w,
    (attempt + m <= retryAttempts cfg)%nat ->
    clock (failed m attempt w)
    = clock w
      + foldr (fun i acc => elapsed (op i) + acc) 0 (seq attempt m)
      + retryDelayMs cfg * foldr (fun i acc => Z.of_nat i + acc) 0 (seq attempt m).
Proof.
  induction m as [|m IH]; intros attempt w Hle.
  - simpl. lia.
  - rewrite afterFailures_S. cbv zeta. rewrite IH by lia.
    destruct (Nat.ltb_spec attempt (retryAttempts cfg)); [|lia].
    unfold delay. simpl. rewrite recordFailure_clock, trackFunction_clock. lia.
Qed.

End Prefix.

Lemma sum_of_attempt_numbers (m attempt : nat) :
  2 * foldr (fun i acc => Z.of_nat i + acc) 0 (seq attempt m)
  = Z.of_nat m * (2 * Z.of_nat attempt + Z.of_nat m - 1).
Proof.
  revert attempt. induction m as [|m IH]; intros attempt; [simpl; lia|].
  simpl seq. simpl foldr. specialize (IH (S attempt)). nia.
Qed.

Lemma timeInside_S op (j : nat) :
  timeInside op (S j) = timeInside op j + elapsed (op (S j)).
Proof.
  unfold timeInside. rewrite seq_S, foldr_app. simpl.
  generalize (seq 1 j). intros l. induction l as [|x l IH]; simpl; lia.
Qed.

(** X14.  A call that returns may still leave the breaker OPEN.  On a
    key without a breaker, let attempts [1 .. j-1] throw and attempt [j]
    return [v].  The call returns [v] after exactly [j] invocations.  If
    [j = 1] no breaker is created; if fewer than [maxFailures] attempts
    threw, the breaker is CLOSED with no failures; but if [maxFailures]
    or more threw, the breaker opened during the run and the success
    does not close it: it is OPEN with [max 1 maxFailures] failures. *)
Theorem late_success_leaves_the_breaker_open op (errs : nat -> JsError)
    (name ident : string) cfg w (j : nat) (v : V) :
  circuitBreakers w !! breakerKeyOf name ident = None ->
  (forall i, (1 <= i < j)%nat -> outcome (op i) = inr (errs i)) ->
  outcome (op j) = inl v ->
  (1 <= j <= retryAttempts cfg)%nat ->
  let run := handleAsyncWithCircuitBreaker op name ident cfg w in
  let after := circuitBreakers (fst (fst run)) !! breakerKeyOf name ident in
  snd (fst run) = Returned v /\ snd run = j /\
  (j = 1%nat -> after = None) /\
  ((2 <= j)%nat -> Z.of_nat j - 1 < maxFailures cfg -> after = Some (mkBreaker CLOSED 0 0)) /\
  ((2 <= j)%nat -> maxFailures cfg <= Z.of_nat j - 1 ->
   exists rt, after = Some (mkBreaker OPEN (Z.max 1 (maxFailures cfg)) rt)).
Proof.
  intros Hnone Hfail Hv Hj run after.
  set (k := breakerKeyOf name ident) in *.
  assert (Hpass : isCircuitOpen k w = (w, false)).
  { apply isCircuitOpen_breakers_closed. intros b Hb. congruence. }
  destruct (handle_passes op name ident cfg w w Hpass) as [Hbr [Hc Hr]].
  fold k run in Hbr, Hc, Hr. unfold after. rewrite Hbr, Hc, Hr. clear Hbr Hc Hr.
  assert (Hprefix : forall i, (1 <= i < 1 + (j - 1))%nat -> outcome (op i) = inr (errs i))
    by (intros i Hi; apply Hfail; lia).
  replace (retryAttempts cfg) with ((j - 1) + S (retryAttempts cfg - j))%nat by lia.
  rewrite (retryLoop_after_failures op errs name k cfg (j - 1) _ 1 None w Hprefix).
  replace (1 + (j - 1))%nat with j by lia.
  rewrite (retryLoop_returns op name k cfg _ j _ _ v Hv). simpl fst; simpl snd.
  split; [reflexivity|]. split; [lia|].
  set (wm := afterFailures (j - 1) 1 op errs name k cfg w).
  assert (Hsucc : forall ob,
             circuitBreakers wm !! k = ob ->
             circuitBreakers (recordSuccess k (fst (trackFunction name (op j) wm))) !! k
             = match ob with
               | None => None
               | Some b =>
                   match state b with
                   | HALF_OPEN => Some (mkBreaker CLOSED 0 0)
                   | CLOSED => Some (mkBreaker CLOSED 0 (resetTime b))
                   | OPEN => Some b
                   end
               end).
  { intros ob Hob.
    assert (Hb1 : circuitBreakers (fst (trackFunction name (op j) wm)) !! k = ob)
      by (rewrite trackFunction_breakers; exact Hob).
    unfold recordSuccess. rewrite Hb1. destruct ob as [b|]; [|exact Hb1].
    destruct (state b); simpl; [apply lookup_insert_eq | exact Hb1 | apply lookup_insert_eq]. }
  split; [|split].
  - intros ->. rewrite (Hsucc None); [reflexivity|exact Hnone].
  - intros H2 Hlt.
    destruct (afterFailures_fresh op errs name k cfg (j - 1) 1 w Hprefix Hnone ltac:(lia))
      as [Hc _].
    destruct Hc as [Hc _]; [lia|]. rewrite (Hsucc _ Hc). reflexivity.
  - intros H2 Hge.
    destruct (afterFailures_fresh op errs name k cfg (j - 1) 1 w Hprefix Hnone ltac:(lia))
      as [_ Ho].
    destruct Ho as [[rt Hrt] _]; [lia|]. exists rt. rewrite (Hsucc _ Hrt). reflexivity.
Qed.

(** X15.  Back-off is linear and there is none after the last attempt.
    A run that gets past the breaker and ends at attempt [j], because
    that attempt returns or because it is the last one allowed, takes
    the time spent inside the [j] invocations plus [retryDelayMs] times
    [1 + 2 + ... + (j - 1)]; with the defaults a run of three failures
    waits 3000 ms in all. *)
Theorem a_run_takes_its_work_plus_linear_backoff op (errs : nat -> JsError)
    (name ident : string) cfg w (j : nat) :
  snd (isCircuitOpen (breakerKeyOf name ident) w) = false ->
  (forall i, (1 <= i < j)%nat -> outcome (op i) = inr (errs i)) ->
  (1 <= j <= retryAttempts cfg)%nat ->
  (exists v, outcome (op j) = inl v) \/
  (j = retryAttempts cfg /\ outcome (op j) = inr (errs j)) ->
  clock (fst (fst (handleAsyncWithCircuitBreaker op name ident cfg w)))
  = clock w + timeInside op j
    + retryDelayMs cfg * (Z.of_nat j * (Z.of_nat j - 1) / 2).
Proof.
  intros Hpass Hfail Hj Hend.
  set (k := breakerKeyOf name ident) in *.
  pose proof (isCircuitOpen_clock k w) as Hclock0.
  destruct (isCircuitOpen k w) as [w0 o] eqn:Ho. simpl in Hpass, Hclock0. subst o.
  assert (Hprefix : forall i, (1 <= i < 1 + (j - 1))%nat -> outcome (op i) = inr (errs i))
    by (intros i Hi; apply Hfail; lia).
  pose proof (afterFailures_clock op errs name k cfg (j - 1) 1 w0 ltac:(lia)) as Hclock.
  pose proof (sum_of_attempt_numbers (j - 1) 1) as Hsum.
  set (pauses := foldr (fun i acc => Z.of_nat i + acc) 0 (seq 1 (j - 1))) in *.
  assert (Hpauses : Z.of_nat j * (Z.of_nat j - 1) / 2 = pauses).
  { symmetry. apply Z.div_unique_exact; [lia|]. rewrite Hsum. nia. }
  assert (Hwork : timeInside op j
                  = foldr (fun i acc => elapsed (op i) + acc) 0 (seq 1 (j - 1))
                    + elapsed (op j)).
  { replace j with (S (j - 1)) at 1 3 by lia. apply timeInside_S. }
  rewrite Hpauses, Hwork, <- Hclock0.
  set (wm := afterFailures (j - 1) 1 op errs name k cfg w0) in *.
  unfold handleAsyncWithCircuitBreaker. fold k. rewrite Ho.
  replace (retryAttempts cfg) with ((j - 1) + S (retryAttempts cfg - j))%nat at 1 by lia.
  rewrite (retryLoop_after_failures op errs name k cfg (j - 1) _ 1 None w0 Hprefix).
  replace (1 + (j - 1))%nat with j by lia. fold wm.
  destruct Hend as [[v Hv]|[Hlast He]].
  - rewrite (retryLoop_returns op name k cfg _ j _ _ v Hv). simpl.
    rewrite recordSuccess_clock, trackFunction_clock. lia.
  - replace (retryAttempts cfg - j)%nat with 0%nat by lia.
    rewrite (retryLoop_failed_attempt 0 j op name k cfg _ wm _ He). cbv zeta.
    destruct (Nat.ltb_spec j (retryAttempts cfg)); [lia|]. simpl.
    rewrite recordFailure_clock, trackFunction_clock. lia.
Qed.

(** X16.  Opening is announced once; reopening is silent.  In a run
    whose attempts all throw: on a key without a breaker, the admin
    notification and the [circuit_breaker_opened] log entry are written
    exactly once if the run reaches [maxFailures] and not at all
    otherwise, however many attempts follow the opening; when the run is
    the trial after the reset instant, the breaker goes back to OPEN
    with a new reset instant and one more failure, and neither a
    notification nor a [circuit_breaker_opened] entry is written. *)
Theorem opening_is_announced_once_reopening_never op (errs : nat -> JsError)
    (name ident : string) cfg w :
  (forall i, outcome (op i) = inr (errs i)) ->
  (1 <= retryAttempts cfg)%nat ->
  let k := breakerKeyOf name ident in
  let w' := fst (fst (handleAsyncWithCircuitBreaker op name ident cfg w)) in
  let opened := mkCritical "system" "circuit_breaker_opened" in
  let gaveUp := mkCritical "system" "operation_failed_all_retries" in
  let alert := mkNotification "CRITICAL: Circuit Breaker Opened" "critical"
                 ["email"; "slack"] in
  (circuitBreakers w !! k = None ->
   if maxFailures cfg <=? Z.of_nat (retryAttempts cfg)
   then notifications w' = notifications w ++ [alert] /\
        criticalLog w' = criticalLog w ++ [opened; gaveUp]
   else notifications w' = notifications w /\
        criticalLog w' = criticalLog w ++ [gaveUp]) /\
  (forall b, circuitBreakers w !! k = Some b -> state b = OPEN -> resetTime b < clock w ->
   circuitBreakers w' !! k
   = Some (mkBreaker OPEN (failures b + 1)
             (clock w + elapsed (op 1%nat) + resetTimeoutMs cfg)) /\
   notifications w' = notifications w /\
   criticalLog w' = criticalLog w ++ [gaveUp]).
Proof.
  intros Hfail Hr k w' opened gaveUp alert.
  assert (Hthrow : forall s m i : nat, (s <= i < s + m)%nat -> outcome (op i) = inr (errs i))
    by (intros; apply Hfail).
  assert (Hrun : forall w0,
             isCircuitOpen k w = (w0, false) ->
             w' = logCriticalAction gaveUp
                    (afterFailures (retryAttempts cfg) 1 op errs name k cfg w0)).
  { intros w0 Ho. unfold w', handleAsyncWithCircuitBreaker. fold k. rewrite Ho.
    replace (retryAttempts cfg) with (retryAttempts cfg + 0)%nat at 1 by lia.
    rewrite (retryLoop_after_failures op errs name k cfg (retryAttempts cfg) 0 1 None w0
               (Hthrow 1%nat (retryAttempts cfg))).
    simpl. destruct (retryAttempts cfg); reflexivity. }
  split.
  - intros Hnone.
    assert (Hpass : isCircuitOpen k w = (w, false)).
    { apply isCircuitOpen_breakers_closed. intros b Hb. congruence. }
    rewrite (Hrun w Hpass).
    destruct (afterFailures_fresh op errs name k cfg (retryAttempts cfg) 1 w
                (Hthrow 1%nat (retryAttempts cfg)) Hnone Hr) as [Hclosed Hopened].
    destruct (Z.leb_spec (maxFailures cfg) (Z.of_nat (retryAttempts cfg))) as [Hle|Hgt].
    + destruct (Hopened Hle) as [_ [Hn Hl]]. simpl. rewrite Hn, Hl, <- app_assoc.
      split; reflexivity.
    + destruct (Hclosed Hgt) as [_ [Hn Hl]]. simpl. rewrite Hn, Hl. split; reflexivity.
  - intros b Hb Hs Ht.
    set (wh := setBreaker k (mkBreaker HALF_OPEN (failures b) (resetTime b)) w).
    assert (Hpass : isCircuitOpen k w = (wh, false)).
    { unfold isCircuitOpen. rewrite Hb, Hs.
      destruct (Z.ltb_spec (resetTime b) (clock w)); [reflexivity|lia]. }
    rewrite (Hrun wh Hpass).
    assert (Hh : circuitBreakers wh !! k
                 = Some (mkBreaker HALF_OPEN (failures b) (resetTime b)))
      by apply lookup_insert_eq.
    destruct (retryAttempts cfg) as [|m] eqn:Hm; [lia|].
    destruct (afterFailures_half_open op errs name k cfg m 1 wh (failures b) (resetTime b)
                (Hthrow 1%nat (S m)) Hh) as [Hbm [Hn Hl]].
    rewrite <- Hm in *. simpl. rewrite Hn, Hl. split; [exact Hbm|]. split; reflexivity.
Qed.

End BreakerRuns.

Lemma error_log_keeps_the_latest_witness :
  let history := repeat (7, mkError Transient "store unavailable") 60 in
  let log :=
    default []
      (CircuitBreakerErrorHandler.errorPatterns
         (CircuitBreakerErrorHandler.recordErrorPatterns "dispatch_vendorA" history
            (CircuitBreakerErrorHandler.emptyWorld 0)) !! "dispatch_vendorA") in
  (length log <= 50)%nat /\
  (Nat.min (length history) 25 <= length log)%nat /\
  exists older, map CircuitBreakerErrorHandler.patternOf history = older ++ log.
Proof.
  intros history.
  apply (error_log_keeps_the_latest "dispatch_vendorA" history
           (CircuitBreakerErrorHandler.emptyWorld 0)).
  reflexivity.
Defined.

Lemma breakers_are_isolated_by_key_witness :
  let failing : @CircuitBreakerErrorHandler.Operation Z :=
    fun _ => CircuitBreakerErrorHandler.mkAttempt 7 0 (inr (mkError Transient "down")) in
  let w :=
    CircuitBreakerErrorHandler.setBreaker "payment_vendorB"
      (CircuitBreakerErrorHandler.mkBreaker CircuitBreakerErrorHandler.CLOSED 4 0)
      (CircuitBreakerErrorHandler.emptyWorld 0) in
  CircuitBreakerErrorHandler.circuitBreakers
    (fst (fst (CircuitBreakerErrorHandler.handleAsyncWithCircuitBreaker failing
                 "dispatch" "vendorA" CircuitBreakerErrorHandler.defaultConfig w)))
    !! "payment_vendorB"
  = Some (CircuitBreakerErrorHandler.mkBreaker CircuitBreakerErrorHandler.CLOSED 4 0).
Proof.
  intros failing w.
  destruct (breakers_are_isolated_by_key failing "dispatch" "vendorA"
              CircuitBreakerErrorHandler.defaultConfig w "payment_vendorB")
    as [Hsame _].
  - vm_compute. discriminate.
  - rewrite Hsame. reflexivity.
Defined.

Lemma half_open_never_outlives_a_call_witness :
  let failing : @CircuitBreakerErrorHandler.Operation Z :=
    fun _ => CircuitBreakerErrorHandler.mkAttempt 7 0 (inr (mkError Transient "down")) in
  let w :=
    CircuitBreakerErrorHandler.setBreaker "dispatch_vendorA"
      (CircuitBreakerErrorHandler.mkBreaker CircuitBreakerErrorHandler.OPEN 5 100)
      (CircuitBreakerErrorHandler.emptyWorld 101) in
  let b := CircuitBreakerErrorHandler.mkBreaker CircuitBreakerErrorHandler.OPEN 6 30108 in
  CircuitBreakerErrorHandler.state b <> CircuitBreakerErrorHandler.HALF_OPEN /\
  (CircuitBreakerErrorHandler.state b = CircuitBreakerErrorHandler.CLOSED ->
   CircuitBreakerErrorHandler.failures b < 5).
Proof.
  intros failing w b.
  apply (half_open_never_outlives_a_call failing "dispatch" "vendorA"
           CircuitBreakerErrorHandler.defaultConfig w b).
  - simpl. lia.
  - simpl. lia.
  - vm_compute. reflexivity.
Defined.

(** Two failures, then a success, with a threshold of two. *)
Lemma late_success_leaves_the_breaker_open_witness :
  let flaky : @CircuitBreakerErrorHandler.Operation Z :=
    fun i => CircuitBreakerErrorHandler.mkAttempt 7 0
               (if (i <? 3)%nat then inr (mkError Transient "down") else inl 42) in
  let cfg := CircuitBreakerErrorHandler.mkConfig 2 30000 3 1000 in
  let run := CircuitBreakerErrorHandler.handleAsyncWithCircuitBreaker flaky
               "dispatch" "vendorA" cfg (CircuitBreakerErrorHandler.emptyWorld 0) in
  snd (fst run) = CircuitBreakerErrorHandler.Returned 42 /\
  exists rt,
    CircuitBreakerErrorHandler.circuitBreakers (fst (fst run)) !! "dispatch_vendorA"
    = Some (CircuitBreakerErrorHandler.mkBreaker CircuitBreakerErrorHandler.OPEN 2 rt).
Proof.
  intros flaky cfg run.
  destruct (late_success_leaves_the_breaker_open flaky (fun _ => mkError Transient "down")
              "dispatch" "vendorA" cfg (CircuitBreakerErrorHandler.emptyWorld 0) 3 42)
    as [Hret [_ [_ [_ Hopen]]]].
  - reflexivity.
  - intros i Hi. destruct i as [|[|[|i]]]; [lia|reflexivity|reflexivity|lia].
  - reflexivity.
  - simpl. lia.
  - split; [exact Hret|]. apply Hopen; simpl; lia.
Defined.

(** The defaults: three attempts of 7 ms each that all throw. *)
Lemma a_run_takes_its_work_plus_linear_backoff_witness :
  let failing : @CircuitBreakerErrorHandler.Operation Z :=
    fun _ => CircuitBreakerErrorHandler.mkAttempt 7 0 (inr (mkError Transient "down")) in
  CircuitBreakerErrorHandler.clock
    (fst (fst (CircuitBreakerErrorHandler.handleAsyncWithCircuitBreaker failing
                 "dispatch" "vendorA" CircuitBreakerErrorHandler.defaultConfig
                 (CircuitBreakerErrorHandler.emptyWorld 0))))
  = 0 + 21 + 1000 * 3.
Proof.
  intros failing.
  apply (a_run_takes_its_work_plus_linear_backoff failing (fun _ => mkError Transient "down")
           "dispatch" "vendorA" CircuitBreakerErrorHandler.defaultConfig
           (CircuitBreakerErrorHandler.emptyWorld 0) 3).
  - reflexivity.
  - intros i _. reflexivity.
  - simpl. lia.
  - right. split; reflexivity.
Defined.

Lemma opening_is_announced_once_reopening_never_witness :
  let failing : @CircuitBreakerErrorHandler.Operation Z :=
    fun _ => CircuitBreakerErrorHandler.mkAttempt 7 0 (inr (mkError Transient "down")) in
  let cfg := CircuitBreakerErrorHandler.mkConfig 2 30000 3 1000 in
  let w' := fst (fst (CircuitBreakerErrorHandler.handleAsyncWithCircuitBreaker failing
                        "dispatch" "vendorA" cfg (CircuitBreakerErrorHandler.emptyWorld 0))) in
  length (CircuitBreakerErrorHandler.notifications w') = 1%nat /\
  CircuitBreakerErrorHandler.criticalLog w'
  = [mkCritical "system" "circuit_breaker_opened";
     mkCritical "system" "operation_failed_all_retries"].
Proof.
  intros failing cfg w'.
  destruct (opening_is_announced_once_reopening_never failing
              (fun _ => mkError Transient "down") "dispatch" "vendorA" cfg
              (CircuitBreakerErrorHandler.emptyWorld 0))
    as [Hfresh _].
  - intros i. reflexivity.
  - simpl. lia.
  - destruct (Hfresh eq_refl) as [Hn Hl]. fold w' in Hn, Hl.
    rewrite Hn, Hl. split; reflexivity.
Defined.

(** ** Caches *)

Section Invalidation.
Import CacheManager.
Context {T : Type}.
Implicit Types (cache : gmap string (@CacheEntry T)).

(** X17.  [invalidate(pattern)] removes exactly the keys that contain
    the pattern: afterwards a lookup of such a key misses, whatever its
    TTL, and a lookup of any other key answers as before.  Every key
    contains the empty string, so [invalidate('')] empties the cache. *)
Theorem invalidate_drops_the_matching_keys (now : Z) (pattern key : string) cache :
  get now key (invalidate pattern cache)
  = (if Js.includes pattern key then None else get now key cache) /\
  invalidate "" cache = ∅.
Proof.
  split.
  - unfold get, invalidate.
    destruct (Js.includes pattern key) eqn:Hinc.
    + rewrite map_lookup_filter_None_2; [reflexivity|].
      right. intros x _. simpl. congruence.
    + destruct (cache !! key) as [c|] eqn:Hc.
      * rewrite (map_lookup_filter_Some_2 _ _ key c Hc Hinc). reflexivity.
      * rewrite map_lookup_filter_None_2; [reflexivity|]. left. exact Hc.
  - unfold invalidate. apply map_empty. intros k.
    apply map_lookup_filter_None_2. right. intros x _. simpl.
    destruct k; discriminate.
Qed.

End Invalidation.

Section SmartCache.
Import AdvancedCacheManager.
Context {T : Type}.
Implicit Types (s : @Store T) (st : State).














Lemma hitRates_recordAccess (now : Z) (key : string) st :
  hitRates (recordAccess now key st) = hitRates st.
Proof. reflexivity. Qed.

(** The counters of a key after one call. *)
Lemma getWithSmartTTL_counters (now : Z) (key : string) (fallback : option T * Z)
    (base : float) s (k : string) :
  let '(s1, _, loaded) := getWithSmartTTL now key fallback base s in
  hitRates (stats s1) !! k
  = if String.eqb key k
    then let hr := default (mkHitRate 0 0) (hitRates (stats s) !! k) in
         Some (mkHitRate (if loaded then hits hr else hits hr + 1) (total hr + 1))
    else hitRates (stats s) !! k.
Proof.
  unfold getWithSmartTTL.
  destruct (super_get now key (cache s)) as [cached|]; [|destruct fallback as [d t]];
    simpl; destruct (String.eqb_spec key k) as [->|Hne];
    rewrite ?lookup_insert_eq, ?lookup_insert_ne by exact Hne; reflexivity.
Qed.

Lemma loads_le_calls (k : string) (served : list (string * bool)) :
  0 <= loadsFor k served <= callsFor k served.
Proof.
  unfold loadsFor, callsFor. induction served as [|[k' b] served IH]; [simpl; lia|].
  cbn [List.filter fst snd]. destruct (String.eqb k' k), b; cbn [andb length]; lia.
Qed.

Lemma serve_counters (requests : list (@Request T)) (k : string) :
  forall s,
    let served := snd (serve requests s) in
    let hr := default (mkHitRate 0 0) (hitRates (stats s) !! k) in
    hitRates (stats (fst (serve requests s))) !! k
    = if callsFor k served =? 0 then hitRates (stats s) !! k
      else Some (mkHitRate (hits hr + callsFor k served - loadsFor k served)
                           (total hr + callsFor k served)).
Proof.
  induction requests as [|r rest IH]; intros s; [reflexivity|].
  cbn [serve].
  pose proof (getWithSmartTTL_counters (issuedAt r) (requestKey r) (loader r)
                (requestBase r) s k) as Hone.
  destruct (getWithSmartTTL (issuedAt r) (requestKey r) (loader r) (requestBase r) s)
    as [[s1 v] loaded].
  specialize (IH s1). destruct (serve rest s1) as [s2 served]. cbn [fst snd] in *.
  rewrite IH, Hone. clear IH Hone.
  pose proof (loads_le_calls k served) as Hle.
  unfold callsFor, loadsFor in *. cbn [List.filter fst snd].
  destruct (String.eqb (requestKey r) k); [|reflexivity].
  destruct loaded; cbn [andb length default hits total].
  all: set (c := length (List.filter (fun c => String.eqb (fst c) k) served)) in *.
  all: set (l := length (List.filter (fun c => String.eqb (fst c) k && snd c) served)) in *.
  all: destruct (Z.eqb_spec (Z.of_nat (S c)) 0) as [Habs|_]; [lia|].
  all: destruct (Z.eqb_spec (Z.of_nat c) 0) as [Hc|Hc]; unfold id; cbn [hits total];
    f_equal; f_equal; lia.
Qed.

Lemma getWithSmartTTL_other_key (now : Z) (key : string) (fallback : option T * Z)
    (base : float) s (k : string) :
  key <> k ->
  cache (fst (fst (getWithSmartTTL now key fallback base s))) !! k = cache s !! k.
Proof.
  intros Hne. unfold getWithSmartTTL.
  destruct (super_get now key (cache s)) as [cached|]; [reflexivity|].
  destruct fallback as [d t]. simpl. unfold super_set. apply lookup_insert_ne. exact Hne.
Qed.

Lemma getWithSmartTTL_absent (now : Z) (key : string) (fallback : option T * Z)
    (base : float) s :
  cache s !! key = None ->
  snd (getWithSmartTTL now key fallback base s) = true.
Proof.
  intros Hnone. unfold getWithSmartTTL, super_get. rewrite Hnone.
  destruct fallback as [d t]. reflexivity.
Qed.

Lemma first_call_loads (requests : list (@Request T)) (k : string) :
  forall s, cache s !! k = None ->
    0 < callsFor k (snd (serve requests s)) -> 1 <= loadsFor k (snd (serve requests s)).
Proof.
  induction requests as [|r rest IH]; intros s Hnone; [unfold callsFor; simpl; lia|].
  cbn [serve].
  pose proof (getWithSmartTTL_other_key (issuedAt r) (requestKey r) (loader r)
                (requestBase r) s k) as Hother.
  pose proof (getWithSmartTTL_absent (issuedAt r) (requestKey r) (loader r)
                (requestBase r) s) as Habsent.
  destruct (getWithSmartTTL (issuedAt r) (requestKey r) (loader r) (requestBase r) s)
    as [[s1 v] loaded].
  specialize (IH s1). pose proof (loads_le_calls k (snd (serve rest s1))) as Hle.
  destruct (serve rest s1) as [s2 served]. cbn [fst snd] in *.
  unfold callsFor, loadsFor in *. cbn [List.filter fst snd].
  destruct (String.eqb_spec (requestKey r) k) as [Heq|Hne].
  - rewrite Heq in Habsent. rewrite (Habsent Hnone). cbn [andb length]. lia.
  - cbn [andb]. apply IH. rewrite (Hother Hne). exact Hnone.
Qed.

(** X19.  The hit counters account for every call.  After any sequence
    of [getWithSmartTTL] calls on a store that has no counters for a
    key, [total] is the number of calls made for the key and [hits] is
    that number less the calls whose loader ran; no counter exists
    before the first call.  If the key was not cached to begin with,
    the first call loads, so [hits] stays below [total]. *)
Theorem hit_counters_account_for_every_call (requests : list (@Request T))
    (key : string) s :
  hitRates (stats s) !! key = None ->
  let served := snd (serve requests s) in
  let calls := callsFor key served in
  let loads := loadsFor key served in
  0 <= loads <= calls /\
  hitRates (stats (fst (serve requests s))) !! key
  = (if calls =? 0 then None else Some (mkHitRate (calls - loads) calls)) /\
  (cache s !! key = None -> 0 < calls -> 1 <= loads).
Proof.
  intros Hnone served calls loads.
  split; [apply loads_le_calls|]. split.
  - pose proof (serve_counters requests key s) as Hc. cbv zeta in Hc.
    rewrite Hc, Hnone. fold served calls loads. cbn [default hits total].
    destruct (calls =? 0); [reflexivity|]. do 2 f_equal.
  - apply first_call_loads.
Qed.

(** X20.  The TTL runs from the moment the loader resolved and a hit
    does not extend it; a loaded [null] is stored but never served.
    After a call that missed and stored what the loader resolved to at
    [resolvedAt], a second call for the key at [t2] is answered with
    that value, without its loader, exactly when [t2 - resolvedAt] is
    below the stored TTL and the value is not [null], and then the
    cache entry is left as it was; otherwise, so also within the TTL of
    a stored [null], the second call loads again. *)
Theorem a_loaded_value_is_served_until_its_ttl_passes (now resolvedAt t2 : Z)
    (key : string) (d : option T) (other : option T * Z) (base base2 : float) s :
  super_get now key (cache s) = None ->
  let first := getWithSmartTTL now key (d, resolvedAt) base s in
  let s1 := fst (fst first) in
  let second := getWithSmartTTL t2 key other base2 s1 in
  let ttlMs :=
    PrimFloat.mul
      (PrimFloat.mul
         (calculateOptimalTTL resolvedAt key base
            (recordMiss key (recordAccess now key (stats s)))) 60) 1000 in
  first = (s1, d, true) /\
  cache s1 !! key = Some (mkEntry d resolvedAt ttlMs) /\
  if PrimFloat.ltb (Js.of_Z (t2 - resolvedAt)) ttlMs
     && match d with Some _ => true | None => false end
  then snd (fst second) = d /\ snd second = false /\ cache (fst (fst second)) = cache s1
  else snd (fst second) = fst other /\ snd second = true.
Proof.
  intros Hmiss first s1 second ttlMs.
  assert (Hfirst : first
                   = (mkStore (super_set resolvedAt key d
                                 (calculateOptimalTTL resolvedAt key base
                                    (recordMiss key (recordAccess now key (stats s))))
                                 (cache s))
                        (recordMiss key (recordAccess now key (stats s))), d, true)).
  { unfold first, getWithSmartTTL. rewrite Hmiss. reflexivity. }
  assert (Hs1 : cache s1 !! key = Some (mkEntry d resolvedAt ttlMs)).
  { unfold s1. rewrite Hfirst. simpl. unfold super_set. apply lookup_insert_eq. }
  split; [|split; [exact Hs1|]].
  - unfold s1. rewrite Hfirst. reflexivity.
  - unfold second, getWithSmartTTL, super_get. rewrite Hs1. cbn [timestamp ttl data].
    destruct (PrimFloat.ltb (Js.of_Z (t2 - resolvedAt)) ttlMs), d as [v|];
      cbn [andb]; try (destruct other as [d2 t']); repeat split.
Qed.

End SmartCache.


(** Three calls for one key within the TTL and one for another key. *)
Lemma hit_counters_account_for_every_call_witness :
  let requests :=
    [ AdvancedCacheManager.mkRequest 0 "driver_config" (Some 7, 10) 60%float;
      AdvancedCacheManager.mkRequest 20 "driver_config" (Some 8, 30) 60%float;
      AdvancedCacheManager.mkRequest 40 "zone_data_main" (Some 9, 50) 30%float;
      AdvancedCacheManager.mkRequest 60 "driver_config" (Some 8, 70) 60%float ] in
  let s := AdvancedCacheManager.mkStore (∅ : gmap string (@AdvancedCacheManager.Entry Z))
             (AdvancedCacheManager.mkState ∅ ∅) in
  AdvancedCacheManager.hitRates
    (AdvancedCacheManager.stats (fst (AdvancedCacheManager.serve requests s)))
    !! "driver_config"
  = Some (AdvancedCacheManager.mkHitRate 2 3).
Proof.
  intros requests s.
  destruct (hit_counters_account_for_every_call requests "driver_config" s)
    as [_ [Hcount _]].
  - reflexivity.
  - rewrite Hcount. vm_compute. reflexivity.
Defined.

(** A base TTL of two minutes on a fresh key.  A value loaded at 10 ms
    is served 119 999 ms later without the loader; a [null] loaded at
    10 ms is stored, and a call at 20 ms runs its loader again. *)
Lemma a_loaded_value_is_served_until_its_ttl_passes_witness :
  let s := AdvancedCacheManager.mkStore (∅ : gmap string (@AdvancedCacheManager.Entry Z))
             (AdvancedCacheManager.mkState ∅ ∅) in
  let first := AdvancedCacheManager.getWithSmartTTL 0 "drivers_zoneA" (Some 7, 10) 2%float s in
  let second :=
    AdvancedCacheManager.getWithSmartTTL 120009 "drivers_zoneA" (Some 8, 120020) 2%float
      (fst (fst first)) in
  let firstNull := AdvancedCacheManager.getWithSmartTTL 0 "drivers_zoneA" (None, 10) 2%float s in
  let secondNull :=
    AdvancedCacheManager.getWithSmartTTL 20 "drivers_zoneA" (Some 8, 30) 2%float
      (fst (fst firstNull)) in
  (snd (fst second) = Some 7 /\ snd second = false) /\
  (AdvancedCacheManager.data <$> AdvancedCacheManager.cache (fst (fst firstNull))
                                 !! "drivers_zoneA" = Some None /\
   snd (fst secondNull) = Some 8 /\ snd secondNull = true).
Proof.
  intros s first second firstNull secondNull. split.
  - destruct (a_loaded_value_is_served_until_its_ttl_passes 0 10 120009 "drivers_zoneA"
                (Some 7) (Some 8, 120020) 2%float 2%float s)
      as [_ [_ Hsecond]].
    + reflexivity.
    + fold first second in Hsecond.
      destruct Hsecond as [Hv [Hl _]]. split; assumption.
  - destruct (a_loaded_value_is_served_until_its_ttl_passes 0 10 20 "drivers_zoneA"
                None (Some 8, 30) 2%float 2%float s)
      as [_ [Hentry Hsecond]].
    + reflexivity.
    + fold firstNull secondNull in Hentry, Hsecond.
      split; [rewrite Hentry; reflexivity|exact Hsecond].
Defined.


(** ** Threat meter: bands and counters *)

Section ThreatBands.
Import EnhancedSecurityMonitoring.

Lemma both_booleans (f : bool -> bool) :
  forallb f [true; false] = true -> forall b, f b = true.
Proof.
  simpl. intros H b.
  destruct (f true) eqn:Ht, (f false) eqn:Hf; try discriminate.
  destruct b; assumption.
Qed.

(** The four partial scores for every combination of signals; [ai] is
    what [checkBehaviorPatterns] answers. *)
Lemma score_range_by_cases (b1 b2 b3 b4 n1 n2 n3 n4 t1 t2 a1 a2 : bool) (ai : float) :
  In ai [0%float; 10%float; 15%float; 25%float; 40%float] ->
  let score :=
    PrimFloat.add
      (PrimFloat.add
         (PrimFloat.add
            (PrimFloat.add 0%float
               (addIf b1 25 (addIf b2 15 (addIf b3 30 (addIf b4 20 0%float)))))
            (addIf n1 35 (addIf n2 10 (addIf n3 60 (addIf n4 40 0%float)))))
         (addIf t1 25 (addIf t2 15 0%float)))
      (addIf a1 30 (addIf a2 40 (PrimFloat.add 0%float (PrimFloat.mul ai 0.8%float)))) in
  PrimFloat.leb 0%float (Js.Math_min score 100%float)
  && PrimFloat.leb (Js.Math_min score 100%float) 100%float = true.
Proof.
  intros Hai. cbv zeta.
  assert (Hall :
    forallb (fun ai =>
    forallb (fun b1 => forallb (fun b2 => forallb (fun b3 => forallb (fun b4 =>
    forallb (fun n1 => forallb (fun n2 => forallb (fun n3 => forallb (fun n4 =>
    forallb (fun t1 => forallb (fun t2 => forallb (fun a1 => forallb (fun a2 =>
      let score :=
        PrimFloat.add
          (PrimFloat.add
             (PrimFloat.add
                (PrimFloat.add 0%float
                   (addIf b1 25 (addIf b2 15 (addIf b3 30 (addIf b4 20 0%float)))))
                (addIf n1 35 (addIf n2 10 (addIf n3 60 (addIf n4 40 0%float)))))
             (addIf t1 25 (addIf t2 15 0%float)))
          (addIf a1 30 (addIf a2 40 (PrimFloat.add 0%float (PrimFloat.mul ai 0.8%float)))) in
      PrimFloat.leb 0%float (Js.Math_min score 100%float)
      && PrimFloat.leb (Js.Math_min score 100%float) 100%float)
    [true; false]) [true; false]) [true; false]) [true; false]) [true; false])
    [true; false]) [true; false]) [true; false]) [true; false]) [true; false])
    [true; false]) [true; false])
    [0%float; 10%float; 15%float; 25%float; 40%float] = true)
    by (vm_compute; reflexivity).
  rewrite forallb_forall in Hall. specialize (Hall ai Hai).
  pose proof (both_booleans _ Hall b1) as H1. cbv beta in H1.
  pose proof (both_booleans _ H1 b2) as H2. cbv beta in H2.
  pose proof (both_booleans _ H2 b3) as H3. cbv beta in H3.
  pose proof (both_booleans _ H3 b4) as H4. cbv beta in H4.
  pose proof (both_booleans _ H4 n1) as H5. cbv beta in H5.
  pose proof (both_booleans _ H5 n2) as H6. cbv beta in H6.
  pose proof (both_booleans _ H6 n3) as H7. cbv beta in H7.
  pose proof (both_booleans _ H7 n4) as H8. cbv beta in H8.
  pose proof (both_booleans _ H8 t1) as H9. cbv beta in H9.
  pose proof (both_booleans _ H9 t2) as H10. cbv beta in H10.
  pose proof (both_booleans _ H10 a1) as H11. cbv beta in H11.
  pose proof (both_booleans _ H11 a2) as H12. cbv beta in H12.
  exact H12.
Qed.

Lemma checkBehaviorPatterns_values (env : Environment) (activity : string) :
  In (checkBehaviorPatterns env activity)
     [0%float; 10%float; 15%float; 25%float; 40%float].
Proof.
  unfold checkBehaviorPatterns.
  destruct (behaviorSnapshot env) as [| |activities activeHours]; simpl; auto.
  destruct (negb _), (_ && _); vm_compute; auto 6.
Qed.

(** X21.  The threat score is always a number between 0 and 100,
    whatever the signals, the network sets, the hour, the stored
    behaviour snapshot and the activity history: the partial scores can
    add up to 377, and the cap brings every sum above 100 down to it. *)
Theorem threat_score_is_between_0_and_100 (env : Environment) (userId activity : string)
    (contextData : ContextData) (st : State) :
  let score := snd (detectAdvancedThreats env userId activity contextData st) in
  PrimFloat.leb 0%float score = true /\ PrimFloat.leb score 100%float = true.
Proof.
  cbv zeta. apply andb_true_iff.
  unfold detectAdvancedThreats, calculateThreatScore. cbn [snd].
  unfold analyzeSessionBehavior, analyzeNetworkPatterns, analyzeTemporalPatterns,
    analyzeBehaviorAnomalies.
  apply score_range_by_cases. apply checkBehaviorPatterns_values.
Qed.

Lemma ltb_not_leb (a b : float) : PrimFloat.ltb a b = true -> PrimFloat.leb b a = false.
Proof.
  rewrite ltb_spec, leb_spec. unfold SFltb, SFleb.
  destruct (SFcompare (Prim2SF a) (Prim2SF b)) as [c|] eqn:Hc; [|discriminate].
  rewrite (SFcompare_antisym _ _ _ Hc). destruct c; simpl; congruence.
Qed.

(** A double that is at least 75 is at least 50. *)
Lemma at_least_75_at_least_50 (s : float) :
  PrimFloat.leb 75%float s = true -> PrimFloat.leb 50%float s = true.
Proof.
  rewrite !leb_spec. unfold SFleb.
  replace (Prim2SF 75%float) with (S754_finite false 5277655813324800 (-46))
    by (vm_compute; reflexivity).
  replace (Prim2SF 50%float) with (S754_finite false 7036874417766400 (-47))
    by (vm_compute; reflexivity).
  destruct (Prim2SF s) as [sg|sg| |sg m e];
    cbv beta iota delta [SFcompare]; try discriminate.
  - destruct sg; [discriminate|reflexivity].
  - destruct sg; [discriminate|].
    destruct (Z.compare_spec (-46) e) as [<-|Hlt|Hgt]; try discriminate.
    + intros _. reflexivity.
    + intros _. destruct (Z.compare_spec (-47) e) as [Heq|_|Hgt]; [lia|reflexivity|lia].
Qed.

(** What one evaluation does to the store, by the branch taken. *)
Lemma detect_unfolded (env : Environment) (userId activity : string)
    (contextData : ContextData) (st : State) :
  let st1 := addActivityToPattern (now env) userId activity st in
  let st2 := logCriticalAction (mkCritical userId "threat_score_calculated") st1 in
  let score := snd (detectAdvancedThreats env userId activity contextData st) in
  fst (detectAdvancedThreats env userId activity contextData st)
  = updateSecurityMetrics (now env) score
      (if PrimFloat.leb 75%float score then
         let st' := handleHighThreatActivity userId activity score st2 in
         setMetrics (countThreat "high" (securityMetrics st')) st'
       else if PrimFloat.leb 50%float score then
         let st' := handleMediumThreatActivity userId activity score st2 in
         setMetrics (countThreat "medium" (securityMetrics st')) st'
       else if PrimFloat.leb 30%float score then
         setMetrics (countThreat "low" (securityMetrics st2)) st2
       else st2).
Proof. reflexivity. Qed.

(** X22.  Below 75 the account is left alone.  An evaluation whose
    score is below 75 writes nothing to the user's record: no flag and
    no suspension.  From 50 up it files one MEDIUM incident that asks
    for review and sends one urgent notice; below 50 it files no
    incident and sends no notice. *)
Theorem below_75_the_account_is_left_alone (env : Environment) (userId act : string)
    (contextData : ContextData) (st : State) :
  let score := snd (detectAdvancedThreats env userId act contextData st) in
  let st' := fst (detectAdvancedThreats env userId act contextData st) in
  PrimFloat.ltb score 75%float = true ->
  users st' = users st /\
  (PrimFloat.leb 50%float score = true ->
   incidents st' = incidents st ++ [mkIncident userId act score "MEDIUM" [] true] /\
   notices st' = notices st ++ [mkNotice "Security Alert: Medium Threat Detected" "urgent"]) /\
  (PrimFloat.ltb score 50%float = true ->
   incidents st' = incidents st /\ notices st' = notices st).
Proof.
  intros score st' Hlow. unfold st'. rewrite detect_unfolded. fold score. cbv zeta.
  rewrite (ltb_not_leb _ _ Hlow).
  destruct (PrimFloat.leb 50%float score) eqn:H50.
  - split; [reflexivity|]. split; [intros _; split; reflexivity|].
    intros Hlt. rewrite (ltb_not_leb _ _ Hlt) in H50. discriminate.
  - split; [destruct (PrimFloat.leb 30%float score); reflexivity|].
    split; [discriminate|]. intros _.
    destruct (PrimFloat.leb 30%float score); split; reflexivity.
Qed.

(** X23.  The rapid-action test counts the action being evaluated.
    The action is appended to the user's history before the test reads
    it, so with a history of fewer than 200 entries the test answers
    yes exactly when the history already held five entries of the same
    activity, or fifteen entries of any activity, stamped within the
    last minute: the sixth identical action in a minute is the first
    one flagged. *)
Theorem the_sixth_same_action_in_a_minute_is_rapid (t : Z) (userId act : string)
    (st : State) :
  let pattern := default [] (suspiciousPatterns st !! userId) in
  let recent := List.filter (fun entry => t - 60000 <? timestamp entry) pattern in
  let same :=
    List.filter (fun entry => String.eqb (activity entry) act
                              && (t - 60000 <? timestamp entry)) pattern in
  (length pattern < 200)%nat ->
  hasRapidActionPattern t userId act (addActivityToPattern t userId act st)
  = (5 <=? length same)%nat || (15 <=? length recent)%nat.
Proof.
  intros pattern recent same Hlen.
  unfold hasRapidActionPattern, addActivityToPattern. cbn [suspiciousPatterns].
  rewrite lookup_insert_eq. fold pattern.
  assert (Htrim : Js.trim 200 100 (pattern ++ [mkActivity act t])
                  = pattern ++ [mkActivity act t]).
  { unfold Js.trim. rewrite length_app. simpl.
    destruct (Nat.ltb_spec 200 (length pattern + 1)); [lia|reflexivity]. }
  rewrite Htrim, !List.filter_app, !length_app. cbn [List.filter activity timestamp].
  rewrite String.eqb_refl. destruct (Z.ltb_spec (t - 60000) t); [|lia].
  cbn [andb length]. fold recent same.
  pose proof (List.filter_length_le
                (fun entry => t - 60000 <? timestamp entry) pattern) as Hr.
  pose proof (List.filter_length_le
                (fun entry => String.eqb (activity entry) act
                              && (t - 60000 <? timestamp entry)) pattern) as Hs.
  fold recent in Hr. fold same in Hs.
  destruct (Nat.ltb_spec (length pattern + 1) 5),
    (Nat.ltb_spec 5 (length same + 1)), (Nat.ltb_spec 15 (length recent + 1)),
    (Nat.leb_spec 5 (length same)), (Nat.leb_spec 15 (length recent));
    simpl; try reflexivity; lia.
Qed.

Lemma detect_counters (env : Environment) (userId act : string)
    (contextData : ContextData) (st : State) :
  let m := securityMetrics st in
  let m' := securityMetrics (fst (detectAdvancedThreats env userId act contextData st)) in
  totalThreats m' = totalThreats m + 1 /\
  blockedAttempts m' - blockedAttempts m
  = (highThreats m' - highThreats m) + (mediumThreats m' - mediumThreats m) /\
  0 <= highThreats m' - highThreats m /\
  0 <= mediumThreats m' - mediumThreats m /\
  0 <= lowThreats m' - lowThreats m /\
  (highThreats m' - highThreats m) + (mediumThreats m' - mediumThreats m)
  + (lowThreats m' - lowThreats m) <= 1.
Proof.
  cbv zeta. rewrite detect_unfolded. cbv zeta.
  set (score := snd (detectAdvancedThreats env userId act contextData st)).
  unfold updateSecurityMetrics.
  destruct (PrimFloat.leb 75%float score) eqn:H75.
  - rewrite (at_least_75_at_least_50 _ H75). simpl. lia.
  - destruct (PrimFloat.leb 50%float score) eqn:H50.
    + simpl. lia.
    + destruct (PrimFloat.leb 30%float score); simpl; lia.
Qed.

(** X24.  The counters of the security metrics stay consistent over
    any sequence of evaluations: [totalThreats] grows by the number of
    evaluations, [blockedAttempts] grows by exactly what [highThreats]
    and [mediumThreats] grow by together, no band counter decreases,
    and the three band counters together grow by at most the number of
    evaluations. *)
Theorem security_counters_stay_consistent (evaluations : list Evaluation) (st : State) :
  let m := securityMetrics st in
  let m' := securityMetrics (detectAll evaluations st) in
  totalThreats m' = totalThreats m + Z.of_nat (length evaluations) /\
  blockedAttempts m' - blockedAttempts m
  = (highThreats m' - highThreats m) + (mediumThreats m' - mediumThreats m) /\
  0 <= highThreats m' - highThreats m /\
  0 <= mediumThreats m' - mediumThreats m /\
  0 <= lowThreats m' - lowThreats m /\
  (highThreats m' - highThreats m) + (mediumThreats m' - mediumThreats m)
  + (lowThreats m' - lowThreats m) <= Z.of_nat (length evaluations).
Proof.
  revert st. induction evaluations as [|e rest IH]; intros st.
  - simpl. lia.
  - unfold detectAll in *. cbn [foldl]. cbv zeta in *.
    pose proof (detect_counters (evalEnvironment e) (evalUser e) (evalActivity e)
                  (evalContext e) st) as Hone.
    cbv zeta in Hone.
    specialize (IH (fst (detectAdvancedThreats (evalEnvironment e) (evalUser e)
                           (evalActivity e) (evalContext e) st))).
    cbn [length]. lia.
Qed.

End ThreatBands.

Lemma below_75_the_account_is_left_alone_witness :
  let run :=
    EnhancedSecurityMonitoring.detectAdvancedThreats
      EnhancedSecurityMonitoring.noonEnvironment "u1" "dispatch_order"
      (EnhancedSecurityMonitoring.mkContext
         true false false false false false false false (Some "203.0.113.7"))
      EnhancedSecurityMonitoring.initial in
  snd run = 60%float /\
  EnhancedSecurityMonitoring.users (fst run) = ∅ /\
  length (EnhancedSecurityMonitoring.incidents (fst run)) = 1%nat.
Proof.
  intros run.
  destruct (below_75_the_account_is_left_alone
              EnhancedSecurityMonitoring.noonEnvironment "u1" "dispatch_order"
              (EnhancedSecurityMonitoring.mkContext
                 true false false false false false false false (Some "203.0.113.7"))
              EnhancedSecurityMonitoring.initial)
    as [Hu [Hmedium _]].
  - vm_compute. reflexivity.
  - fold run in Hu, Hmedium. split; [vm_compute; reflexivity|].
    split; [exact Hu|]. destruct Hmedium as [Hi _]; [vm_compute; reflexivity|].
    rewrite Hi. reflexivity.
Defined.

(** Five orders placed within the last minute, then a sixth. *)
Lemma the_sixth_same_action_in_a_minute_is_rapid_witness :
  let history :=
    map (EnhancedSecurityMonitoring.mkActivity "place_order") [1000; 2000; 3000; 4000; 5000] in
  let st :=
    EnhancedSecurityMonitoring.mkState {[ "u1" := history ]}
      (EnhancedSecurityMonitoring.securityMetrics EnhancedSecurityMonitoring.initial)
      ∅ [] [] [] in
  EnhancedSecurityMonitoring.hasRapidActionPattern 6000 "u1" "place_order"
    (EnhancedSecurityMonitoring.addActivityToPattern 6000 "u1" "place_order" st)
  = true.
Proof.
  intros history st.
  rewrite (the_sixth_same_action_in_a_minute_is_rapid 6000 "u1" "place_order" st).
  - reflexivity.
  - vm_compute. lia.
Defined.

(** ** Spatial index: structure *)

Section IndexStructure.
Import OptimizedDriverSearch.
Variable getGridKey : float -> float -> string.

Implicit Types (d : Driver) (index : gmap string (list Driver)) (k : string).

Lemma upsert_ids x (cell : list Driver) :
  NoDup (map id cell) -> NoDup (map id (upsert x cell)).
Proof.
  induction cell as [|c cell IH]; simpl; intros Hnd.
  - apply NoDup_singleton.
  - apply NoDup_cons in Hnd as [Hc Hnd].
    destruct (String.eqb_spec (id c) (id x)) as [Heq|Hne]; simpl.
    + apply NoDup_cons. split; [rewrite <- Heq; exact Hc|exact Hnd].
    + apply NoDup_cons. split; [|apply IH; exact Hnd].
      intros Hin. apply list_elem_of_In, in_map_iff in Hin as [y [Hy Hin]].
      apply In_upsert in Hin as [->|Hin]; [congruence|].
      apply Hc, list_elem_of_In, in_map_iff. exists y. split; assumption.
Qed.

Lemma filter_ids (p : Driver -> bool) (cell : list Driver) :
  NoDup (map id cell) -> NoDup (map id (List.filter p cell)).
Proof.
  induction cell as [|c cell IH]; simpl; intros Hnd; [exact Hnd|].
  apply NoDup_cons in Hnd as [Hc Hnd]. destruct (p c); simpl; [|apply IH; exact Hnd].
  apply NoDup_cons. split; [|apply IH; exact Hnd].
  intros Hin. apply Hc. apply list_elem_of_In, in_map_iff in Hin as [y [Hy Hin]].
  apply list_elem_of_In, in_map_iff. exists y. split; [exact Hy|].
  apply filter_In in Hin. tauto.
Qed.

Lemma indexed_ids (now : Z) (drivers : list Driver) k :
  NoDup (map id (default [] (foldl (indexDriver getGridKey now) ∅ drivers !! k))).
Proof.
  induction drivers as [|x drivers IH] using rev_ind.
  - simpl. rewrite lookup_empty. apply NoDup_nil_2.
  - rewrite foldl_app. simpl foldl.
    set (index := foldl (indexDriver getGridKey now) ∅ drivers) in *.
    unfold indexDriver. destruct (hasPosition x); [|exact IH].
    destruct (seenRecently now x); rewrite cell_insert;
      destruct (String.eqb_spec (gridKeyOf getGridKey x) k) as [->|Hne];
      try exact IH.
    apply upsert_ids. exact IH.
Qed.

Lemma cleanup_lookup (now : Z) index k (cell : list Driver) :
  cleanupOldIndexEntries now index !! k = Some cell ->
  cell <> [] /\
  exists old, index !! k = Some old /\ cell = List.filter (stillActive now) old.
Proof.
  unfold cleanupOldIndexEntries. rewrite lookup_omap.
  destruct (index !! k) as [old|]; simpl; [|discriminate].
  destruct (List.filter (stillActive now) old) as [|c rest] eqn:Hf; [discriminate|].
  intros [= <-]. split; [discriminate|]. exists old. split; [reflexivity|].
  symmetry. exact Hf.
Qed.

(** X25.  A cell of the index holds a driver at most once, but the
    index may hold it twice.  After [updateSpatialIndex] on any list of
    drivers, duplicates included, no cell is empty and no driver id
    occurs twice within a cell.  The replacement is per cell, though:
    two live records with the same id and different grid keys are both
    kept, each in its own cell. *)
Theorem a_cell_holds_each_driver_once (now nowCleanup : Z) (drivers : list Driver) :
  (forall k (cell : list Driver),
      updateSpatialIndex getGridKey now nowCleanup drivers !! k = Some cell ->
      cell <> [] /\ NoDup (map id cell)) /\
  (forall d1 d2,
      hasPosition d1 = true -> hasPosition d2 = true ->
      seenRecently now d1 = true -> seenRecently now d2 = true ->
      stillActive nowCleanup d1 = true -> stillActive nowCleanup d2 = true ->
      gridKeyOf getGridKey d1 <> gridKeyOf getGridKey d2 ->
      let index := updateSpatialIndex getGridKey now nowCleanup [d1; d2] in
      index !! gridKeyOf getGridKey d1 = Some [d1] /\
      index !! gridKeyOf getGridKey d2 = Some [d2]).
Proof.
  split.
  - intros k cell Hcell. unfold updateSpatialIndex in Hcell.
    apply cleanup_lookup in Hcell as [Hne [old [Hold ->]]]. split; [exact Hne|].
    apply filter_ids.
    pose proof (indexed_ids now drivers k) as Hids. rewrite Hold in Hids. exact Hids.
  - intros d1 d2 Hp1 Hp2 Hs1 Hs2 Ha1 Ha2 Hne index.
    unfold index, updateSpatialIndex, cleanupOldIndexEntries. simpl foldl.
    unfold indexDriver. rewrite Hp1, Hs1, Hp2, Hs2.
    rewrite lookup_empty. simpl default.
    rewrite (lookup_insert_ne _ _ _ _ Hne), lookup_empty. simpl default.
    rewrite !lookup_omap.
    rewrite (lookup_insert_ne _ _ _ _ (not_eq_sym Hne)), lookup_insert_eq, lookup_insert_eq.
    simpl. rewrite Ha1, Ha2. split; reflexivity.
Qed.

End IndexStructure.

Section IndexCleanup.
Import OptimizedDriverSearch.
Implicit Types (d : Driver) (index : gmap string (list Driver)) (k : string).

Lemma stillActive_earlier (t1 t2 : Z) d :
  t1 <= t2 -> stillActive t2 d = true -> stillActive t1 d = true.
Proof.
  unfold stillActive. intros Hle H. apply andb_prop in H as [-> H]. simpl.
  destruct (lastSeenOnline d) as [t|]; [|discriminate].
  apply Z.ltb_lt in H. apply Z.ltb_lt. unfold livenessWindow in *. lia.
Qed.

Lemma filter_filter_implied (p q : Driver -> bool) (l : list Driver) :
  (forall d, q d = true -> p d = true) ->
  List.filter q (List.filter p l) = List.filter q l.
Proof.
  intros Himp. induction l as [|c l IH]; simpl; [reflexivity|].
  destruct (p c) eqn:Hp; simpl.
  - rewrite IH. reflexivity.
  - destruct (q c) eqn:Hq; [rewrite (Himp c Hq) in Hp; discriminate|exact IH].
Qed.

(** X26.  Cleanups compose.  A cleanup at [t2] after a cleanup at an
    earlier [t1] leaves the index the cleanup at [t2] alone would leave
    (so a cleanup repeated at the same instant changes nothing); what it
    leaves has no empty cell and only drivers that are active and were
    seen less than ten minutes before [t2]. *)
Theorem a_later_cleanup_subsumes_an_earlier_one (t1 t2 : Z) index :
  t1 <= t2 ->
  cleanupOldIndexEntries t2 (cleanupOldIndexEntries t1 index)
  = cleanupOldIndexEntries t2 index /\
  (forall k (cell : list Driver),
      cleanupOldIndexEntries t2 index !! k = Some cell ->
      cell <> [] /\ Forall (fun d => stillActive t2 d = true) cell).
Proof.
  intros Hle. split.
  - apply map_eq. intros k. unfold cleanupOldIndexEntries. rewrite !lookup_omap.
    destruct (index !! k) as [old|]; [|reflexivity].
    cbn [option_fmap option_map omap mbind option_bind].
    rewrite <- (filter_filter_implied (stillActive t1) (stillActive t2) old
                  (fun d => stillActive_earlier t1 t2 d Hle)).
    destruct (List.filter (stillActive t1) old) as [|c rest]; reflexivity.
  - intros k cell Hcell.
    apply cleanup_lookup in Hcell as [Hne [old [_ ->]]]. split; [exact Hne|].
    apply Forall_forall. intros d Hd. apply list_elem_of_In, filter_In in Hd. tauto.
Qed.

Lemma statistics_of_nonempty_cells index :
  (forall k (cell : list Driver), index !! k = Some cell -> cell <> []) ->
  Z.of_nat (size index)
  <= map_fold (fun _ (drivers : list Driver) total => total + Z.of_nat (length drivers))
       0 index.
Proof.
  apply (map_fold_weak_ind
           (fun total (m : gmap string (list Driver)) =>
              (forall k cell, m !! k = Some cell -> cell <> []) ->
              Z.of_nat (size m) <= total)).
  - intros _. rewrite map_size_empty. lia.
  - intros k cell m total Hnone IH Hcells.
    rewrite (map_size_insert_None _ _ _ Hnone).
    assert (Hm : forall k' c, m !! k' = Some c -> c <> []).
    { intros k' c Hc. apply (Hcells k'). rewrite lookup_insert_ne; [exact Hc|].
      intros ->. congruence. }
    specialize (IH Hm).
    assert (Hcell : cell <> []) by (apply (Hcells k); apply lookup_insert_eq).
    destruct cell as [|c cell]; [contradiction|]. simpl length. lia.
Qed.

(** X27.  After a cleanup the statistics never show an empty grid:
    every entry of [gridStats] is at least 1 and [totalDrivers] is at
    least [totalGrids]. *)
Theorem statistics_after_cleanup_have_no_empty_grid (now : Z) index :
  let stats := getSpatialIndexStatistics (cleanupOldIndexEntries now index) in
  0 <= totalGrids stats <= totalDrivers stats /\
  (forall k (n : Z), gridStats stats !! k = Some n -> 1 <= n).
Proof.
  cbv zeta. unfold getSpatialIndexStatistics. cbn [totalGrids totalDrivers gridStats].
  assert (Hcells : forall k (cell : list Driver),
             cleanupOldIndexEntries now index !! k = Some cell -> cell <> []).
  { intros k cell Hcell. apply cleanup_lookup in Hcell. tauto. }
  split; [split; [lia|]|].
  - apply statistics_of_nonempty_cells. exact Hcells.
  - intros k n. rewrite lookup_fmap.
    destruct (cleanupOldIndexEntries now index !! k) as [cell|] eqn:Hcell; [|discriminate].
    simpl. intros [= <-]. specialize (Hcells k cell Hcell).
    destruct cell; [contradiction|]. simpl length. lia.
Qed.

End IndexCleanup.

Section ResourceStatusFacts.
Import SmartResourceManager.

(** X28.  The status report and the admission test agree.  For a
    resource type that has a counter, with a non-negative count, an
    acquisition of a positive amount succeeds exactly when the amount is
    at most the [available] figure that [getResourceStatus] shows for
    it.  For [activeDispatch] and [cpuUsage] no limit key resolves
    ([maxActiveDispatch], [maxCpuUsage]), so the report shows limit 0
    and nothing available. *)
Theorem status_tells_what_can_be_acquired (st : State) (rt : string) (value amt : Z) :
  resourceUsage st !! rt = Some value -> 0 <= value -> 0 < amt ->
  exists s,
    getResourceStatus st !! rt = Some s /\ current s = value /\
    ((exists h, snd (acquireResource st rt amt) = inl h) <-> amt <= available s) /\
    (rt = "activeDispatch" \/ rt = "cpuUsage" -> limit s = 0 /\ available s = 0).
Proof.
  intros Hv Hpos Hamt. unfold getResourceStatus. rewrite map_lookup_imap, Hv. simpl.
  eexists. split; [reflexivity|]. cbn [current limit available]. split; [reflexivity|].
  split.
  - unfold acquireResource. rewrite Hv. simpl default.
    destruct (resourceLimits !! limitKey rt) as [l|]; simpl default.
    + destruct (Z.ltb_spec l (value + amt)); simpl; split.
      * intros [h Hh]. discriminate Hh.
      * lia.
      * lia.
      * intros _. eexists. reflexivity.
    + simpl. split; [intros [h Hh]; discriminate Hh|lia].
  - intros [->| ->]; vm_compute; destruct value; try reflexivity; lia.
Qed.

End ResourceStatusFacts.

Lemma a_cell_holds_each_driver_once_witness :
  let grid := fun (latitude _ : float) =>
                if PrimFloat.ltb latitude 34.055%float then "south" else "north" in
  let here := OptimizedDriverSearch.mkDriver "driver1"
                (Some (OptimizedDriverSearch.mkLocation 34.05%float (-118.25)%float))
                true true (Some 1700000650000) in
  let there := OptimizedDriverSearch.mkDriver "driver1"
                 (Some (OptimizedDriverSearch.mkLocation 34.06%float (-118.25)%float))
                 true true (Some 1700000655000) in
  let index := OptimizedDriverSearch.updateSpatialIndex grid 1700000660000 1700000660000
                 [here; there] in
  index !! "south" = Some [here] /\ index !! "north" = Some [there].
Proof.
  intros grid here there index.
  destruct (a_cell_holds_each_driver_once grid 1700000660000 1700000660000 [here; there])
    as [_ Hboth].
  apply (Hboth here there); try reflexivity. vm_compute. discriminate.
Defined.

Lemma a_later_cleanup_subsumes_an_earlier_one_witness :
  let index : gmap string (list OptimizedDriverSearch.Driver) :=
    {[ "34.050000_-118.250000" := [OptimizedDriverSearch.heartbeatAtWindow] ]} in
  OptimizedDriverSearch.cleanupOldIndexEntries 1700000600000
    (OptimizedDriverSearch.cleanupOldIndexEntries 1700000500000 index)
  = OptimizedDriverSearch.cleanupOldIndexEntries 1700000600000 index.
Proof.
  intros index.
  destruct (a_later_cleanup_subsumes_an_earlier_one 1700000500000 1700000600000 index)
    as [Hsame _].
  - lia.
  - exact Hsame.
Defined.

Lemma status_tells_what_can_be_acquired_witness :
  exists s,
    SmartResourceManager.getResourceStatus SmartResourceManager.initial
      !! "databaseConnections" = Some s /\
    SmartResourceManager.available s = 50.
Proof.
  destruct (status_tells_what_can_be_acquired SmartResourceManager.initial
              "databaseConnections" 0 50) as [s [Hs _]].
  - reflexivity.
  - lia.
  - lia.
  - exists s. split; [exact Hs|].
    vm_compute in Hs. injection Hs as <-. reflexivity.
Defined.

(** ** Driver ranking *)

Section Ranking.
Import SmartDriverMatching.
Context {Driver OrderData ContextData : Type}.
Variable calculateDriverScore : Driver -> OrderData -> ContextData -> float.

Lemma eqb_leb_refl (a : float) : PrimFloat.eqb a a = true -> PrimFloat.leb a a = true.
Proof.
  rewrite FloatAxioms.eqb_spec, leb_spec. unfold SFeqb, SFleb.
  destruct (SFcompare (Prim2SF a) (Prim2SF a)) as [[| |]|]; congruence.
Qed.

(** X29.  [findOptimalDriver] ranks, it does not select.  Every
    available driver comes back exactly once, paired with its score, so
    the result has the length of the input and is empty only when no
    driver is available, however low the scores; when no score is
    [NaN] the result is in descending order of score. *)
Theorem every_available_driver_is_ranked (orderData : OrderData)
    (availableDrivers : list Driver) (contextData : ContextData) :
  let score := fun driver => calculateDriverScore driver orderData contextData in
  let ranked := findOptimalDriver calculateDriverScore orderData availableDrivers contextData in
  Permutation (map (fun driver => mkScored driver (score driver)) availableDrivers) ranked /\
  length ranked = length availableDrivers /\
  (Forall (fun driver => PrimFloat.eqb (score driver) (score driver) = true)
          availableDrivers ->
   Sorted (fun a b => PrimFloat.leb (matchScore b) (matchScore a) = true) ranked).
Proof.
  intros score ranked. unfold ranked, findOptimalDriver. fold score.
  set (scored := map (fun driver => mkScored driver (score driver)) availableDrivers).
  pose proof (sortBy_perm lowerScore scored) as Hperm.
  split; [exact Hperm|]. split.
  - transitivity (length scored);
      [symmetry; apply Permutation_length; exact Hperm | unfold scored; apply length_map].
  - intros Hnum.
    apply (sortBy_sorted lowerScore _
             (fun n : Scored => PrimFloat.eqb (matchScore n) (matchScore n) = true)).
    + intros a b. unfold lowerScore. apply ltb_leb.
    + intros a b Ha Hb. unfold lowerScore.
      apply (leb_total _ _ _ _ (eqb_leb_refl _ Hb) (eqb_leb_refl _ Ha)).
    + unfold scored. apply Forall_forall. intros n Hn.
      apply list_elem_of_In, in_map_iff in Hn as [driver [<- Hin]]. simpl.
      rewrite Forall_forall in Hnum. apply Hnum, list_elem_of_In. exact Hin.
Qed.

End Ranking.

(** ** Scheduled cleanup *)

Section CleanupCycles.
Import AutoCleanupService.

Lemma runRule_other (c : Cycle) (st : State) (entry : string * Rule) (name : string) :
  fst entry <> name ->
  lastCleanup (runRule c st entry) !! name = lastCleanup st !! name /\
  runsOf name (runRule c st entry) = runsOf name st.
Proof.
  destruct entry as [n r]. simpl. intros Hne. unfold runRule, runsOf.
  destruct (_ <=? _); [|split; reflexivity].
  destruct (executeCleanupRule c n); simpl;
    rewrite ?lookup_insert_ne by exact Hne; rewrite List.filter_app; simpl;
    destruct (String.eqb_spec n name); try contradiction;
    rewrite app_nil_r; split; reflexivity.
Qed.

Lemma runRules_other (c : Cycle) (rules : list (string * Rule)) (name : string) :
  ~ In name (map fst rules) ->
  forall st,
    lastCleanup (runRules c rules st) !! name = lastCleanup st !! name /\
    runsOf name (runRules c rules st) = runsOf name st.
Proof.
  induction rules as [|entry rules IH]; intros Hnot st; [split; reflexivity|].
  simpl in Hnot.
  change (runRules c (entry :: rules) st) with (runRules c rules (runRule c st entry)).
  destruct (IH (fun H => Hnot (or_intror H)) (runRule c st entry)) as [H1 H2].
  destruct (runRule_other c st entry name (fun H => Hnot (or_introl H))) as [H3 H4].
  split; congruence.
Qed.

Lemma runRule_same (c : Cycle) (st : State) (name : string) (rule : Rule) :
  let due := intervalMinutes rule * 60 * 1000
             <=? clockAt c name - default 0 (lastCleanup st !! name) in
  lastCleanup (runRule c st (name, rule)) !! name
  = (if due then match executeCleanupRule c name with
                 | inl _ => Some (clockAt c name)
                 | inr _ => lastCleanup st !! name
                 end
     else lastCleanup st !! name) /\
  runsOf name (runRule c st (name, rule))
  = runsOf name st ++ (if due then [(name, clockAt c name)] else []).
Proof.
  cbv zeta. unfold runRule, runsOf.
  destruct (_ <=? _); [|rewrite app_nil_r; split; reflexivity].
  destruct (executeCleanupRule c name); simpl;
    rewrite ?lookup_insert_eq; rewrite List.filter_app; simpl;
    rewrite String.eqb_refl; split; reflexivity.
Qed.

Lemma runRules_same (c : Cycle) (rules : list (string * Rule)) (name : string) (rule : Rule) :
  NoDup (map fst rules) -> In (name, rule) rules ->
  forall st,
    let due := intervalMinutes rule * 60 * 1000
               <=? clockAt c name - default 0 (lastCleanup st !! name) in
    lastCleanup (runRules c rules st) !! name
    = (if due then match executeCleanupRule c name with
                   | inl _ => Some (clockAt c name)
                   | inr _ => lastCleanup st !! name
                   end
       else lastCleanup st !! name) /\
    runsOf name (runRules c rules st)
    = runsOf name st ++ (if due then [(name, clockAt c name)] else []).
Proof.
  induction rules as [|[n r] rules IH]; intros Hnd Hin st; [destruct Hin|].
  simpl in Hnd. apply NoDup_cons in Hnd as [Hfresh Hnd].
  cbv zeta.
  change (runRules c ((n, r) :: rules) st) with (runRules c rules (runRule c st (n, r))).
  destruct Hin as [[= -> ->]|Hin].
  - destruct (runRules_other c rules name
                (fun H => Hfresh (proj2 (list_elem_of_In _ _) H))
                (runRule c st (name, rule))) as [H1 H2].
    rewrite H1, H2. apply runRule_same.
  - assert (Hne : n <> name).
    { intros ->. apply Hfresh, list_elem_of_In, in_map_iff. exists (name, rule).
      split; [reflexivity|exact Hin]. }
    destruct (runRule_other c st (n, r) name Hne) as [H1 H2].
    specialize (IH Hnd Hin (runRule c st (n, r))). cbv zeta in IH.
    rewrite H1, H2 in IH. exact IH.
Qed.

Lemma cleanupRules_distinct : NoDup (map fst cleanupRules).
Proof.
  simpl. repeat (apply NoDup_cons; split;
                 [intros H; apply list_elem_of_In in H; simpl in H;
                  repeat (destruct H as [H|H]; [discriminate H|]); exact H|]).
  apply NoDup_nil_2.
Qed.

(** X30.  A cleanup rule runs at most once per interval, and a rule
    that failed stays due.  In a cycle a rule is executed exactly when
    its interval has passed since its last recorded run.  If that
    execution succeeds, a later cycle that reads the clock less than
    the interval after it does not execute the rule again; if it
    throws, the last run is not recorded and the next cycle executes
    the rule again, however soon it comes.  The other rules of the
    cycle run either way. *)
Theorem a_cleanup_rule_runs_once_per_interval (c1 c2 : Cycle) (st : State)
    (name : string) (rule : Rule) :
  In (name, rule) cleanupRules ->
  let interval := intervalMinutes rule * 60 * 1000 in
  let lastRun := default 0 (lastCleanup st !! name) in
  let st1 := runScheduledCleanup c1 st in
  let st2 := runScheduledCleanup c2 st1 in
  runsOf name st1
  = runsOf name st
    ++ (if interval <=? clockAt c1 name - lastRun then [(name, clockAt c1 name)] else []) /\
  (interval <= clockAt c1 name - lastRun ->
   match executeCleanupRule c1 name with
   | inl _ =>
       clockAt c2 name - clockAt c1 name < interval -> runsOf name st2 = runsOf name st1
   | inr _ =>
       clockAt c1 name <= clockAt c2 name ->
       runsOf name st2 = runsOf name st1 ++ [(name, clockAt c2 name)]
   end).
Proof.
  intros Hin interval lastRun st1 st2.
  destruct (runRules_same c1 cleanupRules name rule cleanupRules_distinct Hin st)
    as [Hlast1 Hruns1].
  destruct (runRules_same c2 cleanupRules name rule cleanupRules_distinct Hin st1)
    as [_ Hruns2].
  cbv zeta in *. fold interval lastRun in Hlast1, Hruns1.
  fold (runScheduledCleanup c1 st) in Hlast1, Hruns1. fold st1 in Hlast1, Hruns1, Hruns2.
  fold (runScheduledCleanup c2 st1) in Hruns2. fold st2 interval in Hruns2.
  split; [exact Hruns1|]. intros Hdue.
  destruct (Z.leb_spec interval (clockAt c1 name - lastRun)); [|lia].
  destruct (executeCleanupRule c1 name) as [n|e].
  - intros Hsoon. rewrite Hruns2, Hlast1. simpl default.
    destruct (Z.leb_spec interval (clockAt c2 name - clockAt c1 name)); [lia|].
    apply app_nil_r.
  - intros Hlater. rewrite Hruns2, Hlast1. fold lastRun.
    destruct (Z.leb_spec interval (clockAt c2 name - lastRun)); [reflexivity|lia].
Qed.

End CleanupCycles.

Lemma every_available_driver_is_ranked_witness :
  let score := fun (driver : string) (_ _ : unit) =>
                 if String.eqb driver "driver1" then 80.5%float else 95%float in
  SmartDriverMatching.findOptimalDriver score tt ["driver1"; "driver2"] tt
  = [SmartDriverMatching.mkScored "driver2" 95%float;
     SmartDriverMatching.mkScored "driver1" 80.5%float] /\
  Sorted (fun a b => PrimFloat.leb (SmartDriverMatching.matchScore b)
                       (SmartDriverMatching.matchScore a) = true)
         (SmartDriverMatching.findOptimalDriver score tt ["driver1"; "driver2"] tt).
Proof.
  intros score. split; [reflexivity|].
  destruct (every_available_driver_is_ranked score tt ["driver1"; "driver2"] tt)
    as [_ [_ Hsorted]].
  apply Hsorted. repeat constructor.
Defined.

(** The first cycle after [initialize], then one a minute later. *)
Lemma a_cleanup_rule_runs_once_per_interval_witness :
  let c1 := AutoCleanupService.mkCycle (fun _ => 1700000000000) (fun _ => inl 12) in
  let c2 := AutoCleanupService.mkCycle (fun _ => 1700000060000) (fun _ => inl 0) in
  let st1 := AutoCleanupService.runScheduledCleanup c1 AutoCleanupService.initialize in
  let st2 := AutoCleanupService.runScheduledCleanup c2 st1 in
  AutoCleanupService.runsOf "expired_orders" st1 = [("expired_orders", 1700000000000)] /\
  AutoCleanupService.runsOf "expired_orders" st2 = AutoCleanupService.runsOf "expired_orders" st1.
Proof.
  intros c1 c2 st1 st2.
  destruct (a_cleanup_rule_runs_once_per_interval c1 c2 AutoCleanupService.initialize
              "expired_orders" (AutoCleanupService.mkRule "restaurant_orders" 7 50 60))
    as [Hfirst Hnext].
  - left. reflexivity.
  - fold st1 in Hfirst, Hnext. fold st2 in Hnext. split.
    + rewrite Hfirst. reflexivity.
    + apply Hnext; vm_compute; [discriminate|reflexivity].
Defined.
